(** * Perceptual duplicate detection and multi-stage image verification

    A shallow embedding of [ImageProcessor] (utils/imageProcessing.js) and
    [AdvancedImageMatcher] (the multi-stage verifier) of nostr-object-identity,
    together with the guard of the [/api/verify] route that fronts the
    verifier.

    Conventions of the embedding.
    - A fingerprint is a JavaScript string of hexadecimal digits: [string].
    - JavaScript numbers that occur in the code are integers, [Infinity] or
      [NaN]: the type [number].  Confidences and similarities are the
      decimal literals of the source, kept as exact rationals.
    - The image libraries ([sharp], [image-hash], [crypto]) are not part of
      the repository; they are taken as a record of oracles [Externals].
    - Asynchronous functions are run to completion: a call either returns,
      throws, or (for [while] loops) may fail to terminate.  Every call also
      yields the list of library operations and fingerprint comparisons it
      performed, in order. *)

From Stdlib Require Import ZArith List String Ascii Bool Lia QArith Qround.
Import ListNotations.
Local Open Scope string_scope.
Local Open Scope list_scope.
Local Open Scope Z_scope.

Set Implicit Arguments.

(** ** JavaScript values used by the matchers *)

Module JS.

(** A JavaScript number as the matchers meet it. *)
Inductive number : Type :=
| Num (z : Z)
| Infinity
| NaN.

(** [a <= b] on numbers; any comparison with [NaN] is false. *)
Definition le (a b : number) : bool :=
  match a, b with
  | Num x, Num y => x <=? y
  | Num _, Infinity => true
  | Infinity, Infinity => true
  | _, _ => false
  end.

(** [a < b] on numbers. *)
Definition lt (a b : number) : bool :=
  match a, b with
  | Num x, Num y => x <? y
  | Num _, Infinity => true
  | _, _ => false
  end.

(** [Math.min(a, b)]. *)
Definition min (a b : number) : number :=
  match a, b with
  | NaN, _ | _, NaN => NaN
  | Num x, Num y => Num (Z.min x y)
  | Num x, Infinity => Num x
  | Infinity, Num y => Num y
  | Infinity, Infinity => Infinity
  end.

(** [ToInt32]: the operand conversion of the bitwise operators. *)
Definition ToInt32 (x : number) : Z :=
  match x with
  | Num z => (z + 2 ^ 31) mod 2 ^ 32 - 2 ^ 31
  | Infinity | NaN => 0
  end.

(** [a ^ b]. *)
Definition xor (a b : number) : Z := Z.lxor (ToInt32 a) (ToInt32 b).

(** [s[i]]: the character at index [i], [undefined] out of range. *)
Definition index (s : string) (i : nat) : option ascii := String.get i s.

(** The value of one hexadecimal digit, if the character is one. *)
Definition hexDigit (c : ascii) : option Z :=
  let n := Z.of_nat (nat_of_ascii c) in
  if (48 <=? n) && (n <=? 57) then Some (n - 48)
  else if (97 <=? n) && (n <=? 102) then Some (n - 87)
  else if (65 <=? n) && (n <=? 70) then Some (n - 55)
  else None.

(** [parseInt(s[i], 16)] for a one-character operand: the digit's value,
    [NaN] for any other character and for [undefined]. *)
Definition parseInt16 (c : option ascii) : number :=
  match c with
  | Some ch => match hexDigit ch with Some v => Num v | None => NaN end
  | None => NaN
  end.

(** [n.toString(2)] for a non-negative integer. *)
Fixpoint binaryDigits (p : positive) : string :=
  match p with
  | xH => "1"
  | xO q => binaryDigits q ++ "0"
  | xI q => binaryDigits q ++ "1"
  end.

Definition toString2 (n : Z) : string :=
  match n with
  | Z0 => "0"
  | Zpos p => binaryDigits p
  | Zneg p => "-" ++ binaryDigits p
  end.

(** [s.split(sep)] for a one-character separator. *)
Fixpoint split (sep : ascii) (s : string) : list string :=
  match s with
  | EmptyString => [""]
  | String c rest =>
      if Ascii.eqb c sep then "" :: split sep rest
      else match split sep rest with
           | [] => [String c ""]
           | piece :: pieces => String c piece :: pieces
           end
  end.

(** An exception value: [new Error(message)], or whatever a library throws. *)
Inductive exn : Type :=
| Error (message : string).

(** How a call ends. *)
Inductive completion (A : Type) : Type :=
| Normal (a : A)
| Throw (e : exn)
| Diverge.

Arguments Throw {A} e.
Arguments Diverge {A}.

End JS.
Import JS.

(** ** Observable steps of a call *)

(** The transform a fingerprint is computed from. *)
Inductive transform : Type :=
| Original
| Rotated (angle : Z)
| Scaled (factor : Q).

(** Which loop a fingerprint comparison belongs to. *)
Inductive comparison : Type :=
| Primary                 (* findBestMatch, primary against a record *)
| Variant                 (* findBestMatch, a variant against a record *)
| Direct                  (* verifyImageMatch, stage 1 *)
| Rotation (angle : Z).   (* verifyImageMatch, stage 2 *)

Inductive event : Type :=
| Canonicalize                                  (* the normalising sharp pipeline *)
| Transform (t : transform)                     (* sharp rotate / resize *)
| Fingerprint (t : transform)                   (* imageHash(path, 16, 'hex') *)
| Describe                                      (* sharp metadata() and stats() *)
| Compare (k : comparison) (h1 h2 : string)     (* a call of hammingDistance *)
| Histogram                                     (* generateColorHistogram *)
| Edges.                                        (* generateEdgeHash *)

(** ** Calls with local state, exceptions and a trace *)

Definition M (S A : Type) : Type := S -> completion A * S * list event.

Definition ret {S A} (a : A) : M S A := fun s => (Normal a, s, []).

Definition bind {S A B} (m : M S A) (k : A -> M S B) : M S B :=
  fun s =>
    match m s with
    | (Normal a, s1, t1) =>
        match k a s1 with (r, s2, t2) => (r, s2, t1 ++ t2) end
    | (Throw e, s1, t1) => (Throw e, s1, t1)
    | (Diverge, s1, t1) => (Diverge, s1, t1)
    end.

Definition throw {S A} (e : exn) : M S A := fun s => (Throw e, s, []).

(** [try { body } catch (error) { handler }] *)
Definition try_catch {S A} (body : M S A) (handler : exn -> M S A) : M S A :=
  fun s =>
    match body s with
    | (Throw e, s1, t1) =>
        match handler e s1 with (r, s2, t2) => (r, s2, t1 ++ t2) end
    | other => other
    end.

Definition emit {S} (e : event) : M S unit := fun s => (Normal tt, s, [e]).

Definition get {S} : M S S := fun s => (Normal s, s, []).

Definition modify {S} (f : S -> S) : M S unit := fun s => (Normal tt, f s, []).

(** The outcome of a pure computation, as a call. *)
Definition lift {S A} (c : completion A) : M S A := fun s => (c, s, []).

(** A library call: succeeds with a value or throws. *)
Definition call {S A} (r : exn + A) : M S A :=
  match r with
  | inr a => ret a
  | inl e => throw e
  end.

Declare Scope js_scope.
Delimit Scope js_scope with js.
Notation "x <- m ;; k" := (bind m (fun x => k))
  (at level 61, m at next level, right associativity) : js_scope.
Notation "m ;;; k" := (bind m (fun _ => k))
  (at level 61, right associativity) : js_scope.
Local Open Scope js_scope.

(** ** The image libraries *)

(** What the code asks of [sharp], [image-hash] and [crypto].  [Buffer] is
    the type of encoded images (request bodies, intermediate buffers and the
    temporary [.jpg] files alike).  An operation returns [inl e] when the
    library throws [e]. *)
Record Externals (Buffer : Type) : Type := {
  (* sharp(b).rotate().resize(512, 512, {fit: 'inside', withoutEnlargement:
     false, background: white}).jpeg({quality: 90}).toBuffer() *)
  sharp_normalize : Buffer -> exn + Buffer;
  (* sharp(b).rotate(angle, {background: white}), encoded *)
  sharp_rotate : Z -> Buffer -> exn + Buffer;
  (* sharp(b).resize(w, h, {fit: 'inside', background: white}), encoded *)
  sharp_resize : Z -> Z -> Buffer -> exn + Buffer;
  (* sharp(b).toFile(path): the content of the written file *)
  sharp_toFile : Buffer -> exn + Buffer;
  (* promisify(imageHash)(path, 16, 'hex') on a written file *)
  imageHash : Buffer -> exn + string;
  (* `${metadata.width}x${metadata.height}_${metadata.format}_${JSON.stringify(stats.channels)}` *)
  sharp_describe : Buffer -> exn + string;
  (* crypto.createHash('sha256').update(data).digest('hex') *)
  sha256_hex : string -> string;
  (* the sharp pipelines inside generateColorHistogram and generateEdgeHash,
     with the arithmetic on their raw output *)
  Signature : Type;
  sharp_histogram : Buffer -> exn + Signature;
  sharp_edges : Buffer -> exn + Signature
}.

(** [Math.round(x)] *)
Definition Math_round (x : Q) : Z := Qfloor (x + (1 # 2))%Q.

(** ** ImageProcessor *)

Module ImageProcessor.

(** [countSetBits(n)]:
    [let count = 0; while (n) { count += n & 1; n >>= 1 }; return count].
    [fuel] bounds the number of iterations; [None] when it runs out. *)
Fixpoint countSetBits_loop (fuel : nat) (n count : Z) : option Z :=
  if n =? 0 then Some count
  else match fuel with
       | O => None
       | S fuel' => countSetBits_loop fuel' (Z.shiftr n 1) (count + Z.land n 1)
       end.

(** A non-negative 32-bit operand is exhausted after at most 32 shifts; the
    loop does not end on a negative one. *)
Definition countSetBits (n : Z) : completion Z :=
  match countSetBits_loop 32 n 0 with
  | Some count => Normal count
  | None => Diverge
  end.

(** The body of [for (let i = 0; i < hash1.length; i++)], over the indices
    still to visit. *)
Fixpoint hammingDistance_loop (hash1 hash2 : string) (indices : list nat)
    (distance : Z) : completion Z :=
  match indices with
  | [] => Normal distance
  | i :: rest =>
      let hex1 := parseInt16 (index hash1 i) in
      let hex2 := parseInt16 (index hash2 i) in
      let xor := JS.xor hex1 hex2 in
      match countSetBits xor with
      | Normal bits => hammingDistance_loop hash1 hash2 rest (distance + bits)
      | Throw e => Throw e
      | Diverge => Diverge
      end
  end.

(** [hammingDistance(hash1, hash2)]. *)
Definition hammingDistance (hash1 hash2 : string) : completion Z :=
  if negb (Nat.eqb (String.length hash1) (String.length hash2))
  then Throw (Error "Hash lengths must be equal")
  else hammingDistance_loop hash1 hash2 (seq 0 (String.length hash1)) 0.

(** An element of [hashes]: [{ type, hash }]. *)
Record variant : Type := { type : transform; hash : string }.

(** The returned bundle: [{ primary, variants }]. *)
Record bundle : Type := { primary : string; variants : list variant }.

(** A match: [{ objectId, distance, hash }]; the field [hash] is
    [matchedHash] here, [hash] being the field of a variant. *)
Record bestMatch : Type :=
  { objectId : string; distance : Z; matchedHash : string }.

Definition rotations : list Z := [15; 30; 45; 90; 135; 180; 225; 270; 315; 345].

Definition scales : list Q := [(9 # 10)%Q; (11 # 10)%Q].

Definition zeroHash : string :=
  "0000000000000000000000000000000000000000000000000000000000000000".

Section WithExternals.

Context {Buffer : Type} (ext : Externals Buffer).

(** [generatePHash(imagePath)]: the handler logs and rethrows.  [t] names,
    for the trace, the transform the file was written from. *)
Definition generatePHash (t : transform) (file : Buffer) : M unit string :=
  try_catch
    (emit (Fingerprint t) ;;; call (imageHash ext file))
    (fun error => throw error).

(** [for (let rotation of [15, ..., 345]) { ... hashes.push(...) }] *)
Fixpoint rotation_loop (normalizedBuffer : Buffer) (angles : list Z)
    (hashes : list variant) : M unit (list variant) :=
  match angles with
  | [] => ret hashes
  | rotation :: rest =>
      rotated <- (emit (Transform (Rotated rotation)) ;;;
                  call (sharp_rotate ext rotation normalizedBuffer)) ;;
      rotatedHash <- generatePHash (Rotated rotation) rotated ;;
      rotation_loop normalizedBuffer rest
        (hashes ++ [{| type := Rotated rotation; hash := rotatedHash |}])
  end.

(** [for (let scale of [0.9, 1.1]) { ... hashes.push(...) }] *)
Fixpoint scale_loop (normalizedBuffer : Buffer) (factors : list Q)
    (hashes : list variant) : M unit (list variant) :=
  match factors with
  | [] => ret hashes
  | scale :: rest =>
      let side := Math_round (512 * scale)%Q in
      scaled <- (emit (Transform (Scaled scale)) ;;;
                 call (sharp_resize ext side side normalizedBuffer)) ;;
      scaledHash <- generatePHash (Scaled scale) scaled ;;
      scale_loop normalizedBuffer rest
        (hashes ++ [{| type := Scaled scale; hash := scaledHash |}])
  end.

(** [generateRobustPHashFromBuffer(imageBuffer)].  The removal of the
    temporary files swallows its own errors and returns nothing; it is left
    out. *)
Definition generateRobustPHashFromBuffer (imageBuffer : Buffer) : M unit bundle :=
  try_catch
    (normalizedBuffer <- (emit Canonicalize ;;; call (sharp_normalize ext imageBuffer)) ;;
     original <- call (sharp_toFile ext normalizedBuffer) ;;
     originalHash <- generatePHash Original original ;;
     let hashes := [{| type := Original; hash := originalHash |}] in
     hashes <- rotation_loop normalizedBuffer rotations hashes ;;
     hashes <- scale_loop normalizedBuffer scales hashes ;;
     let primaryHash := originalHash in
     if String.eqb primaryHash zeroHash then
       fallbackData <- (emit Describe ;;; call (sharp_describe ext normalizedBuffer)) ;;
       let fallbackHash := substring 0 64 (sha256_hex ext fallbackData) in
       ret {| primary := fallbackHash; variants := hashes |}
     else
       ret {| primary := primaryHash; variants := hashes |})
    (fun error => throw error).

(** [generatePHashFromBuffer(imageBuffer)] *)
Definition generatePHashFromBuffer (imageBuffer : Buffer) : M unit string :=
  result <- generateRobustPHashFromBuffer imageBuffer ;;
  ret (primary result).

(** The local variables [bestMatch] and [bestDistance] of [findBestMatch]. *)
Definition best : Type := (option bestMatch * number)%type.

(** [for (const newHash of newHashes.slice(1)) { try { ... } catch (e) { ... } }] *)
Fixpoint variant_loop (threshold : Z) (existingHash objectId : string)
    (newHashes : list string) (b : best) : M unit best :=
  match newHashes with
  | [] => ret b
  | newHash :: rest =>
      b' <- try_catch
              (distance <- (emit (Compare Variant newHash existingHash) ;;;
                            lift (hammingDistance newHash existingHash)) ;;
               if JS.lt (Num distance) (snd b) && (distance <=? threshold)
               then ret (Some {| objectId := objectId; distance := distance;
                                 matchedHash := existingHash |}, Num distance)
               else ret b)
              (fun e => ret b) ;;
      variant_loop threshold existingHash objectId rest b'
  end.

(** [for (const [existingHash, objectId] of hashToObjectMap.entries()) { ... }] *)
Fixpoint entries_loop (threshold : Z) (newHashData : bundle)
    (newHashes : list string) (entries : list (string * string)) (b : best)
    : M unit best :=
  match entries with
  | [] => ret b
  | (existingHash, objectId) :: rest =>
      primaryDistance <- (emit (Compare Primary (primary newHashData) existingHash) ;;;
                          lift (hammingDistance (primary newHashData) existingHash)) ;;
      let b1 :=
        if (primaryDistance <=? threshold) && JS.lt (Num primaryDistance) (snd b)
        then (Some {| objectId := objectId; distance := primaryDistance;
                      matchedHash := existingHash |}, Num primaryDistance)
        else b in
      b2 <- (if (primaryDistance >? threshold) && (threshold <=? 3)
             then variant_loop threshold existingHash objectId (skipn 1 newHashes) b1
             else ret b1) ;;
      entries_loop threshold newHashData newHashes rest b2
  end.

(** [findBestMatch(newImageBuffer, hashToObjectMap, threshold)].  The map is
    given by its entries in insertion order, which is the order
    [entries()] yields them in. *)
Definition findBestMatch (newImageBuffer : Buffer)
    (hashToObjectMap : list (string * string)) (threshold : Z)
    : M unit (option bestMatch) :=
  try_catch
    (newHashData <- generateRobustPHashFromBuffer newImageBuffer ;;
     let newHashes := primary newHashData :: map hash (variants newHashData) in
     b <- entries_loop threshold newHashData newHashes hashToObjectMap (None, Infinity) ;;
     ret (fst b))
    (fun error => ret None).

End WithExternals.

End ImageProcessor.

(** ** AdvancedImageMatcher *)

(** [{ matched, distance, confidence }] *)
Module Stage.
Record t : Type := { matched : bool; distance : number; confidence : Q }.
End Stage.

(** [{ matched, similarity, confidence }] *)
Module Aux.
Record t : Type := { matched : bool; similarity : Q; confidence : Q }.
End Aux.

(** [{ matched, confidence, method }] *)
Module Overall.
Record t : Type := { matched : bool; confidence : Q; method : string }.
End Overall.

Module AdvancedImageMatcher.

(** [xor.toString(2).split('1').length - 1] *)
Definition onesOf (xor : Z) : Z :=
  Z.of_nat (List.length (JS.split "1"%char (toString2 xor))) - 1.

Fixpoint hammingDistance_loop (hash1 hash2 : string) (indices : list nat)
    (distance : Z) : Z :=
  match indices with
  | [] => distance
  | i :: rest =>
      let xor := JS.xor (parseInt16 (index hash1 i)) (parseInt16 (index hash2 i)) in
      hammingDistance_loop hash1 hash2 rest (distance + onesOf xor)
  end.

(** [hammingDistance(hash1, hash2)]. *)
Definition hammingDistance (hash1 hash2 : string) : number :=
  if negb (Nat.eqb (String.length hash1) (String.length hash2))
  then Infinity
  else Num (hammingDistance_loop hash1 hash2 (seq 0 (String.length hash1)) 0).

(** The object [results] of [verifyImageMatch]. *)
Record results : Type := {
  stage1_phash : Stage.t;
  stage2_rotation : Stage.t;
  stage3_color : Aux.t;
  stage4_edge : Aux.t;
  overall : Overall.t
}.

Definition initial : results := {|
  stage1_phash := {| Stage.matched := false; Stage.distance := Infinity; Stage.confidence := 0 |};
  stage2_rotation := {| Stage.matched := false; Stage.distance := Infinity; Stage.confidence := 0 |};
  stage3_color := {| Aux.matched := false; Aux.similarity := 1; Aux.confidence := 0 |};
  stage4_edge := {| Aux.matched := false; Aux.similarity := 1; Aux.confidence := 0 |};
  overall := {| Overall.matched := false; Overall.confidence := 0; Overall.method := "none" |}
|}.

(** Assignments to the fields of [results]. *)
Definition set_stage1_phash (v : Stage.t) (r : results) : results :=
  {| stage1_phash := v; stage2_rotation := stage2_rotation r;
     stage3_color := stage3_color r; stage4_edge := stage4_edge r;
     overall := overall r |}.

Definition set_stage2_rotation (v : Stage.t) (r : results) : results :=
  {| stage1_phash := stage1_phash r; stage2_rotation := v;
     stage3_color := stage3_color r; stage4_edge := stage4_edge r;
     overall := overall r |}.

Definition set_overall (v : Overall.t) (r : results) : results :=
  {| stage1_phash := stage1_phash r; stage2_rotation := stage2_rotation r;
     stage3_color := stage3_color r; stage4_edge := stage4_edge r;
     overall := v |}.

Definition set_distance (d : number) (s : Stage.t) : Stage.t :=
  {| Stage.matched := Stage.matched s; Stage.distance := d;
     Stage.confidence := Stage.confidence s |}.

Definition rotationAngles : list Z := [5; 10; 15; 30; 45; 90; 180; 270; 345; 350; 355].

Section WithExternals.

Context {Buffer : Type} (ext : Externals Buffer).

(** [generateColorHistogram(imageBuffer)]: [null] on any error. *)
Definition generateColorHistogram (imageBuffer : Buffer)
    : M results (option (Signature ext)) :=
  try_catch
    (histogram <- (emit Histogram ;;; call (sharp_histogram ext imageBuffer)) ;;
     ret (Some histogram))
    (fun error => ret None).

(** [generateEdgeHash(imageBuffer)]: [null] on any error. *)
Definition generateEdgeHash (imageBuffer : Buffer)
    : M results (option (Signature ext)) :=
  try_catch
    (hash <- (emit Edges ;;; call (sharp_edges ext imageBuffer)) ;;
     ret (Some hash))
    (fun error => ret None).

(** Stage 1, [for (const storedHash of storedHashes) { ... }]: [Some r] when
    the loop body executed [return results], [None] when the loop ran out. *)
Fixpoint stage1_loop (inputHash : string) (storedHashes : list string)
    : M results (option results) :=
  match storedHashes with
  | [] => ret None
  | storedHash :: rest =>
      emit (Compare Direct inputHash storedHash) ;;;
      let distance := hammingDistance inputHash storedHash in
      if JS.le distance (Num 3) then
        modify (set_stage1_phash
                  {| Stage.matched := true; Stage.distance := distance;
                     Stage.confidence := 95 # 100 |}) ;;;
        modify (set_overall
                  {| Overall.matched := true; Overall.confidence := 95 # 100;
                     Overall.method := "direct_phash" |}) ;;;
        r <- get ;;
        ret (Some r)
      else
        modify (fun r => set_stage1_phash
                           (set_distance (JS.min (Stage.distance (stage1_phash r)) distance)
                                         (stage1_phash r)) r) ;;;
        stage1_loop inputHash rest
  end.

(** Stage 2, the inner [for (const storedHash of storedHashes) { ... }]. *)
Fixpoint stage2_scan (angle : Z) (rotatedHash : string) (storedHashes : list string)
    : M results (option results) :=
  match storedHashes with
  | [] => ret None
  | storedHash :: rest =>
      emit (Compare (Rotation angle) rotatedHash storedHash) ;;;
      let distance := hammingDistance rotatedHash storedHash in
      if JS.le distance (Num 8) then
        modify (set_stage2_rotation
                  {| Stage.matched := true; Stage.distance := distance;
                     Stage.confidence := 85 # 100 |}) ;;;
        modify (set_overall
                  {| Overall.matched := true; Overall.confidence := 85 # 100;
                     Overall.method := "rotation_phash" |}) ;;;
        r <- get ;;
        ret (Some r)
      else
        modify (fun r => set_stage2_rotation
                           (set_distance (JS.min (Stage.distance (stage2_rotation r)) distance)
                                         (stage2_rotation r)) r) ;;;
        stage2_scan angle rotatedHash rest
  end.

(** Stage 2, [for (const angle of rotationAngles) { ... }]. *)
Fixpoint stage2_loop (normalizedBuffer : Buffer) (angles : list Z)
    (storedHashes : list string) : M results (option results) :=
  match angles with
  | [] => ret None
  | angle :: rest =>
      rotatedBuffer <- (emit (Transform (Rotated angle)) ;;;
                        call (sharp_rotate ext angle normalizedBuffer)) ;;
      rotatedFile <- call (sharp_toFile ext rotatedBuffer) ;;
      rotatedHash <- (emit (Fingerprint (Rotated angle)) ;;;
                      call (imageHash ext rotatedFile)) ;;
      returned <- stage2_scan angle rotatedHash storedHashes ;;
      match returned with
      | Some r => ret (Some r)
      | None => stage2_loop normalizedBuffer rest storedHashes
      end
  end.

(** The body of [verifyImageMatch] after [results] is initialised.  Stages 3
    and 4 compute the input's histogram and edge hash and compare them with
    nothing.  The removal of the temporary files swallows its own errors; it
    is left out. *)
Definition verifyImageMatch_body (imageBuffer : Buffer) (storedHashes : list string)
    : M results results :=
  try_catch
    (normalizedBuffer <- (emit Canonicalize ;;; call (sharp_normalize ext imageBuffer)) ;;
     tempFile <- call (sharp_toFile ext normalizedBuffer) ;;
     inputHash <- (emit (Fingerprint Original) ;;; call (imageHash ext tempFile)) ;;
     returned1 <- stage1_loop inputHash storedHashes ;;
     match returned1 with
     | Some r => ret r
     | None =>
         returned2 <- stage2_loop normalizedBuffer rotationAngles storedHashes ;;
         match returned2 with
         | Some r => ret r
         | None =>
             inputHistogram <- generateColorHistogram normalizedBuffer ;;
             inputEdgeHash <- generateEdgeHash normalizedBuffer ;;
             get
         end
     end)
    (fun error => get).

(** [verifyImageMatch(imageBuffer, storedHashes)]: how the call ends, and the
    operations it performed. *)
Definition verifyImageMatch (imageBuffer : Buffer) (storedHashes : list string)
    : completion results * list event :=
  match verifyImageMatch_body imageBuffer storedHashes initial with
  | (r, _, trace) => (r, trace)
  end.

End WithExternals.

End AdvancedImageMatcher.

(** ** The [/api/verify] route *)

Module Api.

(** The responses of the route that this development distinguishes. *)
Inductive response : Type :=
| Status400 (error : string)
| Status500 (error : exn)
| NotVerified (message : string) (debug : option (number * number))
| Resolve (matchResults : AdvancedImageMatcher.results)
| NoResponse.

Section WithExternals.

Context {Buffer : Type} (ext : Externals Buffer).

(** [app.post('/api/verify', ...)] up to the point where a positive report is
    resolved to a stored object ([Resolve]); the lookup in the object
    database that follows is the web layer's and is not embedded. *)
Definition verify (file : option Buffer) (hashDatabase : list (string * string))
    : response * list event :=
  match file with
  | None => (Status400 "No image file provided", [])
  | Some imageBuffer =>
      let storedHashes := map fst hashDatabase in
      if Nat.eqb (List.length storedHashes) 0 then
        (NotVerified "No objects in database to compare against" None, [])
      else
        match AdvancedImageMatcher.verifyImageMatch ext imageBuffer storedHashes with
        | (Normal matchResults, trace) =>
            if negb (Overall.matched (AdvancedImageMatcher.overall matchResults)) then
              (NotVerified "No matching object found"
                 (Some (Stage.distance (AdvancedImageMatcher.stage1_phash matchResults),
                        Stage.distance (AdvancedImageMatcher.stage2_rotation matchResults))),
               trace)
            else (Resolve matchResults, trace)
        | (Throw error, trace) => (Status500 error, trace)
        | (Diverge, trace) => (NoResponse, trace)
        end
  end.

End WithExternals.

End Api.

(** ** Fingerprints as bit vectors *)

Module Bits.

(** The nibble a character stands for in a distance computation: its value
    as a hexadecimal digit, [0] for any other character (the bitwise
    operators read [NaN] as [0]). *)
Definition nibble (c : ascii) : Z := ToInt32 (parseInt16 (Some c)).

(** The four bits of a nibble, most significant first. *)
Definition bits4 (x : Z) : list bool :=
  [Z.testbit x 3; Z.testbit x 2; Z.testbit x 1; Z.testbit x 0].

(** The bit vector a fingerprint denotes. *)
Fixpoint bits (s : string) : list bool :=
  match s with
  | EmptyString => []
  | String c rest => bits4 (nibble c) ++ bits rest
  end.

(** The number of positions at which two bit vectors differ. *)
Fixpoint differing (u v : list bool) : Z :=
  match u, v with
  | x :: u', y :: v' => Z.b2z (xorb x y) + differing u' v'
  | _, _ => 0
  end.

(** The number of set bits of a positive binary numeral. *)
Fixpoint popcount_pos (p : positive) : Z :=
  match p with
  | xH => 1
  | xO q => popcount_pos q
  | xI q => 1 + popcount_pos q
  end.

Definition popcount (x : Z) : Z :=
  match x with
  | Zpos p => popcount_pos p
  | _ => 0
  end.

(** The nibble-wise XOR of two fingerprints. *)
Fixpoint nibble_xor (a b : string) : list Z :=
  match a, b with
  | String c a', String d b' => Z.lxor (nibble c) (nibble d) :: nibble_xor a' b'
  | _, _ => []
  end.

(** The sum of a list of integers. *)
Definition sum (l : list Z) : Z := fold_right Z.add 0 l.

(** A fingerprint as [image-hash] prints it: lower-case hexadecimal. *)
Definition lowerHexChar (c : ascii) : bool :=
  let n := Z.of_nat (nat_of_ascii c) in
  ((48 <=? n) && (n <=? 57)) || ((97 <=? n) && (n <=? 102)).

Fixpoint lowerHex (s : string) : bool :=
  match s with
  | EmptyString => true
  | String c rest => lowerHexChar c && lowerHex rest
  end.

(** The lower-case digit of a nibble. *)
Definition hexChar (v : Z) : ascii :=
  if v <? 10 then ascii_of_nat (Z.to_nat (v + 48))
  else ascii_of_nat (Z.to_nat (v + 87)).

End Bits.
Import Bits.

(** ** Properties of the distance functions *)

Lemma small_cases (x : Z) :
  0 <= x < 16 ->
  In x [0; 1; 2; 3; 4; 5; 6; 7; 8; 9; 10; 11; 12; 13; 14; 15].
Proof.
  intros H. simpl.
  assert (x = 0 \/ x = 1 \/ x = 2 \/ x = 3 \/ x = 4 \/ x = 5 \/ x = 6 \/ x = 7 \/
          x = 8 \/ x = 9 \/ x = 10 \/ x = 11 \/ x = 12 \/ x = 13 \/ x = 14 \/ x = 15)
    by lia.
  intuition auto.
Qed.

Ltac nibble_cases x H :=
  let K := fresh in
  pose proof (small_cases H) as K; simpl in K;
  repeat (destruct K as [K | K]; [ subst x | ]); try contradiction.

Lemma nibble_range (c : ascii) : 0 <= nibble c < 16.
Proof.
  unfold nibble, parseInt16, hexDigit.
  set (n := Z.of_nat (nat_of_ascii c)).
  destruct ((48 <=? n) && (n <=? 57)) eqn:E1;
    [ apply andb_true_iff in E1; destruct E1 as [A B];
      apply Z.leb_le in A; apply Z.leb_le in B
    | destruct ((97 <=? n) && (n <=? 102)) eqn:E2;
      [ apply andb_true_iff in E2; destruct E2 as [A B];
        apply Z.leb_le in A; apply Z.leb_le in B
      | destruct ((65 <=? n) && (n <=? 70)) eqn:E3;
        [ apply andb_true_iff in E3; destruct E3 as [A B];
          apply Z.leb_le in A; apply Z.leb_le in B
        | ] ] ];
    unfold ToInt32; try lia.
  - assert (0 <= n - 48 < 16) as R by lia.
    rewrite Z.mod_small by lia. lia.
  - rewrite Z.mod_small by lia. lia.
  - rewrite Z.mod_small by lia. lia.
Qed.

Lemma lxor_range (x y : Z) :
  0 <= x < 16 -> 0 <= y < 16 -> 0 <= Z.lxor x y < 16.
Proof.
  intros Hx Hy. nibble_cases x Hx; nibble_cases y Hy; vm_compute; split; congruence.
Qed.

Lemma xor_nibbles (c d : ascii) :
  JS.xor (parseInt16 (Some c)) (parseInt16 (Some d)) = Z.lxor (nibble c) (nibble d).
Proof. reflexivity. Qed.

Lemma countSetBits_small (x : Z) :
  0 <= x < 16 -> ImageProcessor.countSetBits x = Normal (popcount x).
Proof. intros H. nibble_cases x H; reflexivity. Qed.

Lemma onesOf_small (x : Z) :
  0 <= x < 16 -> AdvancedImageMatcher.onesOf x = popcount x.
Proof. intros H. nibble_cases x H; reflexivity. Qed.

Lemma popcount_bits4 (x y : Z) :
  0 <= x < 16 -> 0 <= y < 16 ->
  popcount (Z.lxor x y) = differing (bits4 x) (bits4 y).
Proof.
  intros Hx Hy. nibble_cases x Hx; nibble_cases y Hy; reflexivity.
Qed.

Lemma popcount_small (x : Z) : 0 <= x < 16 -> 0 <= popcount x <= 4.
Proof. intros H. nibble_cases x H; vm_compute; split; congruence. Qed.

Lemma popcount_zero (x : Z) : 0 <= x < 16 -> popcount x = 0 -> x = 0.
Proof. intros H. nibble_cases x H; vm_compute; congruence. Qed.

Lemma bits4_inj (x y : Z) :
  0 <= x < 16 -> 0 <= y < 16 -> bits4 x = bits4 y -> x = y.
Proof.
  intros Hx Hy. nibble_cases x Hx; nibble_cases y Hy; vm_compute; congruence.
Qed.

Lemma index_shift (c : ascii) (s : string) (i : nat) :
  index (String c s) (S i) = index s i.
Proof. reflexivity. Qed.

Lemma ip_loop_shift (c d : ascii) (a b : string) (indices : list nat) (acc : Z) :
  ImageProcessor.hammingDistance_loop (String c a) (String d b) (map S indices) acc =
  ImageProcessor.hammingDistance_loop a b indices acc.
Proof.
  revert acc. induction indices as [| i rest IH]; intros acc; simpl.
  - reflexivity.
  - destruct (ImageProcessor.countSetBits _); auto.
Qed.

Lemma aim_loop_shift (c d : ascii) (a b : string) (indices : list nat) (acc : Z) :
  AdvancedImageMatcher.hammingDistance_loop (String c a) (String d b) (map S indices) acc =
  AdvancedImageMatcher.hammingDistance_loop a b indices acc.
Proof.
  revert acc. induction indices as [| i rest IH]; intros acc; simpl.
  - reflexivity.
  - apply IH.
Qed.

(** The loop of [ImageProcessor.hammingDistance] adds up the set bits of the
    nibble-wise XOR, and always runs to its end. *)
Lemma ip_loop_total (a b : string) (acc : Z) :
  String.length a = String.length b ->
  ImageProcessor.hammingDistance_loop a b (seq 0 (String.length a)) acc =
  Normal (acc + sum (map popcount (nibble_xor a b))).
Proof.
  revert b acc. induction a as [| c a IH]; intros [| d b] acc Hlen;
    simpl in Hlen; try discriminate.
  - simpl. f_equal. unfold sum. simpl. lia.
  - injection Hlen as Hlen.
    cbn [String.length seq ImageProcessor.hammingDistance_loop].
    change (index (String c a) 0) with (Some c).
    change (index (String d b) 0) with (Some d).
    rewrite xor_nibbles.
    rewrite countSetBits_small
      by (apply lxor_range; apply nibble_range).
    rewrite <- seq_shift, ip_loop_shift, IH by assumption.
    f_equal. unfold sum. simpl. lia.
Qed.

Lemma aim_loop_total (a b : string) (acc : Z) :
  String.length a = String.length b ->
  AdvancedImageMatcher.hammingDistance_loop a b (seq 0 (String.length a)) acc =
  acc + sum (map popcount (nibble_xor a b)).
Proof.
  revert b acc. induction a as [| c a IH]; intros [| d b] acc Hlen;
    simpl in Hlen; try discriminate.
  - unfold sum. simpl. lia.
  - injection Hlen as Hlen.
    cbn [String.length seq AdvancedImageMatcher.hammingDistance_loop].
    change (index (String c a) 0) with (Some c).
    change (index (String d b) 0) with (Some d).
    rewrite xor_nibbles.
    rewrite onesOf_small by (apply lxor_range; apply nibble_range).
    rewrite <- seq_shift, aim_loop_shift, IH by assumption.
    unfold sum. simpl. lia.
Qed.

(** The two distance functions in closed form. *)
Definition bit_distance (a b : string) : Z := sum (map popcount (nibble_xor a b)).

Lemma ip_distance_eq (a b : string) :
  String.length a = String.length b ->
  ImageProcessor.hammingDistance a b = Normal (bit_distance a b).
Proof.
  intros Hlen. unfold ImageProcessor.hammingDistance.
  rewrite Hlen, Nat.eqb_refl. simpl. rewrite <- Hlen.
  rewrite ip_loop_total by assumption. reflexivity.
Qed.

Lemma ip_distance_mismatch (a b : string) :
  String.length a <> String.length b ->
  ImageProcessor.hammingDistance a b = Throw (Error "Hash lengths must be equal").
Proof.
  intros Hlen. unfold ImageProcessor.hammingDistance.
  apply Nat.eqb_neq in Hlen. rewrite Hlen. reflexivity.
Qed.

Lemma aim_distance_eq (a b : string) :
  String.length a = String.length b ->
  AdvancedImageMatcher.hammingDistance a b = Num (bit_distance a b).
Proof.
  intros Hlen. unfold AdvancedImageMatcher.hammingDistance.
  rewrite Hlen, Nat.eqb_refl. simpl. rewrite <- Hlen.
  rewrite aim_loop_total by assumption. reflexivity.
Qed.

Lemma aim_distance_mismatch (a b : string) :
  String.length a <> String.length b ->
  AdvancedImageMatcher.hammingDistance a b = Infinity.
Proof.
  intros Hlen. unfold AdvancedImageMatcher.hammingDistance.
  apply Nat.eqb_neq in Hlen. rewrite Hlen. reflexivity.
Qed.

Lemma bit_distance_differing (a b : string) :
  String.length a = String.length b ->
  bit_distance a b = differing (bits a) (bits b).
Proof.
  revert b. induction a as [| c a IH]; intros [| d b] Hlen;
    simpl in Hlen; try discriminate; try reflexivity.
  injection Hlen as Hlen. unfold bit_distance, sum in *.
  cbn [nibble_xor map fold_right bits]. rewrite IH by assumption.
  rewrite popcount_bits4 by apply nibble_range.
  unfold bits4. cbn [app differing]. lia.
Qed.

Lemma bit_distance_sym (a b : string) : bit_distance a b = bit_distance b a.
Proof.
  unfold bit_distance. revert b. induction a as [| c a IH]; intros [| d b];
    try reflexivity.
  simpl. rewrite IH, Z.lxor_comm. reflexivity.
Qed.

Lemma bit_distance_bounds (a b : string) :
  0 <= bit_distance a b <= 4 * Z.of_nat (String.length a).
Proof.
  unfold bit_distance, sum. revert b. induction a as [| c a IH]; intros [| d b];
    simpl String.length; simpl nibble_xor; simpl map; simpl fold_right; try lia.
  specialize (IH b).
  pose proof (popcount_small (lxor_range (nibble_range c) (nibble_range d))).
  lia.
Qed.

Lemma bits4_app_inv (x y : Z) (u v : list bool) :
  bits4 x ++ u = bits4 y ++ v -> bits4 x = bits4 y /\ u = v.
Proof.
  unfold bits4.
  generalize (Z.testbit x 3) (Z.testbit x 2) (Z.testbit x 1) (Z.testbit x 0)
             (Z.testbit y 3) (Z.testbit y 2) (Z.testbit y 1) (Z.testbit y 0).
  intros a3 a2 a1 a0 b3 b2 b1 b0 H. cbn [app] in H.
  injection H as -> -> -> -> ->. split; reflexivity.
Qed.

Lemma bit_distance_zero (a b : string) :
  String.length a = String.length b ->
  bit_distance a b = 0 <-> bits a = bits b.
Proof.
  revert b. induction a as [| c a IH]; intros [| d b] Hlen;
    simpl in Hlen; try discriminate.
  - split; reflexivity.
  - injection Hlen as Hlen. specialize (IH b Hlen).
    pose proof (bit_distance_bounds a b) as Hrest.
    pose proof (lxor_range (nibble_range c) (nibble_range d)) as Hx.
    pose proof (popcount_small Hx) as Hp.
    unfold bit_distance, sum in *.
    cbn [nibble_xor map fold_right bits].
    split.
    + intros H0.
      assert (popcount (Z.lxor (nibble c) (nibble d)) = 0) as Hz by lia.
      apply popcount_zero in Hz; [ | assumption ].
      apply Z.lxor_eq in Hz. rewrite Hz. f_equal.
      apply IH. lia.
    + intros Heq. apply bits4_app_inv in Heq. destruct Heq as [Hhead Erest].
      assert (nibble c = nibble d) as Hn
        by (apply bits4_inj; try apply nibble_range; assumption).
      rewrite Hn, Z.lxor_nilpotent. cbn [popcount]. apply IH. assumption.
Qed.

Lemma hexChar_nibble (c : ascii) : lowerHexChar c = true -> hexChar (nibble c) = c.
Proof.
  destruct c as [[] [] [] [] [] [] [] []]; vm_compute; congruence.
Qed.

Lemma lowerHex_bits_inj (a b : string) :
  lowerHex a = true -> lowerHex b = true ->
  String.length a = String.length b -> bits a = bits b -> a = b.
Proof.
  revert b. induction a as [| c a IH]; intros [| d b] Ha Hb Hlen Heq;
    simpl in Hlen; try discriminate; try reflexivity.
  injection Hlen as Hlen. simpl in Ha, Hb.
  apply andb_true_iff in Ha; destruct Ha as [Hc Ha].
  apply andb_true_iff in Hb; destruct Hb as [Hd Hb].
  cbn [bits] in Heq. apply bits4_app_inv in Heq. destruct Heq as [Hhead Erest].
  assert (nibble c = nibble d) as Hn
    by (apply bits4_inj; try apply nibble_range; assumption).
  rewrite <- (hexChar_nibble c Hc), <- (hexChar_nibble d Hd), Hn.
  f_equal. apply IH; assumption.
Qed.

(** A nibble-wise XOR whose non-zero entries each have one bit set has as
    many set bits as non-zero entries. *)
Definition nonzero (x : Z) : bool := negb (x =? 0).

Lemma popcount_single_bits (l : list Z) :
  Forall (fun x => In x [1; 2; 4; 8]) (filter nonzero l) ->
  sum (map popcount l) = Z.of_nat (List.length (filter nonzero l)).
Proof.
  induction l as [| x l IH]; intros H.
  - reflexivity.
  - unfold sum in *. cbn [map fold_right filter] in *.
    unfold nonzero in H at 1. unfold nonzero at 1.
    destruct (x =? 0) eqn:E; cbn [negb] in *.
    + apply Z.eqb_eq in E. subst x. rewrite IH by assumption. reflexivity.
    + inversion H as [| y l' Hx Hl]; subst.
      rewrite IH by assumption. cbn [List.length].
      simpl in Hx.
      destruct Hx as [<- | [<- | [<- | [<- | []]]]]; simpl popcount; lia.
Qed.

(** Two fingerprints of 64 hexadecimal digits that differ in five nibbles,
    by one bit in each. *)
Definition fingerprint_A : string :=
  "3fa9c0d17e5b28463fa9c0d17e5b28463fa9c0d17e5b28463fa9c0d17e5b2846".

Definition fingerprint_B : string :=
  "2fa9c0d17e5b2a463fa9c0d17e5f28463fa9c0d1fe5b28463fa9c0d17e5b2847".

(** C4. For fingerprints [a] and [b] of equal length, both distance functions
    ([ImageProcessor.hammingDistance] and
    [AdvancedImageMatcher.hammingDistance]) return the number of bit
    positions at which the two fingerprints differ, which is the sum over
    the nibbles of the number of set bits of the nibble-wise XOR.  Hence the
    distance is symmetric, it is zero exactly when the fingerprints are
    bit-identical (for lower-case hexadecimal fingerprints: exactly when
    they are the same string), and it is at most four times the number of
    hexadecimal digits.  When five nibbles differ, each by one bit, the
    distance is 5. *)
Theorem hammingDistance_counts_differing_bits (a b : string) :
  String.length a = String.length b ->
  (ImageProcessor.hammingDistance a b = Normal (differing (bits a) (bits b)) /\
   AdvancedImageMatcher.hammingDistance a b = Num (differing (bits a) (bits b))) /\
  differing (bits a) (bits b) = sum (map popcount (nibble_xor a b)) /\
  (ImageProcessor.hammingDistance a b = ImageProcessor.hammingDistance b a /\
   AdvancedImageMatcher.hammingDistance a b = AdvancedImageMatcher.hammingDistance b a) /\
  (ImageProcessor.hammingDistance a b = Normal 0 <-> bits a = bits b) /\
  (AdvancedImageMatcher.hammingDistance a b = Num 0 <-> bits a = bits b) /\
  (lowerHex a = true -> lowerHex b = true -> (bits a = bits b <-> a = b)) /\
  0 <= differing (bits a) (bits b) <= 4 * Z.of_nat (String.length a) /\
  (List.length (filter nonzero (nibble_xor a b)) = 5%nat ->
   Forall (fun x => In x [1; 2; 4; 8]) (filter nonzero (nibble_xor a b)) ->
   ImageProcessor.hammingDistance a b = Normal 5 /\
   AdvancedImageMatcher.hammingDistance a b = Num 5).
Proof.
  intros Hlen.
  pose proof (ip_distance_eq a b Hlen) as Hip.
  pose proof (aim_distance_eq a b Hlen) as Haim.
  pose proof (bit_distance_differing a b Hlen) as Hd.
  pose proof (bit_distance_zero a b Hlen) as Hz.
  pose proof (bit_distance_bounds a b) as Hb.
  repeat split.
  - rewrite Hip, Hd. reflexivity.
  - rewrite Haim, Hd. reflexivity.
  - rewrite <- Hd. reflexivity.
  - rewrite Hip, (ip_distance_eq b a (eq_sym Hlen)), bit_distance_sym. reflexivity.
  - rewrite Haim, (aim_distance_eq b a (eq_sym Hlen)), bit_distance_sym. reflexivity.
  - rewrite Hip. intros H. injection H as H. apply Hz. assumption.
  - intros H. rewrite Hip. f_equal. apply Hz. assumption.
  - rewrite Haim. intros H. injection H as H. apply Hz. assumption.
  - intros H. rewrite Haim. f_equal. apply Hz. assumption.
  - intros Hbits. apply lowerHex_bits_inj; assumption.
  - intros ->. reflexivity.
  - rewrite <- Hd. apply Hb.
  - rewrite <- Hd. apply Hb.
  - rewrite Hip. f_equal. unfold bit_distance.
    rewrite popcount_single_bits by assumption. lia.
  - rewrite Haim. f_equal. unfold bit_distance.
    rewrite popcount_single_bits by assumption. lia.
Qed.

Lemma hammingDistance_five_nibbles :
  String.length fingerprint_A = 64%nat /\
  String.length fingerprint_B = 64%nat /\
  ImageProcessor.hammingDistance fingerprint_A fingerprint_B = Normal 5 /\
  AdvancedImageMatcher.hammingDistance fingerprint_A fingerprint_B = Num 5.
Proof.
  split; [ reflexivity | split; [ reflexivity | ] ].
  apply (hammingDistance_counts_differing_bits fingerprint_A fingerprint_B).
  - reflexivity.
  - reflexivity.
  - vm_compute.
    repeat (apply Forall_cons; [ simpl; intuition congruence | ]).
    apply Forall_nil.
Defined.

(** ** A small world of pictures, for concrete runs *)

Module Toy.

(** A picture is known by a number; the library operations record what was
    done to it. *)
Inductive picture : Type :=
| Raw (id : Z)
| Normalized (id : Z)
| Turned (angle : Z) (id : Z)
| Resized (side : Z) (id : Z).

(** Libraries that decode the pictures [decodable] accepts, rotate by the
    angles [turnable] accepts, hash a picture to [hashOf] and digest every
    description to [digest]. *)
Definition world (decodable : Z -> bool) (turnable : Z -> bool)
    (hashOf : picture -> string) (digest : string) : Externals picture := {|
  sharp_normalize := fun b =>
    match b with
    | Raw id => if decodable id then inr (Normalized id)
                else inl (Error "Input buffer contains unsupported image format")
    | other => inr other
    end;
  sharp_rotate := fun angle b =>
    match b with
    | Normalized id => if turnable angle then inr (Turned angle id)
                       else inl (Error "Expected valid rotation")
    | other => inr other
    end;
  sharp_resize := fun w h b =>
    match b with
    | Normalized id => inr (Resized w id)
    | other => inr other
    end;
  sharp_toFile := fun b => inr b;
  imageHash := fun b => inr (hashOf b);
  sharp_describe := fun b => inr "512x512_jpeg_[]";
  sha256_hex := fun data => digest;
  Signature := unit;
  sharp_histogram := fun b => inr tt;
  sharp_edges := fun b => inr tt
|}.

Definition always (x : Z) : bool := true.

Definition never (x : Z) : bool := false.

Definition ones : string :=
  "ffffffffffffffffffffffffffffffffffffffffffffffffffffffffffffffff".

(** A stored fingerprint, and a query fingerprint two bits away from it. *)
Definition h1 : string :=
  "3fa9c0d17e5b28463fa9c0d17e5b28463fa9c0d17e5b28463fa9c0d17e5b2846".

Definition near_h1 : string :=
  "3fa9c0d17e5b28463fa9c0d17e5b28463fa9c0d17e5b28463fa9c0d17e5b2845".

(** The picture hashes to [near_h1]; no transform of it comes near [h1]. *)
Definition plain (p : picture) : string :=
  match p with
  | Normalized _ => near_h1
  | _ => ones
  end.

(** The picture hashes to [near_h1]; turned by 90 degrees it hashes to [h1]. *)
Definition turned90 (p : picture) : string :=
  match p with
  | Normalized _ => near_h1
  | Turned 90 _ => h1
  | _ => ones
  end.

(** Only the picture turned by 90 degrees hashes to [h1]. *)
Definition only_turned90 (p : picture) : string :=
  match p with
  | Turned 90 _ => h1
  | _ => ones
  end.

(** Picture 2 hashes to [h1]; every other picture is uniform and hashes to
    the all-zero fingerprint. *)
Definition blank_but_2 (p : picture) : string :=
  match p with
  | Normalized 2 => h1
  | Turned _ 2 | Resized _ 2 => ones
  | _ => ImageProcessor.zeroHash
  end.

(** Rotation by 45 degrees fails. *)
Definition not45 (angle : Z) : bool := negb (angle =? 45).

End Toy.

(** ** The bundle generator in closed form *)

Definition is_compare (e : event) : bool :=
  match e with
  | Compare _ _ _ => true
  | _ => false
  end.

(** Traces without comparisons, piece by piece. *)
Ltac quiet :=
  repeat first
    [ apply Forall_nil
    | assumption
    | apply Forall_cons; [ reflexivity | ]
    | apply Forall_app; split ].

Section Generator.

Context {Buffer : Type} (ext : Externals Buffer).

(** The fingerprint of one rotation or one scale of a canonical image. *)
Definition variant_fingerprint (normalizedBuffer : Buffer) (t : transform)
    : exn + string :=
  match t with
  | Original =>
      match sharp_toFile ext normalizedBuffer with
      | inr file => imageHash ext file
      | inl e => inl e
      end
  | Rotated angle =>
      match sharp_rotate ext angle normalizedBuffer with
      | inr rotated => imageHash ext rotated
      | inl e => inl e
      end
  | Scaled scale =>
      let side := Math_round (512 * scale)%Q in
      match sharp_resize ext side side normalizedBuffer with
      | inr scaled => imageHash ext scaled
      | inl e => inl e
      end
  end.

(** The variants pushed for a list of transforms, up to the first failure. *)
Fixpoint variants_result (normalizedBuffer : Buffer) (ts : list transform)
    (hashes : list ImageProcessor.variant) : completion (list ImageProcessor.variant) :=
  match ts with
  | [] => Normal hashes
  | t :: rest =>
      match variant_fingerprint normalizedBuffer t with
      | inr h =>
          variants_result normalizedBuffer rest
            (hashes ++ [{| ImageProcessor.type := t; ImageProcessor.hash := h |}])
      | inl e => Throw e
      end
  end.

Definition variant_transforms : list transform :=
  map Rotated ImageProcessor.rotations ++ map Scaled ImageProcessor.scales.

Lemma generatePHash_run (t : transform) (file : Buffer) (s : unit) :
  ImageProcessor.generatePHash ext t file s =
  (match imageHash ext file with inr h => Normal h | inl e => Throw e end,
   s, [Fingerprint t]).
Proof.
  unfold ImageProcessor.generatePHash, try_catch, bind, emit, call, ret, throw.
  destruct (imageHash ext file); reflexivity.
Qed.

Lemma rotation_loop_run (nb : Buffer) (angles : list Z)
    (hashes : list ImageProcessor.variant) (s : unit) :
  exists t,
    ImageProcessor.rotation_loop ext nb angles hashes s =
    (variants_result nb (map Rotated angles) hashes, s, t) /\
    Forall (fun e => is_compare e = false) t.
Proof.
  revert hashes. induction angles as [| a rest IH]; intros hashes.
  - exists []. split; [ reflexivity | constructor ].
  - cbn [ImageProcessor.rotation_loop map variants_result variant_fingerprint].
    unfold bind at 1. unfold bind at 1. unfold emit, call.
    destruct (sharp_rotate ext a nb) as [e | rotated].
    + exists [Transform (Rotated a)]. split; [ reflexivity | repeat constructor ].
    + unfold ret at 1. unfold bind at 1. rewrite generatePHash_run.
      destruct (imageHash ext rotated) as [e | h].
      * exists [Transform (Rotated a); Fingerprint (Rotated a)].
        split; [ reflexivity | repeat constructor ].
      * destruct (IH (hashes ++ [{| ImageProcessor.type := Rotated a;
                                    ImageProcessor.hash := h |}])) as [t [Hrun Ht]].
        rewrite Hrun.
        exists ((Transform (Rotated a) :: []) ++ (Fingerprint (Rotated a) :: t)).
        split; [ reflexivity | repeat constructor; assumption ].
Qed.

Lemma scale_loop_run (nb : Buffer) (factors : list Q)
    (hashes : list ImageProcessor.variant) (s : unit) :
  exists t,
    ImageProcessor.scale_loop ext nb factors hashes s =
    (variants_result nb (map Scaled factors) hashes, s, t) /\
    Forall (fun e => is_compare e = false) t.
Proof.
  revert hashes. induction factors as [| f rest IH]; intros hashes.
  - exists []. split; [ reflexivity | constructor ].
  - cbn [ImageProcessor.scale_loop map variants_result variant_fingerprint].
    unfold bind at 1. unfold bind at 1. unfold emit, call.
    destruct (sharp_resize ext _ _ nb) as [e | scaled].
    + exists [Transform (Scaled f)]. split; [ reflexivity | repeat constructor ].
    + unfold ret at 1. unfold bind at 1. rewrite generatePHash_run.
      destruct (imageHash ext scaled) as [e | h].
      * exists [Transform (Scaled f); Fingerprint (Scaled f)].
        split; [ reflexivity | repeat constructor ].
      * destruct (IH (hashes ++ [{| ImageProcessor.type := Scaled f;
                                    ImageProcessor.hash := h |}])) as [t [Hrun Ht]].
        rewrite Hrun.
        exists ((Transform (Scaled f) :: []) ++ (Fingerprint (Scaled f) :: t)).
        split; [ reflexivity | repeat constructor; assumption ].
Qed.

Lemma variants_result_app (nb : Buffer) (ts1 ts2 : list transform)
    (hashes : list ImageProcessor.variant) :
  variants_result nb (ts1 ++ ts2) hashes =
  match variants_result nb ts1 hashes with
  | Normal hs => variants_result nb ts2 hs
  | Throw e => Throw e
  | Diverge => Diverge
  end.
Proof.
  revert hashes. induction ts1 as [| t rest IH]; intros hashes; simpl.
  - reflexivity.
  - destruct (variant_fingerprint nb t); [ reflexivity | apply IH ].
Qed.

Lemma variants_result_fails (nb : Buffer) (ts : list transform)
    (hashes : list ImageProcessor.variant) (t : transform) (e : exn) :
  In t ts -> variant_fingerprint nb t = inl e ->
  exists e', variants_result nb ts hashes = Throw e'.
Proof.
  revert hashes. induction ts as [| t0 rest IH]; intros hashes Hin Hfail.
  - contradiction.
  - simpl. destruct (variant_fingerprint nb t0) as [e0 | h0] eqn:E0.
    + exists e0. reflexivity.
    + destruct Hin as [-> | Hin].
      * congruence.
      * apply IH; assumption.
Qed.

Lemma variants_result_total (nb : Buffer) (ts : list transform)
    (hashes : list ImageProcessor.variant) :
  variants_result nb ts hashes <> Diverge.
Proof.
  revert hashes. induction ts as [| t rest IH]; intros hashes; simpl.
  - discriminate.
  - destruct (variant_fingerprint nb t); [ discriminate | apply IH ].
Qed.

(** What [generateRobustPHashFromBuffer] returns or throws. *)
Definition bundle_result (imageBuffer : Buffer) : completion ImageProcessor.bundle :=
  match sharp_normalize ext imageBuffer with
  | inl e => Throw e
  | inr nb =>
      match variant_fingerprint nb Original with
      | inl e => Throw e
      | inr originalHash =>
          match variants_result nb variant_transforms
                  [{| ImageProcessor.type := Original;
                      ImageProcessor.hash := originalHash |}] with
          | Normal hashes =>
              if String.eqb originalHash ImageProcessor.zeroHash then
                match sharp_describe ext nb with
                | inl e => Throw e
                | inr fallbackData =>
                    Normal {| ImageProcessor.primary :=
                                substring 0 64 (sha256_hex ext fallbackData);
                              ImageProcessor.variants := hashes |}
                end
              else Normal {| ImageProcessor.primary := originalHash;
                             ImageProcessor.variants := hashes |}
          | Throw e => Throw e
          | Diverge => Diverge
          end
      end
  end.

Lemma generateRobustPHashFromBuffer_run (imageBuffer : Buffer) (s : unit) :
  exists t,
    ImageProcessor.generateRobustPHashFromBuffer ext imageBuffer s =
    (bundle_result imageBuffer, s, t) /\
    Forall (fun e => is_compare e = false) t.
Proof.
  unfold ImageProcessor.generateRobustPHashFromBuffer, bundle_result.
  unfold try_catch. unfold bind at 1. unfold bind at 1. unfold emit, call.
  destruct (sharp_normalize ext imageBuffer) as [e | nb].
  { exists ([Canonicalize] ++ []). split; [ reflexivity | repeat constructor ]. }
  unfold ret at 1. unfold bind at 1. cbn [variant_fingerprint].
  destruct (sharp_toFile ext nb) as [e | file].
  { exists ([Canonicalize] ++ []). split; [ reflexivity | repeat constructor ]. }
  unfold ret at 1. unfold bind at 1. rewrite generatePHash_run.
  destruct (imageHash ext file) as [e | originalHash].
  { exists ([Canonicalize] ++ [Fingerprint Original] ++ []).
    split; [ reflexivity | repeat constructor ]. }
  unfold variant_transforms. rewrite variants_result_app.
  unfold bind at 1.
  destruct (rotation_loop_run nb ImageProcessor.rotations
              [{| ImageProcessor.type := Original;
                  ImageProcessor.hash := originalHash |}] s) as [t1 [H1 Ht1]].
  rewrite H1.
  destruct (variants_result nb (map Rotated ImageProcessor.rotations) _)
    as [hashes | e |] eqn:E1.
  - unfold bind at 1.
    destruct (scale_loop_run nb ImageProcessor.scales hashes s) as [t2 [H2 Ht2]].
    rewrite H2.
    destruct (variants_result nb (map Scaled ImageProcessor.scales) hashes)
      as [hashes' | e |] eqn:E2.
    + destruct (String.eqb originalHash ImageProcessor.zeroHash).
      * unfold bind at 1. unfold bind at 1. unfold emit.
        destruct (sharp_describe ext nb) as [e | data]; cbn.
        -- eexists. split; [ reflexivity | quiet ].
        -- eexists. split; [ reflexivity | quiet ].
      * cbn. eexists. split; [ reflexivity | quiet ].
    + cbn. eexists. split; [ reflexivity | quiet ].
    + exfalso. exact (variants_result_total _ _ _ E2).
  - cbn. eexists. split; [ reflexivity | quiet ].
  - exfalso. exact (variants_result_total _ _ _ E1).
Qed.

End Generator.

(** ** The duplicate search in closed form *)

(** A distance computation of [ImageProcessor] returns or throws; it never
    fails to end. *)
Lemma ip_distance_cases (a b : string) :
  (String.length a = String.length b /\
   ImageProcessor.hammingDistance a b = Normal (bit_distance a b)) \/
  (String.length a <> String.length b /\
   ImageProcessor.hammingDistance a b = Throw (Error "Hash lengths must be equal")).
Proof.
  destruct (Nat.eq_dec (String.length a) (String.length b)) as [E | N].
  - left. split; [ assumption | apply ip_distance_eq; assumption ].
  - right. split; [ assumption | apply ip_distance_mismatch; assumption ].
Qed.

(** One turn of the variant loop. *)
Definition variant_step (threshold : Z) (existingHash objectId : string)
    (b : ImageProcessor.best) (newHash : string) : ImageProcessor.best :=
  match ImageProcessor.hammingDistance newHash existingHash with
  | Normal distance =>
      if JS.lt (Num distance) (snd b) && (distance <=? threshold)
      then (Some {| ImageProcessor.objectId := objectId;
                    ImageProcessor.distance := distance;
                    ImageProcessor.matchedHash := existingHash |}, Num distance)
      else b
  | _ => b
  end.

Lemma variant_loop_cons (threshold : Z) (existingHash objectId newHash : string)
    (rest : list string) (b : ImageProcessor.best) (s : unit) :
  ImageProcessor.variant_loop threshold existingHash objectId (newHash :: rest) b s =
  match ImageProcessor.variant_loop threshold existingHash objectId rest
          (variant_step threshold existingHash objectId b newHash) s with
  | (r, s', t) => (r, s', Compare Variant newHash existingHash :: t)
  end.
Proof.
  cbn [ImageProcessor.variant_loop].
  unfold bind at 1. unfold try_catch, variant_step.
  unfold bind at 1. unfold bind at 1. unfold emit, lift.
  destruct (ip_distance_cases newHash existingHash) as [[_ ->] | [_ ->]].
  - destruct (JS.lt _ _ && _); unfold ret at 1;
      destruct (ImageProcessor.variant_loop _ _ _ _ _ _) as [[r s'] t]; reflexivity.
  - unfold ret at 1.
    destruct (ImageProcessor.variant_loop _ _ _ _ _ _) as [[r s'] t]; reflexivity.
Qed.

Lemma variant_loop_run (threshold : Z) (existingHash objectId : string)
    (newHashes : list string) (b : ImageProcessor.best) (s : unit) :
  ImageProcessor.variant_loop threshold existingHash objectId newHashes b s =
  (Normal (fold_left (variant_step threshold existingHash objectId) newHashes b),
   s, map (fun h => Compare Variant h existingHash) newHashes).
Proof.
  revert b. induction newHashes as [| h rest IH]; intros b.
  - reflexivity.
  - rewrite variant_loop_cons, IH. reflexivity.
Qed.

(** One turn of the loop over the stored entries, when the primary
    comparison returns [primaryDistance]. *)
Definition primary_step (threshold : Z) (existingHash objectId : string)
    (primaryDistance : Z) (b : ImageProcessor.best) : ImageProcessor.best :=
  if (primaryDistance <=? threshold) && JS.lt (Num primaryDistance) (snd b)
  then (Some {| ImageProcessor.objectId := objectId;
                ImageProcessor.distance := primaryDistance;
                ImageProcessor.matchedHash := existingHash |}, Num primaryDistance)
  else b.

(** The loop over the stored entries: how it ends, and its comparisons. *)
Fixpoint entries_result (threshold : Z) (p : string) (vs : list string)
    (entries : list (string * string)) (b : ImageProcessor.best)
    : completion ImageProcessor.best * list event :=
  match entries with
  | [] => (Normal b, [])
  | (existingHash, objectId) :: rest =>
      match ImageProcessor.hammingDistance p existingHash with
      | Normal d =>
          let b1 := primary_step threshold existingHash objectId d b in
          if (d >? threshold) && (threshold <=? 3) then
            match entries_result threshold p vs rest
                    (fold_left (variant_step threshold existingHash objectId) vs b1) with
            | (r, t) =>
                (r, Compare Primary p existingHash ::
                    map (fun h => Compare Variant h existingHash) vs ++ t)
            end
          else
            match entries_result threshold p vs rest b1 with
            | (r, t) => (r, Compare Primary p existingHash :: t)
            end
      | Throw e => (Throw e, [Compare Primary p existingHash])
      | Diverge => (Diverge, [Compare Primary p existingHash])
      end
  end.

Lemma entries_loop_run (threshold : Z) (bd : ImageProcessor.bundle)
    (entries : list (string * string)) (b : ImageProcessor.best) (s : unit) :
  ImageProcessor.entries_loop threshold bd
    (ImageProcessor.primary bd :: map ImageProcessor.hash (ImageProcessor.variants bd))
    entries b s =
  match entries_result threshold (ImageProcessor.primary bd)
          (map ImageProcessor.hash (ImageProcessor.variants bd)) entries b with
  | (r, t) => (r, s, t)
  end.
Proof.
  revert b. induction entries as [| [existingHash objectId] rest IH]; intros b.
  - reflexivity.
  - cbn [ImageProcessor.entries_loop entries_result].
    unfold bind at 1. unfold bind at 1. unfold emit, lift.
    destruct (ImageProcessor.hammingDistance (ImageProcessor.primary bd) existingHash)
      as [d | e |]; try reflexivity.
    fold (primary_step threshold existingHash objectId d b).
    unfold bind at 1.
    destruct ((d >? threshold) && (threshold <=? 3)).
    + cbn [skipn]. rewrite variant_loop_run, IH.
      destruct (entries_result _ _ _ rest _) as [r t]. reflexivity.
    + unfold ret at 1. rewrite IH.
      destruct (entries_result _ _ _ rest _) as [r t]. reflexivity.
Qed.

Section Matcher.

Context {Buffer : Type} (ext : Externals Buffer).

(** [findBestMatch] in terms of the bundle and the loop over the entries. *)
Lemma findBestMatch_run (img : Buffer) (store : list (string * string))
    (threshold : Z) (s : unit) :
  exists tg,
    Forall (fun e => is_compare e = false) tg /\
    ImageProcessor.generateRobustPHashFromBuffer ext img s =
      (bundle_result ext img, s, tg) /\
    ImageProcessor.findBestMatch ext img store threshold s =
    match bundle_result ext img with
    | Normal bd =>
        match entries_result threshold (ImageProcessor.primary bd)
                (map ImageProcessor.hash (ImageProcessor.variants bd)) store
                (None, Infinity) with
        | (Normal b, t) => (Normal (fst b), s, tg ++ t)
        | (Throw e, t) => (Normal None, s, tg ++ t)
        | (Diverge, t) => (Diverge, s, tg ++ t)
        end
    | Throw e => (Normal None, s, tg)
    | Diverge => (Diverge, s, tg)
    end.
Proof.
  destruct (generateRobustPHashFromBuffer_run ext img s) as [tg [Hrun Hq]].
  exists tg. split; [ assumption | split; [ assumption | ] ].
  unfold ImageProcessor.findBestMatch, try_catch. unfold bind at 1.
  rewrite Hrun.
  destruct (bundle_result ext img) as [bd | e |].
  - unfold bind at 1. rewrite entries_loop_run.
    destruct (entries_result _ _ _ store _) as [[b | e |] t]; cbn;
      rewrite ?app_nil_r; reflexivity.
  - cbn. rewrite app_nil_r. reflexivity.
  - reflexivity.
Qed.

End Matcher.

(** ** What the duplicate search returns *)

(** A stored fingerprint is admissible when its distance from the primary
    fingerprint is within the threshold. *)
Definition admissible (p : string) (threshold : Z) (h : string) : Prop :=
  bit_distance p h <= threshold.

(** [r] is the admissible record of smallest distance, the earliest one among
    equals; or nothing, when no record is admissible. *)
Definition earliest_best (p : string) (threshold : Z)
    (store : list (string * string)) (r : option ImageProcessor.bestMatch) : Prop :=
  match r with
  | None => forall h o, In (h, o) store -> ~ admissible p threshold h
  | Some m =>
      exists i,
        nth_error store i = Some (ImageProcessor.matchedHash m, ImageProcessor.objectId m) /\
        ImageProcessor.distance m = bit_distance p (ImageProcessor.matchedHash m) /\
        admissible p threshold (ImageProcessor.matchedHash m) /\
        forall j h o,
          nth_error store j = Some (h, o) -> admissible p threshold h ->
          ImageProcessor.distance m <= bit_distance p h /\
          ((j < i)%nat -> ImageProcessor.distance m < bit_distance p h)
  end.

(** A variant of the bundle comes within the threshold of a stored
    fingerprint that the primary fingerprint does not reach. *)
Definition variant_hit (bd : ImageProcessor.bundle) (threshold : Z) (h : string) : Prop :=
  threshold < bit_distance (ImageProcessor.primary bd) h /\
  exists v, In v (ImageProcessor.variants bd) /\
            String.length (ImageProcessor.hash v) = String.length h /\
            bit_distance (ImageProcessor.hash v) h <= threshold.

(** The loop over the entries when only primary comparisons count. *)
Definition primary_fold (threshold : Z) (p : string)
    (entries : list (string * string)) (b : ImageProcessor.best) : ImageProcessor.best :=
  fold_left (fun b e => primary_step threshold (fst e) (snd e) (bit_distance p (fst e)) b)
            entries b.

(** [bestDistance] is the distance of [bestMatch]. *)
Definition coherent (b : ImageProcessor.best) : Prop :=
  snd b = match fst b with
          | None => Infinity
          | Some m => Num (ImageProcessor.distance m)
          end.

Lemma primary_fold_snoc (threshold : Z) (p : string) (entries : list (string * string))
    (h o : string) (b : ImageProcessor.best) :
  primary_fold threshold p (entries ++ [(h, o)]) b =
  primary_step threshold h o (bit_distance p h) (primary_fold threshold p entries b).
Proof. unfold primary_fold. rewrite fold_left_app. reflexivity. Qed.

Lemma primary_fold_best (threshold : Z) (p : string) (entries : list (string * string)) :
  coherent (primary_fold threshold p entries (None, Infinity)) /\
  earliest_best p threshold entries (fst (primary_fold threshold p entries (None, Infinity))).
Proof.
  induction entries as [| [h o] entries IH] using rev_ind.
  - split; [ reflexivity | ]. simpl. intros h o [].
  - rewrite primary_fold_snoc.
    destruct (primary_fold threshold p entries (None, Infinity)) as [bm bdist].
    destruct IH as [Hco Hbest]. unfold coherent in Hco. cbn [fst snd] in Hco, Hbest.
    unfold primary_step. cbn [snd].
    destruct ((bit_distance p h <=? threshold) && JS.lt (Num (bit_distance p h)) bdist)
      eqn:Hc.
    + apply andb_true_iff in Hc. destruct Hc as [Hle Hlt]. apply Z.leb_le in Hle.
      split; [ reflexivity | ]. cbn [fst earliest_best ImageProcessor.matchedHash
        ImageProcessor.objectId ImageProcessor.distance].
      exists (List.length entries). repeat split.
      * rewrite nth_error_app2 by lia. rewrite Nat.sub_diag. reflexivity.
      * exact Hle.
      * destruct (Nat.lt_ge_cases j (List.length entries)) as [Hj | Hj].
        -- rewrite nth_error_app1 in H by assumption.
           destruct bm as [m |]; subst bdist.
           ++ destruct Hbest as [i [_ [_ [_ Hmin]]]].
              simpl in Hlt. apply Z.ltb_lt in Hlt.
              destruct (Hmin j h0 o0 H H0). lia.
           ++ exfalso. apply (Hbest h0 o0); [ | assumption ].
              apply nth_error_In in H. assumption.
        -- rewrite nth_error_app2 in H by assumption.
           destruct (j - List.length entries)%nat as [| k] eqn:Ek.
           ++ simpl in H. injection H as <- <-. lia.
           ++ simpl in H. destruct k; discriminate.
      * intros Hj. rewrite nth_error_app1 in H by assumption.
        destruct bm as [m |]; subst bdist.
        -- destruct Hbest as [i [_ [_ [_ Hmin]]]].
           simpl in Hlt. apply Z.ltb_lt in Hlt.
           destruct (Hmin j h0 o0 H H0). lia.
        -- exfalso. apply (Hbest h0 o0); [ | assumption ].
           apply nth_error_In in H. assumption.
    + split; [ exact Hco | ]. cbn [fst].
      destruct bm as [m |]; subst bdist.
      * destruct Hbest as [i [Hnth [Hd [Hadm Hmin]]]].
        assert (i < List.length entries)%nat as Hi
          by (apply nth_error_Some; rewrite Hnth; discriminate).
        exists i. repeat split; try assumption.
        -- rewrite nth_error_app1 by assumption. assumption.
        -- destruct (Nat.lt_ge_cases j (List.length entries)) as [Hj | Hj].
           ++ rewrite nth_error_app1 in H by assumption.
              destruct (Hmin j h0 o0 H H0). assumption.
           ++ rewrite nth_error_app2 in H by assumption.
              destruct (j - List.length entries)%nat as [| k] eqn:Ek.
              ** simpl in H. injection H as <- <-.
                 unfold admissible in H0. apply Z.leb_le in H0. rewrite H0 in Hc.
                 simpl in Hc. apply Z.ltb_ge in Hc. assumption.
              ** simpl in H. destruct k; discriminate.
        -- intros Hj. assert (j < List.length entries)%nat as Hj' by lia.
           rewrite nth_error_app1 in H by assumption.
           destruct (Hmin j h0 o0 H H0) as [_ Hs]. apply Hs. assumption.
      * cbn [earliest_best]. intros h0 o0 Hin Hadm.
        apply in_app_or in Hin. destruct Hin as [Hin | [Heq | []]].
        -- apply (Hbest h0 o0); assumption.
        -- injection Heq as <- <-. unfold admissible in Hadm.
           apply Z.leb_le in Hadm. rewrite Hadm in Hc. discriminate.
Qed.

Lemma variant_fold_unchanged (threshold : Z) (existingHash objectId : string)
    (vs : list string) (b : ImageProcessor.best) :
  (forall v, In v vs ->
     String.length v = String.length existingHash ->
     threshold < bit_distance v existingHash) ->
  fold_left (variant_step threshold existingHash objectId) vs b = b.
Proof.
  revert b. induction vs as [| v rest IH]; intros b Hno.
  - reflexivity.
  - cbn [fold_left].
    assert (variant_step threshold existingHash objectId b v = b) as ->.
    { unfold variant_step.
      destruct (ip_distance_cases v existingHash) as [[Hlen ->] | [_ ->]].
      - specialize (Hno v (or_introl eq_refl) Hlen).
        apply Z.leb_gt in Hno. rewrite Hno, andb_false_r. reflexivity.
      - reflexivity. }
    apply IH. intros v' Hin. apply Hno. right. assumption.
Qed.

(** When no variant comparison can count, the loop is the fold over the
    primary comparisons. *)
Lemma entries_result_primary_only (threshold : Z) (p : string) (vs : list string)
    (entries : list (string * string)) (b : ImageProcessor.best) :
  Forall (fun e => String.length (fst e) = String.length p) entries ->
  (3 < threshold \/
   forall h o, In (h, o) entries -> threshold < bit_distance p h ->
     forall v, In v vs -> String.length v = String.length h ->
       threshold < bit_distance v h) ->
  fst (entries_result threshold p vs entries b) =
  Normal (primary_fold threshold p entries b).
Proof.
  revert b. induction entries as [| [h o] rest IH]; intros b Hlen Hno.
  - reflexivity.
  - inversion Hlen as [| x l Hh Hrest]; subst. cbn [fst] in Hh.
    cbn [entries_result]. rewrite ip_distance_eq by (symmetry; assumption).
    assert (3 < threshold \/
            forall h0 o0, In (h0, o0) rest -> threshold < bit_distance p h0 ->
              forall v, In v vs -> String.length v = String.length h0 ->
                threshold < bit_distance v h0) as Hno'.
    { destruct Hno as [Hgt | Hno]; [ left; assumption | right ].
      intros h0 o0 Hin. apply (Hno h0 o0). right. assumption. }
    specialize (IH (primary_step threshold h o (bit_distance p h) b) Hrest Hno').
    destruct ((bit_distance p h >? threshold) && (threshold <=? 3)) eqn:Hc.
    + apply andb_true_iff in Hc. destruct Hc as [Hd Ht].
      apply Z.gtb_lt in Hd. apply Z.leb_le in Ht.
      destruct Hno as [Hgt | Hno]; [ lia | ].
      rewrite variant_fold_unchanged
        by (apply (Hno h o); [ left; reflexivity | assumption ]).
      destruct (entries_result threshold p vs rest _) as [r t]. exact IH.
    + destruct (entries_result threshold p vs rest _) as [r t]. exact IH.
Qed.

Lemma no_variant_hit_lengths (bd : ImageProcessor.bundle) (threshold : Z)
    (store : list (string * string)) :
  (forall h o, In (h, o) store -> ~ variant_hit bd threshold h) ->
  forall h o, In (h, o) store -> threshold < bit_distance (ImageProcessor.primary bd) h ->
    forall v, In v (map ImageProcessor.hash (ImageProcessor.variants bd)) ->
      String.length v = String.length h -> threshold < bit_distance v h.
Proof.
  intros Hno h o Hin Hp v Hv Hlen.
  destruct (Z_lt_le_dec threshold (bit_distance v h)) as [Hlt | Hle];
    [ assumption | exfalso ].
  apply in_map_iff in Hv. destruct Hv as [x [<- Hx]].
  apply (Hno h o Hin). split; [ assumption | ].
  exists x. repeat split; assumption.
Qed.

Section DuplicateSearch.

Context {Buffer : Type} (ext : Externals Buffer).

Lemma findBestMatch_primary_only (img : Buffer) (bd : ImageProcessor.bundle)
    (tg : list event) (store : list (string * string)) (threshold : Z) :
  ImageProcessor.generateRobustPHashFromBuffer ext img tt = (Normal bd, tt, tg) ->
  Forall (fun e => String.length (fst e) = String.length (ImageProcessor.primary bd)) store ->
  (3 < threshold \/ forall h o, In (h, o) store -> ~ variant_hit bd threshold h) ->
  exists r tr,
    ImageProcessor.findBestMatch ext img store threshold tt = (Normal r, tt, tr) /\
    earliest_best (ImageProcessor.primary bd) threshold store r.
Proof.
  intros Hgen Hlen Hno.
  destruct (findBestMatch_run ext img store threshold tt) as [tg' [_ [Hgen' Hrun]]].
  rewrite Hgen in Hgen'. injection Hgen' as Hbd Htg. rewrite <- Hbd in Hrun.
  assert (fst (entries_result threshold (ImageProcessor.primary bd)
                 (map ImageProcessor.hash (ImageProcessor.variants bd)) store
                 (None, Infinity)) =
          Normal (primary_fold threshold (ImageProcessor.primary bd) store (None, Infinity)))
    as Hres.
  { apply entries_result_primary_only; [ assumption | ].
    destruct Hno as [Hgt | Hno]; [ left; assumption | right ].
    apply no_variant_hit_lengths. assumption. }
  destruct (entries_result _ _ _ store _) as [r t]. cbn [fst] in Hres. subst r.
  eexists. eexists. split; [ exact Hrun | ].
  apply primary_fold_best.
Qed.

End DuplicateSearch.

(** C1 (as amended). Let the bundle of the query image be generated, with
    primary fingerprint [p], and let every stored fingerprint have the length
    of [p].  When the threshold is above 3, or no variant fingerprint comes
    within the threshold of a stored fingerprint that [p] does not reach,
    [findBestMatch] returns the admissible record (distance of [p] to it
    within the threshold) of smallest distance, the earliest-iterated one
    among equals, and [null] when no record is admissible.  For the store
    with the single entry [h1 -> "obj-A"] and [p] at distance 2 from [h1]:
    threshold 3 gives [{objectId: "obj-A", distance: 2, hash: h1}], and
    threshold 1 gives [null] provided no variant is within 1 of [h1]. *)
Theorem findBestMatch_earliest_best {Buffer : Type} (ext : Externals Buffer)
    (img : Buffer) (bd : ImageProcessor.bundle) (tg : list event) :
  ImageProcessor.generateRobustPHashFromBuffer ext img tt = (Normal bd, tt, tg) ->
  (forall store threshold,
     Forall (fun e => String.length (fst e) = String.length (ImageProcessor.primary bd))
            store ->
     (3 < threshold \/ forall h o, In (h, o) store -> ~ variant_hit bd threshold h) ->
     exists r tr,
       ImageProcessor.findBestMatch ext img store threshold tt = (Normal r, tt, tr) /\
       earliest_best (ImageProcessor.primary bd) threshold store r) /\
  (forall h1,
     String.length h1 = String.length (ImageProcessor.primary bd) ->
     bit_distance (ImageProcessor.primary bd) h1 = 2 ->
     (exists tr,
        ImageProcessor.findBestMatch ext img [(h1, "obj-A")] 3 tt =
        (Normal (Some {| ImageProcessor.objectId := "obj-A";
                         ImageProcessor.distance := 2;
                         ImageProcessor.matchedHash := h1 |}), tt, tr)) /\
     (~ variant_hit bd 1 h1 ->
      exists tr,
        ImageProcessor.findBestMatch ext img [(h1, "obj-A")] 1 tt = (Normal None, tt, tr))).
Proof.
  intros Hgen. split.
  - intros store threshold.
    exact (findBestMatch_primary_only ext img (store := store)
             (threshold := threshold) Hgen).
  - intros h1 Hlen Hd. split.
    + destruct (findBestMatch_primary_only ext img (threshold := 3)
                  (store := [(h1, "obj-A")]) Hgen) as [r [tr [Hrun Hbest]]].
      * constructor; [ assumption | constructor ].
      * right. intros h o [Heq | []]. injection Heq as <- <-.
        unfold variant_hit. lia.
      * exists tr. rewrite Hrun. destruct r as [m |].
        -- destruct Hbest as [i [Hnth [Hdist _]]].
           destruct i as [| i]; [ | destruct i; discriminate ].
           simpl in Hnth. destruct m as [oid d mh]. simpl in *.
           injection Hnth as <- <-. rewrite Hd in Hdist. subst d. reflexivity.
        -- exfalso. apply (Hbest h1 "obj-A"); [ left; reflexivity | ].
           unfold admissible. lia.
    + intros Hno.
      destruct (findBestMatch_primary_only ext img (threshold := 1)
                  (store := [(h1, "obj-A")]) Hgen) as [r [tr [Hrun Hbest]]].
      * constructor; [ assumption | constructor ].
      * right. intros h o [Heq | []]. injection Heq as <- <-. assumption.
      * exists tr. rewrite Hrun. destruct r as [m |]; [ exfalso | reflexivity ].
        destruct Hbest as [i [Hnth [_ [Hadm _]]]].
        destruct i as [| i]; [ | destruct i; discriminate ].
        simpl in Hnth. injection Hnth as Hm _.
        unfold admissible in Hadm. rewrite <- Hm in Hadm. lia.
Qed.

(** The query of the scenario, in a world where no transform of the picture
    comes near the stored fingerprint. *)
Lemma findBestMatch_scenario :
  (exists tr,
     ImageProcessor.findBestMatch
       (Toy.world Toy.always Toy.always Toy.plain ImageProcessor.zeroHash)
       (Toy.Raw 1) [(Toy.h1, "obj-A")] 3 tt =
     (Normal (Some {| ImageProcessor.objectId := "obj-A";
                      ImageProcessor.distance := 2;
                      ImageProcessor.matchedHash := Toy.h1 |}), tt, tr)) /\
  (exists tr,
     ImageProcessor.findBestMatch
       (Toy.world Toy.always Toy.always Toy.plain ImageProcessor.zeroHash)
       (Toy.Raw 1) [(Toy.h1, "obj-A")] 1 tt = (Normal None, tt, tr)).
Proof.
  assert (exists bd tg,
            ImageProcessor.generateRobustPHashFromBuffer
              (Toy.world Toy.always Toy.always Toy.plain ImageProcessor.zeroHash)
              (Toy.Raw 1) tt = (Normal bd, tt, tg) /\
            ImageProcessor.primary bd = Toy.near_h1 /\
            Forall (fun v => In (ImageProcessor.hash v) [Toy.near_h1; Toy.ones])
                   (ImageProcessor.variants bd)) as [bd [tg [Hgen [Hp Hv]]]].
  { eexists. eexists. split; [ vm_compute; reflexivity | ].
    split; [ reflexivity | ].
    repeat (apply Forall_cons; [ simpl; tauto | ]). apply Forall_nil. }
  destruct (findBestMatch_earliest_best _ _ Hgen) as [_ Hscenario].
  destruct (Hscenario Toy.h1) as [H3 H1].
  - rewrite Hp. reflexivity.
  - rewrite Hp. reflexivity.
  - split; [ exact H3 | apply H1 ].
    intros [_ [v [Hin [_ Hd]]]].
    rewrite Forall_forall in Hv. specialize (Hv v Hin).
    destruct Hv as [E | [E | []]]; rewrite <- E in Hd; vm_compute in Hd;
      apply Hd; reflexivity.
Defined.

(** C1, counterexample.  The primary fingerprint is at distance 2 from the
    only stored fingerprint, so at threshold 1 no record is admissible; the
    picture turned by 90 degrees hashes to the stored fingerprint, and
    [findBestMatch] returns that record at distance 0. *)
Lemma findBestMatch_admits_by_variant :
  ImageProcessor.hammingDistance Toy.near_h1 Toy.h1 = Normal 2 /\
  (exists bd tg,
     ImageProcessor.generateRobustPHashFromBuffer
       (Toy.world Toy.always Toy.always Toy.turned90 ImageProcessor.zeroHash)
       (Toy.Raw 1) tt = (Normal bd, tt, tg) /\
     ImageProcessor.primary bd = Toy.near_h1) /\
  fst (fst (ImageProcessor.findBestMatch
              (Toy.world Toy.always Toy.always Toy.turned90 ImageProcessor.zeroHash)
              (Toy.Raw 1) [(Toy.h1, "obj-A")] 1 tt)) =
  Normal (Some {| ImageProcessor.objectId := "obj-A";
                  ImageProcessor.distance := 0;
                  ImageProcessor.matchedHash := Toy.h1 |}).
Proof.
  split; [ reflexivity | split ].
  - eexists. eexists. split; [ vm_compute; reflexivity | reflexivity ].
  - vm_compute. reflexivity.
Qed.

(** ** Which comparisons the duplicate search makes *)

Lemma entries_result_variant_events (threshold : Z) (p : string) (vs : list string)
    (entries : list (string * string)) (b : ImageProcessor.best) (v h : string) :
  In (Compare Variant v h) (snd (entries_result threshold p vs entries b)) ->
  threshold <= 3 /\ In v vs /\
  exists o d, In (h, o) entries /\
              ImageProcessor.hammingDistance p h = Normal d /\ threshold < d.
Proof.
  revert b. induction entries as [| [eh oid] rest IH]; intros b Hin.
  - destruct Hin.
  - cbn [entries_result] in Hin.
    destruct (ImageProcessor.hammingDistance p eh) as [d | e |] eqn:Hd.
    + destruct ((d >? threshold) && (threshold <=? 3)) eqn:Hc.
      * specialize (IH (fold_left (variant_step threshold eh oid) vs
                          (primary_step threshold eh oid d b))).
        destruct (entries_result threshold p vs rest _) as [r t].
        cbn [snd] in Hin, IH. destruct Hin as [Hin | Hin]; [ discriminate | ].
        apply in_app_or in Hin. destruct Hin as [Hin | Hin].
        -- apply andb_true_iff in Hc. destruct Hc as [Hgt Hle].
           apply Z.gtb_lt in Hgt. apply Z.leb_le in Hle.
           apply in_map_iff in Hin. destruct Hin as [x [Heq Hx]].
           injection Heq as -> ->.
           split; [ assumption | split; [ assumption | ] ].
           exists oid, d. split; [ left; reflexivity | split; assumption ].
        -- destruct (IH Hin) as [H3 [Hv [o [d' [Ho Hd']]]]].
           split; [ assumption | split; [ assumption | ] ].
           exists o, d'. split; [ right; assumption | assumption ].
      * specialize (IH (primary_step threshold eh oid d b)).
        destruct (entries_result threshold p vs rest _) as [r t].
        cbn [snd] in Hin, IH. destruct Hin as [Hin | Hin]; [ discriminate | ].
        destruct (IH Hin) as [H3 [Hv [o [d' [Ho Hd']]]]].
        split; [ assumption | split; [ assumption | ] ].
        exists o, d'. split; [ right; assumption | assumption ].
    + cbn [snd] in Hin. destruct Hin as [Hin | []]. discriminate.
    + cbn [snd] in Hin. destruct Hin as [Hin | []]. discriminate.
Qed.

Lemma quiet_not_compare (t : list event) (k : comparison) (a b : string) :
  Forall (fun e => is_compare e = false) t -> ~ In (Compare k a b) t.
Proof.
  intros Hq Hin. rewrite Forall_forall in Hq. specialize (Hq _ Hin). discriminate.
Qed.

Section Comparisons.

Context {Buffer : Type} (ext : Externals Buffer).

Lemma findBestMatch_variant_events (img : Buffer) (store : list (string * string))
    (threshold : Z) (v h : string) :
  In (Compare Variant v h) (snd (ImageProcessor.findBestMatch ext img store threshold tt)) ->
  threshold <= 3 /\
  exists bd o d,
    fst (fst (ImageProcessor.generateRobustPHashFromBuffer ext img tt)) = Normal bd /\
    In v (map ImageProcessor.hash (ImageProcessor.variants bd)) /\
    In (h, o) store /\
    ImageProcessor.hammingDistance (ImageProcessor.primary bd) h = Normal d /\
    threshold < d.
Proof.
  destruct (findBestMatch_run ext img store threshold tt) as [tg [Hq [Hgen Hrun]]].
  rewrite Hrun, Hgen. cbn [fst]. clear Hrun Hgen.
  destruct (bundle_result ext img) as [bd | e |].
  - pose proof (entries_result_variant_events threshold (ImageProcessor.primary bd)
                  (map ImageProcessor.hash (ImageProcessor.variants bd)) store
                  (None, Infinity) v h) as Hev.
    destruct (entries_result _ _ _ store _) as [r t]. cbn [snd] in Hev.
    intros Hin.
    assert (In (Compare Variant v h) t) as Hin'.
    { destruct r; cbn [snd] in Hin; apply in_app_or in Hin;
        destruct Hin as [Hin | Hin]; try assumption;
        exfalso; exact (quiet_not_compare Variant v h Hq Hin). }
    destruct (Hev Hin') as [H3 [Hv [o [d [Ho [Hd Hlt]]]]]].
    split; [ assumption | ].
    exists bd, o, d. repeat split; assumption.
  - cbn [snd]. intros Hin. exfalso. exact (quiet_not_compare Variant v h Hq Hin).
  - cbn [snd]. intros Hin. exfalso. exact (quiet_not_compare Variant v h Hq Hin).
Qed.

End Comparisons.

(** C3. In [findBestMatch], every comparison of a variant fingerprint [v]
    with a stored fingerprint [h] is made with [threshold <= 3], for a record
    whose comparison with the primary fingerprint returned a distance above
    the threshold; with a threshold above 3 no variant is compared.  After
    the comparison of a variant the best match is unchanged, unless the
    distance is within the threshold and below the best distance so far, in
    which case (and in every such case) the record becomes the best match. *)
Theorem findBestMatch_variants_only_in_strict_mode {Buffer : Type}
    (ext : Externals Buffer) (img : Buffer) (store : list (string * string))
    (threshold : Z) :
  (forall v h,
     In (Compare Variant v h)
        (snd (ImageProcessor.findBestMatch ext img store threshold tt)) ->
     threshold <= 3 /\
     exists bd o d,
       fst (fst (ImageProcessor.generateRobustPHashFromBuffer ext img tt)) = Normal bd /\
       In v (map ImageProcessor.hash (ImageProcessor.variants bd)) /\
       In (h, o) store /\
       ImageProcessor.hammingDistance (ImageProcessor.primary bd) h = Normal d /\
       threshold < d) /\
  (3 < threshold ->
   forall v h,
     ~ In (Compare Variant v h)
          (snd (ImageProcessor.findBestMatch ext img store threshold tt))) /\
  (forall existingHash objectId v rest b,
   exists b',
     ImageProcessor.variant_loop threshold existingHash objectId (v :: rest) b tt =
     (match ImageProcessor.variant_loop threshold existingHash objectId rest b' tt with
      | (r, s, t) => (r, s, Compare Variant v existingHash :: t)
      end) /\
     (b' = b \/
      exists d,
        ImageProcessor.hammingDistance v existingHash = Normal d /\
        d <= threshold /\ JS.lt (Num d) (snd b) = true /\
        b' = (Some {| ImageProcessor.objectId := objectId;
                      ImageProcessor.distance := d;
                      ImageProcessor.matchedHash := existingHash |}, Num d)) /\
     (forall d,
        ImageProcessor.hammingDistance v existingHash = Normal d ->
        d <= threshold -> JS.lt (Num d) (snd b) = true ->
        b' = (Some {| ImageProcessor.objectId := objectId;
                      ImageProcessor.distance := d;
                      ImageProcessor.matchedHash := existingHash |}, Num d))).
Proof.
  split; [ | split ].
  - intros v h. apply findBestMatch_variant_events.
  - intros Hgt v h Hin.
    destruct (findBestMatch_variant_events ext img store threshold v h Hin) as [H3 _].
    lia.
  - intros existingHash objectId v rest b.
    exists (variant_step threshold existingHash objectId b v).
    split; [ apply variant_loop_cons | ].
    unfold variant_step.
    destruct (ImageProcessor.hammingDistance v existingHash) as [d | e |].
    + destruct (JS.lt (Num d) (snd b) && (d <=? threshold)) eqn:Hc.
      * apply andb_true_iff in Hc. destruct Hc as [Hlt Hle]. apply Z.leb_le in Hle.
        split.
        -- right. exists d. repeat split; assumption.
        -- intros d' Hd' _ _. injection Hd' as <-. reflexivity.
      * split; [ left; reflexivity | ].
        intros d' Hd' Hle Hlt. injection Hd' as <-.
        apply Z.leb_le in Hle. rewrite Hle, Hlt in Hc. discriminate.
    + split; [ left; reflexivity | discriminate ].
    + split; [ left; reflexivity | discriminate ].
Qed.

(** ** Failures while the bundle is generated *)

(** C8 (as amended). When the canonical form of the input is valid and the
    generation of one variant fingerprint (a rotation or a scale) fails,
    [generateRobustPHashFromBuffer] fails as a whole: it throws and returns
    no bundle. *)
Theorem generateRobustPHashFromBuffer_fails_with_variant {Buffer : Type}
    (ext : Externals Buffer) (img nb : Buffer) (t : transform) (e : exn) :
  sharp_normalize ext img = inr nb ->
  In t variant_transforms ->
  variant_fingerprint ext nb t = inl e ->
  exists e' tr,
    ImageProcessor.generateRobustPHashFromBuffer ext img tt = (Throw e', tt, tr).
Proof.
  intros Hnorm Hin Hfail.
  destruct (generateRobustPHashFromBuffer_run ext img tt) as [tr [Hrun _]].
  rewrite Hrun. unfold bundle_result. rewrite Hnorm.
  destruct (variant_fingerprint ext nb Original) as [e0 | originalHash].
  - exists e0, tr. reflexivity.
  - destruct (variants_result_fails ext nb variant_transforms
                [{| ImageProcessor.type := Original;
                    ImageProcessor.hash := originalHash |}] t Hin Hfail) as [e' ->].
    exists e', tr. reflexivity.
Qed.

Lemma generateRobustPHashFromBuffer_rotation_fails :
  exists e' tr,
    ImageProcessor.generateRobustPHashFromBuffer
      (Toy.world Toy.always Toy.not45 Toy.plain ImageProcessor.zeroHash)
      (Toy.Raw 1) tt = (Throw e', tt, tr).
Proof.
  apply (generateRobustPHashFromBuffer_fails_with_variant
           (Toy.world Toy.always Toy.not45 Toy.plain ImageProcessor.zeroHash)
           (Toy.Raw 1) (nb := Toy.Normalized 1) (t := Rotated 45)
           (e := Error "Expected valid rotation")).
  - reflexivity.
  - simpl. tauto.
  - reflexivity.
Defined.

(** C8, counterexample.  The picture is decoded and its own fingerprint is
    computed; the rotation by 45 degrees fails, and with it the whole call. *)
Lemma generateRobustPHashFromBuffer_not_lenient :
  sharp_normalize (Toy.world Toy.always Toy.not45 Toy.plain ImageProcessor.zeroHash)
    (Toy.Raw 1) = inr (Toy.Normalized 1) /\
  variant_fingerprint (Toy.world Toy.always Toy.not45 Toy.plain ImageProcessor.zeroHash)
    (Toy.Normalized 1) Original = inr Toy.near_h1 /\
  variant_fingerprint (Toy.world Toy.always Toy.not45 Toy.plain ImageProcessor.zeroHash)
    (Toy.Normalized 1) (Rotated 45) = inl (Error "Expected valid rotation") /\
  fst (fst (ImageProcessor.generateRobustPHashFromBuffer
              (Toy.world Toy.always Toy.not45 Toy.plain ImageProcessor.zeroHash)
              (Toy.Raw 1) tt)) = Throw (Error "Expected valid rotation").
Proof. repeat split; vm_compute; reflexivity. Qed.

(** ** Fallback fingerprints *)

Lemma entries_result_primary_events (threshold : Z) (p : string) (vs : list string)
    (entries : list (string * string)) (b : ImageProcessor.best) :
  Forall (fun e => String.length (fst e) = String.length p) entries ->
  forall h o, In (h, o) entries ->
    In (Compare Primary p h) (snd (entries_result threshold p vs entries b)).
Proof.
  revert b. induction entries as [| [eh oid] rest IH]; intros b Hlen h o Hin.
  - destruct Hin.
  - inversion Hlen as [| x l Hh Hrest]; subst. cbn [fst] in Hh.
    cbn [entries_result]. rewrite ip_distance_eq by (symmetry; assumption).
    destruct ((bit_distance p eh >? threshold) && (threshold <=? 3)).
    + specialize (IH (fold_left (variant_step threshold eh oid) vs
                        (primary_step threshold eh oid (bit_distance p eh) b)) Hrest h o).
      destruct (entries_result threshold p vs rest _) as [r t]. cbn [snd] in *.
      destruct Hin as [Heq | Hin].
      * injection Heq as -> ->. left. reflexivity.
      * right. apply in_or_app. right. apply IH. assumption.
    + specialize (IH (primary_step threshold eh oid (bit_distance p eh) b) Hrest h o).
      destruct (entries_result threshold p vs rest _) as [r t]. cbn [snd] in *.
      destruct Hin as [Heq | Hin].
      * injection Heq as -> ->. left. reflexivity.
      * right. apply IH. assumption.
Qed.

(** C7 (as amended). When the perceptual hash of the canonical image is the
    all-zero fingerprint, the primary fingerprint of the bundle is the
    fallback (the first 64 digits of the SHA-256 digest of the description
    of the canonical image), with no mark that tells it from a perceptual
    fingerprint; when the stored fingerprints have its length,
    [findBestMatch] compares it, like any primary fingerprint, with every
    one of them. *)
Theorem fallback_compared_with_every_record {Buffer : Type} (ext : Externals Buffer)
    (img nb file : Buffer) (data : string) (bd : ImageProcessor.bundle)
    (tg : list event) :
  sharp_normalize ext img = inr nb ->
  sharp_toFile ext nb = inr file ->
  imageHash ext file = inr ImageProcessor.zeroHash ->
  sharp_describe ext nb = inr data ->
  ImageProcessor.generateRobustPHashFromBuffer ext img tt = (Normal bd, tt, tg) ->
  ImageProcessor.primary bd = substring 0 64 (sha256_hex ext data) /\
  forall store threshold,
    Forall (fun e => String.length (fst e) = String.length (ImageProcessor.primary bd))
           store ->
    forall h o, In (h, o) store ->
      In (Compare Primary (ImageProcessor.primary bd) h)
         (snd (ImageProcessor.findBestMatch ext img store threshold tt)).
Proof.
  intros Hnorm Hfile Hhash Hdesc Hgen.
  assert (bundle_result ext img = Normal bd) as Hbd.
  { destruct (generateRobustPHashFromBuffer_run ext img tt) as [tr [Hrun _]].
    rewrite Hgen in Hrun. injection Hrun as Hr _. symmetry. assumption. }
  split.
  - unfold bundle_result in Hbd. rewrite Hnorm in Hbd. cbn [variant_fingerprint] in Hbd.
    rewrite Hfile, Hhash in Hbd.
    destruct (variants_result ext nb variant_transforms _) as [hashes | e0 |];
      try discriminate.
    rewrite String.eqb_refl, Hdesc in Hbd. injection Hbd as <-. reflexivity.
  - intros store threshold Hlen h o Hin.
    destruct (findBestMatch_run ext img store threshold tt) as [tg' [_ [_ Hrun]]].
    rewrite Hrun, Hbd.
    pose proof (@entries_result_primary_events threshold (ImageProcessor.primary bd)
                  (map ImageProcessor.hash (ImageProcessor.variants bd)) store
                  (None, Infinity) Hlen h o Hin) as Hev.
    destruct (entries_result _ _ _ store _) as [r t]. cbn [snd] in Hev.
    destruct r; cbn [snd]; apply in_or_app; right; assumption.
Qed.

Lemma fallback_meets_stored_fingerprint :
  In (Compare Primary Toy.near_h1 Toy.h1)
     (snd (ImageProcessor.findBestMatch
             (Toy.world Toy.always Toy.always Toy.blank_but_2 Toy.near_h1)
             (Toy.Raw 1) [(Toy.h1, "obj-A")] 3 tt)).
Proof.
  assert (exists bd tg,
            ImageProcessor.generateRobustPHashFromBuffer
              (Toy.world Toy.always Toy.always Toy.blank_but_2 Toy.near_h1)
              (Toy.Raw 1) tt = (Normal bd, tt, tg) /\
            ImageProcessor.primary bd = Toy.near_h1) as [bd [tg [Hgen Hp]]].
  { eexists. eexists. split; [ vm_compute; reflexivity | reflexivity ]. }
  destruct (fallback_compared_with_every_record
              (Toy.world Toy.always Toy.always Toy.blank_but_2 Toy.near_h1)
              (Toy.Raw 1) (nb := Toy.Normalized 1) (file := Toy.Normalized 1)
              (data := "512x512_jpeg_[]") eq_refl eq_refl eq_refl eq_refl Hgen)
    as [_ Hcmp].
  assert (Forall (fun e : string * string =>
                    String.length (fst e) = String.length (ImageProcessor.primary bd))
                 [(Toy.h1, "obj-A")]) as Hlen
    by (constructor; [ rewrite Hp; reflexivity | constructor ]).
  pose proof (Hcmp [(Toy.h1, "obj-A")] 3 Hlen Toy.h1 "obj-A" (or_introl eq_refl)) as Hin.
  rewrite Hp in Hin. exact Hin.
Defined.

(** C7, counterexample.  Picture 2 is registered under its perceptual
    fingerprint [h1].  Picture 1 is uniform: its perceptual hash is all-zero
    and its primary fingerprint is the fallback.  The duplicate check of
    picture 1 compares the fallback with [h1], and reports a match. *)
Lemma fallback_compared_with_perceptual :
  (exists vs tg,
     ImageProcessor.generateRobustPHashFromBuffer
       (Toy.world Toy.always Toy.always Toy.blank_but_2 Toy.near_h1)
       (Toy.Raw 2) tt = (Normal {| ImageProcessor.primary := Toy.h1;
                                   ImageProcessor.variants := vs |}, tt, tg) /\
     imageHash (Toy.world Toy.always Toy.always Toy.blank_but_2 Toy.near_h1)
       (Toy.Normalized 2) = inr Toy.h1) /\
  (exists vs tg,
     ImageProcessor.generateRobustPHashFromBuffer
       (Toy.world Toy.always Toy.always Toy.blank_but_2 Toy.near_h1)
       (Toy.Raw 1) tt = (Normal {| ImageProcessor.primary := Toy.near_h1;
                                   ImageProcessor.variants := vs |}, tt, tg) /\
     imageHash (Toy.world Toy.always Toy.always Toy.blank_but_2 Toy.near_h1)
       (Toy.Normalized 1) = inr ImageProcessor.zeroHash) /\
  In (Compare Primary Toy.near_h1 Toy.h1)
     (snd (ImageProcessor.findBestMatch
             (Toy.world Toy.always Toy.always Toy.blank_but_2 Toy.near_h1)
             (Toy.Raw 1) [(Toy.h1, "obj-A")] 3 tt)) /\
  fst (fst (ImageProcessor.findBestMatch
              (Toy.world Toy.always Toy.always Toy.blank_but_2 Toy.near_h1)
              (Toy.Raw 1) [(Toy.h1, "obj-A")] 3 tt)) =
  Normal (Some {| ImageProcessor.objectId := "obj-A";
                  ImageProcessor.distance := 2;
                  ImageProcessor.matchedHash := Toy.h1 |}).
Proof.
  split; [ | split; [ | split ] ].
  - eexists. eexists. split; [ vm_compute; reflexivity | reflexivity ].
  - eexists. eexists. split; [ vm_compute; reflexivity | reflexivity ].
  - vm_compute. tauto.
  - vm_compute. reflexivity.
Qed.

(** ** The verifier in closed form *)

Module Report.

Import AdvancedImageMatcher.

(** The assignments of a stage-1 hit, and of a stage-1 miss. *)
Definition direct_hit (d : number) (r : results) : results :=
  set_overall {| Overall.matched := true; Overall.confidence := 95 # 100;
                 Overall.method := "direct_phash" |}
    (set_stage1_phash {| Stage.matched := true; Stage.distance := d;
                         Stage.confidence := 95 # 100 |} r).

Definition direct_miss (d : number) (r : results) : results :=
  set_stage1_phash (set_distance (JS.min (Stage.distance (stage1_phash r)) d)
                                 (stage1_phash r)) r.

(** The assignments of a stage-2 hit, and of a stage-2 miss. *)
Definition rotation_hit (d : number) (r : results) : results :=
  set_overall {| Overall.matched := true; Overall.confidence := 85 # 100;
                 Overall.method := "rotation_phash" |}
    (set_stage2_rotation {| Stage.matched := true; Stage.distance := d;
                            Stage.confidence := 85 # 100 |} r).

Definition rotation_miss (d : number) (r : results) : results :=
  set_stage2_rotation (set_distance (JS.min (Stage.distance (stage2_rotation r)) d)
                                    (stage2_rotation r)) r.

(** The state after a run of misses. *)
Definition direct_misses (h : string) (l : list string) (r : results) : results :=
  fold_left (fun r x => direct_miss (hammingDistance h x) r) l r.

Definition rotation_misses (h : string) (l : list string) (r : results) : results :=
  fold_left (fun r x => rotation_miss (hammingDistance h x) r) l r.

(** No stage has matched yet. *)
Definition unmatched (r : results) : Prop :=
  overall r = overall initial /\
  stage3_color r = stage3_color initial /\
  stage4_edge r = stage4_edge initial /\
  Stage.matched (stage1_phash r) = false /\
  Stage.matched (stage2_rotation r) = false.

(** The report of a match in stage 1, and of a match in stage 2. *)
Definition direct_form (r : results) : Prop :=
  overall r = {| Overall.matched := true; Overall.confidence := 95 # 100;
                 Overall.method := "direct_phash" |} /\
  Stage.matched (stage1_phash r) = true /\
  stage3_color r = stage3_color initial /\
  stage4_edge r = stage4_edge initial.

Definition rotation_form (r : results) : Prop :=
  overall r = {| Overall.matched := true; Overall.confidence := 85 # 100;
                 Overall.method := "rotation_phash" |} /\
  Stage.matched (stage2_rotation r) = true /\
  stage3_color r = stage3_color initial /\
  stage4_edge r = stage4_edge initial.

End Report.
Import Report.

Lemma stage1_loop_cons (h x : string) (rest : list string)
    (s : AdvancedImageMatcher.results) :
  AdvancedImageMatcher.stage1_loop h (x :: rest) s =
  if JS.le (AdvancedImageMatcher.hammingDistance h x) (Num 3)
  then (Normal (Some (direct_hit (AdvancedImageMatcher.hammingDistance h x) s)),
        direct_hit (AdvancedImageMatcher.hammingDistance h x) s,
        [Compare Direct h x])
  else match AdvancedImageMatcher.stage1_loop h rest
               (direct_miss (AdvancedImageMatcher.hammingDistance h x) s) with
       | (r, s', t) => (r, s', Compare Direct h x :: t)
       end.
Proof.
  cbn [AdvancedImageMatcher.stage1_loop].
  unfold bind at 1. unfold emit at 1.
  destruct (JS.le (AdvancedImageMatcher.hammingDistance h x) (Num 3)).
  - reflexivity.
  - unfold bind at 1. unfold modify at 1.
    fold (direct_miss (AdvancedImageMatcher.hammingDistance h x) s).
    destruct (AdvancedImageMatcher.stage1_loop h rest _) as [[r s'] t]. reflexivity.
Qed.

Lemma stage2_scan_cons (angle : Z) (h x : string) (rest : list string)
    (s : AdvancedImageMatcher.results) :
  AdvancedImageMatcher.stage2_scan angle h (x :: rest) s =
  if JS.le (AdvancedImageMatcher.hammingDistance h x) (Num 8)
  then (Normal (Some (rotation_hit (AdvancedImageMatcher.hammingDistance h x) s)),
        rotation_hit (AdvancedImageMatcher.hammingDistance h x) s,
        [Compare (Rotation angle) h x])
  else match AdvancedImageMatcher.stage2_scan angle h rest
               (rotation_miss (AdvancedImageMatcher.hammingDistance h x) s) with
       | (r, s', t) => (r, s', Compare (Rotation angle) h x :: t)
       end.
Proof.
  cbn [AdvancedImageMatcher.stage2_scan].
  unfold bind at 1. unfold emit at 1.
  destruct (JS.le (AdvancedImageMatcher.hammingDistance h x) (Num 8)).
  - reflexivity.
  - unfold bind at 1. unfold modify at 1.
    fold (rotation_miss (AdvancedImageMatcher.hammingDistance h x) s).
    destruct (AdvancedImageMatcher.stage2_scan angle h rest _) as [[r s'] t]. reflexivity.
Qed.

(** A scan over the stored fingerprints either misses them all or has a
    first hit. *)
Lemma first_hit {A : Type} (f : A -> bool) (l : list A) :
  (forall x, In x l -> f x = false) \/
  (exists pre x post,
     l = pre ++ x :: post /\ (forall y, In y pre -> f y = false) /\ f x = true).
Proof.
  induction l as [| a l IH].
  - left. intros x [].
  - destruct (f a) eqn:Ea.
    + right. exists [], a, l. split; [ reflexivity | split; [ intros y [] | assumption ] ].
    + destruct IH as [Hall | [pre [x [post [-> [Hpre Hx]]]]]].
      * left. intros x [<- | Hin]; [ assumption | apply Hall; assumption ].
      * right. exists (a :: pre), x, post.
        split; [ reflexivity | split; [ | assumption ] ].
        intros y [<- | Hin]; [ assumption | apply Hpre; assumption ].
Qed.

Lemma stage1_loop_misses (h : string) (l : list string)
    (s : AdvancedImageMatcher.results) :
  (forall x, In x l -> JS.le (AdvancedImageMatcher.hammingDistance h x) (Num 3) = false) ->
  AdvancedImageMatcher.stage1_loop h l s =
  (Normal None, direct_misses h l s, map (Compare Direct h) l).
Proof.
  revert s. induction l as [| x rest IH]; intros s Hmiss.
  - reflexivity.
  - rewrite stage1_loop_cons, (Hmiss x (or_introl eq_refl)).
    rewrite IH by (intros y Hy; apply Hmiss; right; assumption).
    reflexivity.
Qed.

Lemma stage1_loop_hit (h : string) (pre : list string) (x : string)
    (post : list string) (s : AdvancedImageMatcher.results) :
  (forall y, In y pre -> JS.le (AdvancedImageMatcher.hammingDistance h y) (Num 3) = false) ->
  JS.le (AdvancedImageMatcher.hammingDistance h x) (Num 3) = true ->
  AdvancedImageMatcher.stage1_loop h (pre ++ x :: post) s =
  (Normal (Some (direct_hit (AdvancedImageMatcher.hammingDistance h x)
                            (direct_misses h pre s))),
   direct_hit (AdvancedImageMatcher.hammingDistance h x) (direct_misses h pre s),
   map (Compare Direct h) (pre ++ [x])).
Proof.
  revert s. induction pre as [| y pre IH]; intros s Hmiss Hhit.
  - cbn [app]. rewrite stage1_loop_cons, Hhit. reflexivity.
  - cbn [app]. rewrite stage1_loop_cons, (Hmiss y (or_introl eq_refl)).
    rewrite IH by (try assumption; intros z Hz; apply Hmiss; right; assumption).
    reflexivity.
Qed.

Lemma stage2_scan_misses (angle : Z) (h : string) (l : list string)
    (s : AdvancedImageMatcher.results) :
  (forall x, In x l -> JS.le (AdvancedImageMatcher.hammingDistance h x) (Num 8) = false) ->
  AdvancedImageMatcher.stage2_scan angle h l s =
  (Normal None, rotation_misses h l s, map (Compare (Rotation angle) h) l).
Proof.
  revert s. induction l as [| x rest IH]; intros s Hmiss.
  - reflexivity.
  - rewrite stage2_scan_cons, (Hmiss x (or_introl eq_refl)).
    rewrite IH by (intros y Hy; apply Hmiss; right; assumption).
    reflexivity.
Qed.

Lemma stage2_scan_hit (angle : Z) (h : string) (pre : list string) (x : string)
    (post : list string) (s : AdvancedImageMatcher.results) :
  (forall y, In y pre -> JS.le (AdvancedImageMatcher.hammingDistance h y) (Num 8) = false) ->
  JS.le (AdvancedImageMatcher.hammingDistance h x) (Num 8) = true ->
  AdvancedImageMatcher.stage2_scan angle h (pre ++ x :: post) s =
  (Normal (Some (rotation_hit (AdvancedImageMatcher.hammingDistance h x)
                              (rotation_misses h pre s))),
   rotation_hit (AdvancedImageMatcher.hammingDistance h x) (rotation_misses h pre s),
   map (Compare (Rotation angle) h) (pre ++ [x])).
Proof.
  revert s. induction pre as [| y pre IH]; intros s Hmiss Hhit.
  - cbn [app]. rewrite stage2_scan_cons, Hhit. reflexivity.
  - cbn [app]. rewrite stage2_scan_cons, (Hmiss y (or_introl eq_refl)).
    rewrite IH by (try assumption; intros z Hz; apply Hmiss; right; assumption).
    reflexivity.
Qed.

Lemma direct_misses_unmatched (h : string) (l : list string)
    (s : AdvancedImageMatcher.results) :
  unmatched s -> unmatched (direct_misses h l s) /\
  AdvancedImageMatcher.stage2_rotation (direct_misses h l s) =
  AdvancedImageMatcher.stage2_rotation s.
Proof.
  revert s. induction l as [| x rest IH]; intros s Hs.
  - split; [ assumption | reflexivity ].
  - unfold direct_misses in *. cbn [fold_left].
    destruct (IH (direct_miss (AdvancedImageMatcher.hammingDistance h x) s)) as [Hu Hr].
    + destruct Hs as [Ho [H3 [H4 [H1 H2]]]].
      repeat split; assumption.
    + split; [ assumption | rewrite Hr; reflexivity ].
Qed.

Lemma rotation_misses_unmatched (h : string) (l : list string)
    (s : AdvancedImageMatcher.results) :
  unmatched s -> unmatched (rotation_misses h l s) /\
  AdvancedImageMatcher.stage1_phash (rotation_misses h l s) =
  AdvancedImageMatcher.stage1_phash s.
Proof.
  revert s. induction l as [| x rest IH]; intros s Hs.
  - split; [ assumption | reflexivity ].
  - unfold rotation_misses in *. cbn [fold_left].
    destruct (IH (rotation_miss (AdvancedImageMatcher.hammingDistance h x) s)) as [Hu Hr].
    + destruct Hs as [Ho [H3 [H4 [H1 H2]]]].
      repeat split; assumption.
    + split; [ assumption | rewrite Hr; reflexivity ].
Qed.

Lemma direct_hit_form (d : number) (s : AdvancedImageMatcher.results) :
  unmatched s -> direct_form (direct_hit d s).
Proof.
  intros [Ho [H3 [H4 [H1 H2]]]]. repeat split; assumption.
Qed.

Lemma rotation_hit_form (d : number) (s : AdvancedImageMatcher.results) :
  unmatched s -> rotation_form (rotation_hit d s).
Proof.
  intros [Ho [H3 [H4 [H1 H2]]]]. repeat split; assumption.
Qed.

Lemma stage2_scan_outcome (angle : Z) (h : string) (l : list string)
    (s : AdvancedImageMatcher.results) :
  unmatched s ->
  (AdvancedImageMatcher.stage2_scan angle h l s =
     (Normal None, rotation_misses h l s, map (Compare (Rotation angle) h) l) /\
   unmatched (rotation_misses h l s)) \/
  (exists r t,
     AdvancedImageMatcher.stage2_scan angle h l s = (Normal (Some r), r, t) /\
     rotation_form r).
Proof.
  intros Hs.
  destruct (first_hit
              (fun x => JS.le (AdvancedImageMatcher.hammingDistance h x) (Num 8)) l)
    as [Hmiss | [pre [x [post [-> [Hpre Hx]]]]]].
  - left. split; [ apply stage2_scan_misses; assumption | ].
    apply rotation_misses_unmatched. assumption.
  - right. eexists. eexists. split; [ apply stage2_scan_hit; assumption | ].
    apply rotation_hit_form. apply rotation_misses_unmatched. assumption.
Qed.

Lemma stage1_loop_outcome (h : string) (l : list string)
    (s : AdvancedImageMatcher.results) :
  unmatched s ->
  (AdvancedImageMatcher.stage1_loop h l s =
     (Normal None, direct_misses h l s, map (Compare Direct h) l) /\
   unmatched (direct_misses h l s) /\
   forall x, In x l -> JS.le (AdvancedImageMatcher.hammingDistance h x) (Num 3) = false) \/
  (exists r t,
     AdvancedImageMatcher.stage1_loop h l s = (Normal (Some r), r, t) /\
     direct_form r /\
     Forall (fun e => exists x, e = Compare Direct h x) t).
Proof.
  intros Hs.
  destruct (first_hit
              (fun x => JS.le (AdvancedImageMatcher.hammingDistance h x) (Num 3)) l)
    as [Hmiss | [pre [x [post [-> [Hpre Hx]]]]]].
  - left. split; [ apply stage1_loop_misses; assumption | ].
    split; [ apply direct_misses_unmatched; assumption | assumption ].
  - right. eexists. eexists. split; [ apply stage1_loop_hit; assumption | ].
    split.
    + apply direct_hit_form. apply direct_misses_unmatched. assumption.
    + apply Forall_forall. intros e He. apply in_map_iff in He.
      destruct He as [y [<- _]]. exists y. reflexivity.
Qed.

Section Verifier.

Context {Buffer : Type} (ext : Externals Buffer).

(** The fingerprint of the canonical image rotated by [angle], as stage 2
    computes it. *)
Definition rotated_fingerprint (normalizedBuffer : Buffer) (angle : Z) : exn + string :=
  match sharp_rotate ext angle normalizedBuffer with
  | inr rotatedBuffer =>
      match sharp_toFile ext rotatedBuffer with
      | inr rotatedFile => imageHash ext rotatedFile
      | inl e => inl e
      end
  | inl e => inl e
  end.

Lemma stage2_loop_fail_cons (nb : Buffer) (a : Z) (rest : list Z)
    (stored : list string) (s : AdvancedImageMatcher.results) (e : exn) :
  rotated_fingerprint nb a = inl e ->
  exists t,
    AdvancedImageMatcher.stage2_loop ext nb (a :: rest) stored s = (Throw e, s, t) /\
    In (Transform (Rotated a)) t.
Proof.
  unfold rotated_fingerprint. intros Hfp.
  cbn [AdvancedImageMatcher.stage2_loop].
  unfold bind at 1. unfold bind at 1. unfold emit at 1. unfold call at 1.
  destruct (sharp_rotate ext a nb) as [e0 | rb].
  - injection Hfp as <-. eexists. split; [ reflexivity | left; reflexivity ].
  - unfold ret at 1. unfold bind at 1. unfold call at 1.
    destruct (sharp_toFile ext rb) as [e0 | f].
    + injection Hfp as <-. eexists. split; [ reflexivity | left; reflexivity ].
    + unfold ret at 1. unfold bind at 1. unfold bind at 1.
      unfold emit at 1. unfold call at 1. rewrite Hfp.
      eexists. split; [ reflexivity | left; reflexivity ].
Qed.

Lemma stage2_loop_ok_cons (nb : Buffer) (a : Z) (rest : list Z)
    (stored : list string) (s : AdvancedImageMatcher.results) (rh : string) :
  rotated_fingerprint nb a = inr rh ->
  AdvancedImageMatcher.stage2_loop ext nb (a :: rest) stored s =
  match AdvancedImageMatcher.stage2_scan a rh stored s with
  | (Normal None, s', t) =>
      match AdvancedImageMatcher.stage2_loop ext nb rest stored s' with
      | (r, s'', t') =>
          (r, s'', Transform (Rotated a) :: Fingerprint (Rotated a) :: t ++ t')
      end
  | (other, s', t) => (other, s', Transform (Rotated a) :: Fingerprint (Rotated a) :: t)
  end.
Proof.
  unfold rotated_fingerprint. intros Hfp.
  cbn [AdvancedImageMatcher.stage2_loop].
  unfold bind at 1. unfold bind at 1. unfold emit at 1. unfold call at 1.
  destruct (sharp_rotate ext a nb) as [e0 | rb]; [ discriminate | ].
  unfold ret at 1. unfold bind at 1. unfold call at 1.
  destruct (sharp_toFile ext rb) as [e0 | f]; [ discriminate | ].
  unfold ret at 1. unfold bind at 1. unfold bind at 1.
  unfold emit at 1. unfold call at 1. rewrite Hfp.
  unfold ret at 1. unfold bind at 1.
  destruct (AdvancedImageMatcher.stage2_scan a rh stored s) as [[[[r |] | e |] s'] t];
    try reflexivity.
  - unfold ret at 1. cbn. rewrite app_nil_r. reflexivity.
  - destruct (AdvancedImageMatcher.stage2_loop ext nb rest stored s') as [[r' s''] t'].
    reflexivity.
Qed.

(** How stage 2 ends, and the state it leaves. *)
Fixpoint stage2_result (nb : Buffer) (angles : list Z) (stored : list string)
    (s : AdvancedImageMatcher.results)
    : completion (option AdvancedImageMatcher.results) * AdvancedImageMatcher.results :=
  match angles with
  | [] => (Normal None, s)
  | a :: rest =>
      match rotated_fingerprint nb a with
      | inl e => (Throw e, s)
      | inr rh =>
          match AdvancedImageMatcher.stage2_scan a rh stored s with
          | (Normal None, s', _) => stage2_result nb rest stored s'
          | (other, s', _) => (other, s')
          end
      end
  end.

Lemma stage2_loop_run (nb : Buffer) (angles : list Z) (stored : list string)
    (s : AdvancedImageMatcher.results) :
  exists t,
    AdvancedImageMatcher.stage2_loop ext nb angles stored s =
    (fst (stage2_result nb angles stored s), snd (stage2_result nb angles stored s), t).
Proof.
  revert s. induction angles as [| a rest IH]; intros s.
  - exists []. reflexivity.
  - cbn [stage2_result].
    destruct (rotated_fingerprint nb a) as [e | rh] eqn:Hfp.
    + destruct (@stage2_loop_fail_cons nb a rest stored s e Hfp) as [t [Hrun _]].
      exists t. exact Hrun.
    + rewrite (@stage2_loop_ok_cons nb a rest stored s rh Hfp).
      destruct (AdvancedImageMatcher.stage2_scan a rh stored s) as [[[[r |] | e |] s'] t];
        try (eexists; reflexivity).
      destruct (IH s') as [t' Hrun]. rewrite Hrun. eexists. reflexivity.
Qed.

Lemma stage2_result_outcome (nb : Buffer) (angles : list Z) (stored : list string)
    (s : AdvancedImageMatcher.results) :
  unmatched s ->
  (exists r s', stage2_result nb angles stored s = (Normal (Some r), s') /\
                rotation_form r) \/
  (exists s', stage2_result nb angles stored s = (Normal None, s') /\ unmatched s') \/
  (exists e s', stage2_result nb angles stored s = (Throw e, s') /\ unmatched s').
Proof.
  revert s. induction angles as [| a rest IH]; intros s Hs.
  - right. left. exists s. split; [ reflexivity | assumption ].
  - cbn [stage2_result].
    destruct (rotated_fingerprint nb a) as [e | rh].
    + right. right. exists e, s. split; [ reflexivity | assumption ].
    + destruct (stage2_scan_outcome a rh stored Hs) as [[-> Hu] | [r [t [-> Hr]]]].
      * apply IH. assumption.
      * left. exists r, r. split; [ reflexivity | assumption ].
Qed.

Lemma generateColorHistogram_run (nb : Buffer) (s : AdvancedImageMatcher.results) :
  exists v, AdvancedImageMatcher.generateColorHistogram ext nb s = (Normal v, s, [Histogram]).
Proof.
  unfold AdvancedImageMatcher.generateColorHistogram, try_catch, bind, emit, call.
  destruct (sharp_histogram ext nb); eexists; reflexivity.
Qed.

Lemma generateEdgeHash_run (nb : Buffer) (s : AdvancedImageMatcher.results) :
  exists v, AdvancedImageMatcher.generateEdgeHash ext nb s = (Normal v, s, [Edges]).
Proof.
  unfold AdvancedImageMatcher.generateEdgeHash, try_catch, bind, emit, call.
  destruct (sharp_edges ext nb); eexists; reflexivity.
Qed.

(** The report [verifyImageMatch] returns. *)
Definition report (img : Buffer) (stored : list string) : AdvancedImageMatcher.results :=
  match sharp_normalize ext img with
  | inl _ => AdvancedImageMatcher.initial
  | inr nb =>
      match variant_fingerprint ext nb Original with
      | inl _ => AdvancedImageMatcher.initial
      | inr inputHash =>
          match AdvancedImageMatcher.stage1_loop inputHash stored
                  AdvancedImageMatcher.initial with
          | (Normal (Some r), _, _) => r
          | (_, s1, _) =>
              match stage2_result nb AdvancedImageMatcher.rotationAngles stored s1 with
              | (Normal (Some r), _) => r
              | (_, s2) => s2
              end
          end
      end
  end.

Lemma unmatched_initial : unmatched AdvancedImageMatcher.initial.
Proof. repeat split. Qed.

Lemma verifyImageMatch_report (img : Buffer) (stored : list string) :
  exists tr,
    AdvancedImageMatcher.verifyImageMatch ext img stored = (Normal (report img stored), tr).
Proof.
  unfold AdvancedImageMatcher.verifyImageMatch, AdvancedImageMatcher.verifyImageMatch_body,
    report.
  unfold try_catch. unfold bind at 1. unfold bind at 1.
  unfold emit at 1. unfold call at 1.
  destruct (sharp_normalize ext img) as [e | nb].
  { eexists. reflexivity. }
  unfold ret at 1. unfold bind at 1. unfold call at 1. cbn [variant_fingerprint].
  destruct (sharp_toFile ext nb) as [e | file].
  { eexists. reflexivity. }
  unfold ret at 1. unfold bind at 1. unfold bind at 1.
  unfold emit at 1. unfold call at 1.
  destruct (imageHash ext file) as [e | inputHash].
  { eexists. reflexivity. }
  unfold ret at 1. unfold bind at 1.
  destruct (stage1_loop_outcome inputHash stored unmatched_initial)
    as [[-> [Hu _]] | [r [t [-> _]]]].
  - unfold bind at 1.
    destruct (stage2_loop_run nb AdvancedImageMatcher.rotationAngles stored
                (direct_misses inputHash stored AdvancedImageMatcher.initial))
      as [t2 ->].
    destruct (stage2_result_outcome nb AdvancedImageMatcher.rotationAngles stored Hu)
      as [[r [s' [-> _]]] | [[s' [-> _]] | [e [s' [-> _]]]]]; cbn [fst snd].
    + eexists. reflexivity.
    + unfold bind at 1.
      destruct (generateColorHistogram_run nb s') as [v ->].
      unfold bind at 1.
      destruct (generateEdgeHash_run nb s') as [v' ->].
      eexists. reflexivity.
    + eexists. reflexivity.
  - eexists. reflexivity.
Qed.

Lemma report_form (img : Buffer) (stored : list string) :
  direct_form (report img stored) \/
  rotation_form (report img stored) \/
  unmatched (report img stored).
Proof.
  unfold report.
  destruct (sharp_normalize ext img) as [e | nb];
    [ right; right; exact unmatched_initial | ].
  destruct (variant_fingerprint ext nb Original) as [e | inputHash];
    [ right; right; exact unmatched_initial | ].
  destruct (stage1_loop_outcome inputHash stored unmatched_initial)
    as [[-> [Hu _]] | [r [t [-> [Hr _]]]]].
  - destruct (stage2_result_outcome nb AdvancedImageMatcher.rotationAngles stored Hu)
      as [[r [s' [-> Hr]]] | [[s' [-> Hs]] | [e [s' [-> Hs]]]]].
    + right. left. assumption.
    + right. right. assumption.
    + right. right. assumption.
  - left. assumption.
Qed.

End Verifier.

(** The same libraries with other pipelines behind [generateColorHistogram]
    and [generateEdgeHash]. *)
Definition with_aux {Buffer : Type} (ext : Externals Buffer) (Sig : Type)
    (histogram edges : Buffer -> exn + Sig) : Externals Buffer := {|
  sharp_normalize := sharp_normalize ext;
  sharp_rotate := sharp_rotate ext;
  sharp_resize := sharp_resize ext;
  sharp_toFile := sharp_toFile ext;
  imageHash := imageHash ext;
  sharp_describe := sharp_describe ext;
  sha256_hex := sha256_hex ext;
  Signature := Sig;
  sharp_histogram := histogram;
  sharp_edges := edges
|}.

Lemma stage2_result_with_aux {Buffer : Type} (ext : Externals Buffer) (Sig : Type)
    (histogram edges : Buffer -> exn + Sig) (nb : Buffer) (angles : list Z)
    (stored : list string) (s : AdvancedImageMatcher.results) :
  stage2_result (with_aux ext histogram edges) nb angles stored s =
  stage2_result ext nb angles stored s.
Proof.
  revert s. induction angles as [| a rest IH]; intros s.
  - reflexivity.
  - cbn [stage2_result].
    change (rotated_fingerprint (with_aux ext histogram edges) nb a)
      with (rotated_fingerprint ext nb a).
    destruct (rotated_fingerprint ext nb a) as [e | rh]; [ reflexivity | ].
    destruct (AdvancedImageMatcher.stage2_scan a rh stored s) as [[[[r |] | e |] s'] t];
      try reflexivity; apply IH.
Qed.

Lemma report_with_aux {Buffer : Type} (ext : Externals Buffer) (Sig : Type)
    (histogram edges : Buffer -> exn + Sig) (img : Buffer) (stored : list string) :
  report (with_aux ext histogram edges) img stored = report ext img stored.
Proof.
  unfold report.
  change (sharp_normalize (with_aux ext histogram edges) img)
    with (sharp_normalize ext img).
  destruct (sharp_normalize ext img) as [e | nb]; [ reflexivity | ].
  change (variant_fingerprint (with_aux ext histogram edges) nb Original)
    with (variant_fingerprint ext nb Original).
  destruct (variant_fingerprint ext nb Original) as [e | inputHash]; [ reflexivity | ].
  destruct (AdvancedImageMatcher.stage1_loop inputHash stored _)
    as [[[[r |] | e |] s1] t]; try reflexivity;
    rewrite stage2_result_with_aux; reflexivity.
Qed.

(** ** The reports of the verifier *)

(** C10. Every call of [verifyImageMatch] returns a report [r] in which
    [overall.matched] is true exactly when [overall.method] is
    ['direct_phash'] or ['rotation_phash']; with ['direct_phash'] the
    confidence is 0.95 and [stage1_phash.matched] is true, with
    ['rotation_phash'] the confidence is 0.85 and [stage2_rotation.matched]
    is true; otherwise [overall] is [{matched: false, confidence: 0, method:
    'none'}].  [stage3_color] and [stage4_edge] are never marked matched,
    and the report is the same whatever the colour-histogram and
    edge-pattern computations yield. *)
Theorem verifyImageMatch_report_shape {Buffer : Type} (ext : Externals Buffer)
    (img : Buffer) (stored : list string) :
  exists r tr,
    AdvancedImageMatcher.verifyImageMatch ext img stored = (Normal r, tr) /\
    (Overall.matched (AdvancedImageMatcher.overall r) = true <->
     Overall.method (AdvancedImageMatcher.overall r) = "direct_phash" \/
     Overall.method (AdvancedImageMatcher.overall r) = "rotation_phash") /\
    (Overall.method (AdvancedImageMatcher.overall r) = "direct_phash" ->
     Overall.confidence (AdvancedImageMatcher.overall r) = 95 # 100 /\
     Stage.matched (AdvancedImageMatcher.stage1_phash r) = true) /\
    (Overall.method (AdvancedImageMatcher.overall r) = "rotation_phash" ->
     Overall.confidence (AdvancedImageMatcher.overall r) = 85 # 100 /\
     Stage.matched (AdvancedImageMatcher.stage2_rotation r) = true) /\
    (Overall.matched (AdvancedImageMatcher.overall r) = false ->
     AdvancedImageMatcher.overall r =
     {| Overall.matched := false; Overall.confidence := 0; Overall.method := "none" |}) /\
    Aux.matched (AdvancedImageMatcher.stage3_color r) = false /\
    Aux.matched (AdvancedImageMatcher.stage4_edge r) = false /\
    (forall (Sig : Type) (histogram edges : Buffer -> exn + Sig),
       fst (AdvancedImageMatcher.verifyImageMatch (with_aux ext histogram edges)
              img stored) = Normal r).
Proof.
  destruct (verifyImageMatch_report ext img stored) as [tr Hrun].
  exists (report ext img stored), tr. split; [ exact Hrun | ].
  assert (forall (Sig : Type) (histogram edges : Buffer -> exn + Sig),
            fst (AdvancedImageMatcher.verifyImageMatch (with_aux ext histogram edges)
                   img stored) = Normal (report ext img stored)) as Haux.
  { intros Sig histogram edges.
    destruct (verifyImageMatch_report (with_aux ext histogram edges) img stored)
      as [tr' ->].
    cbn [fst]. rewrite report_with_aux. reflexivity. }
  destruct (report_form ext img stored)
    as [[Ho [H1 [H3 H4]]] | [[Ho [H2 [H3 H4]]] | [Ho [H3 [H4 [H1 H2]]]]]];
    rewrite Ho, H3, H4; cbn.
  - repeat split; try assumption; try discriminate; auto.
  - repeat split; try assumption; try discriminate; auto.
  - repeat split; try assumption; try discriminate.
    intros [H | H]; discriminate.
Qed.

(** ** Inputs that cannot be decoded *)

(** C6 (as amended). When the input cannot be decoded,
    [generateRobustPHashFromBuffer] fails with the library's error;
    [findBestMatch] catches it and returns [null], and [verifyImageMatch]
    catches it and returns the initial report, whose [overall] is
    [{matched: false, confidence: 0, method: 'none'}]. *)
Theorem undecodable_input_is_caught {Buffer : Type} (ext : Externals Buffer)
    (img : Buffer) (e : exn) (store : list (string * string)) (threshold : Z)
    (stored : list string) :
  sharp_normalize ext img = inl e ->
  ImageProcessor.generateRobustPHashFromBuffer ext img tt = (Throw e, tt, [Canonicalize]) /\
  ImageProcessor.findBestMatch ext img store threshold tt = (Normal None, tt, [Canonicalize]) /\
  AdvancedImageMatcher.verifyImageMatch ext img stored =
    (Normal AdvancedImageMatcher.initial, [Canonicalize]) /\
  AdvancedImageMatcher.overall AdvancedImageMatcher.initial =
    {| Overall.matched := false; Overall.confidence := 0; Overall.method := "none" |}.
Proof.
  intros Hnorm.
  assert (ImageProcessor.generateRobustPHashFromBuffer ext img tt =
          (Throw e, tt, [Canonicalize])) as Hgen.
  { unfold ImageProcessor.generateRobustPHashFromBuffer, try_catch.
    unfold bind at 1. unfold bind at 1. unfold emit at 1. unfold call at 1.
    rewrite Hnorm. reflexivity. }
  split; [ exact Hgen | split; [ | split; [ | reflexivity ] ] ].
  - unfold ImageProcessor.findBestMatch, try_catch. unfold bind at 1.
    rewrite Hgen. reflexivity.
  - unfold AdvancedImageMatcher.verifyImageMatch,
      AdvancedImageMatcher.verifyImageMatch_body, try_catch.
    unfold bind at 1. unfold bind at 1. unfold emit at 1. unfold call at 1.
    rewrite Hnorm. reflexivity.
Qed.

Lemma undecodable_picture_is_caught :
  ImageProcessor.generateRobustPHashFromBuffer
    (Toy.world Toy.never Toy.always Toy.plain ImageProcessor.zeroHash) (Toy.Raw 1) tt =
    (Throw (Error "Input buffer contains unsupported image format"), tt, [Canonicalize]) /\
  ImageProcessor.findBestMatch
    (Toy.world Toy.never Toy.always Toy.plain ImageProcessor.zeroHash) (Toy.Raw 1)
    [(Toy.h1, "obj-A")] 3 tt = (Normal None, tt, [Canonicalize]) /\
  AdvancedImageMatcher.verifyImageMatch
    (Toy.world Toy.never Toy.always Toy.plain ImageProcessor.zeroHash) (Toy.Raw 1)
    [Toy.h1] = (Normal AdvancedImageMatcher.initial, [Canonicalize]) /\
  AdvancedImageMatcher.overall AdvancedImageMatcher.initial =
    {| Overall.matched := false; Overall.confidence := 0; Overall.method := "none" |}.
Proof.
  apply (undecodable_input_is_caught
           (Toy.world Toy.never Toy.always Toy.plain ImageProcessor.zeroHash)
           (Toy.Raw 1)
           (e := Error "Input buffer contains unsupported image format")).
  reflexivity.
Defined.

(** C6, counterexample.  The picture cannot be decoded, and both calls
    return normally: [findBestMatch] with [null], [verifyImageMatch] with a
    report that is not matched. *)
Lemma undecodable_input_not_surfaced :
  sharp_normalize (Toy.world Toy.never Toy.always Toy.plain ImageProcessor.zeroHash)
    (Toy.Raw 1) = inl (Error "Input buffer contains unsupported image format") /\
  fst (fst (ImageProcessor.findBestMatch
              (Toy.world Toy.never Toy.always Toy.plain ImageProcessor.zeroHash)
              (Toy.Raw 1) [(Toy.h1, "obj-A")] 3 tt)) = Normal None /\
  fst (AdvancedImageMatcher.verifyImageMatch
         (Toy.world Toy.never Toy.always Toy.plain ImageProcessor.zeroHash)
         (Toy.Raw 1) [Toy.h1]) = Normal AdvancedImageMatcher.initial.
Proof. repeat split. Qed.

(** ** Fingerprints of unequal length *)

Lemma entries_result_mismatch (threshold : Z) (p : string) (vs : list string)
    (entries : list (string * string)) (b : ImageProcessor.best) (h o : string) :
  In (h, o) entries -> String.length p <> String.length h ->
  exists e t, entries_result threshold p vs entries b = (Throw e, t).
Proof.
  revert b. induction entries as [| [eh oid] rest IH]; intros b Hin Hlen.
  - destruct Hin.
  - cbn [entries_result].
    destruct (ip_distance_cases p eh) as [[Heq ->] | [Hne ->]].
    + destruct Hin as [Hhd | Hin]; [ injection Hhd as -> ->; contradiction | ].
      destruct ((bit_distance p eh >? threshold) && (threshold <=? 3)).
      * destruct (IH (fold_left (variant_step threshold eh oid) vs
                        (primary_step threshold eh oid (bit_distance p eh) b))
                     Hin Hlen) as [e [t ->]].
        eexists. eexists. reflexivity.
      * destruct (IH (primary_step threshold eh oid (bit_distance p eh) b)
                     Hin Hlen) as [e [t ->]].
        eexists. eexists. reflexivity.
    + eexists. eexists. reflexivity.
Qed.

(** C5 (as amended). For fingerprints [a] and [b] of unequal length,
    [ImageProcessor.hammingDistance] fails with the error
    ['Hash lengths must be equal'], while
    [AdvancedImageMatcher.hammingDistance] returns [Infinity], which is
    within no threshold: stage 1 of the verifier goes on to the next stored
    fingerprint.  In [findBestMatch] a variant comparison that fails is
    skipped, and when the comparison of the primary fingerprint with a stored
    fingerprint fails the call returns [null]. *)
Theorem length_mismatch_handling {Buffer : Type} (ext : Externals Buffer)
    (a b : string) :
  String.length a <> String.length b ->
  ImageProcessor.hammingDistance a b = Throw (Error "Hash lengths must be equal") /\
  AdvancedImageMatcher.hammingDistance a b = Infinity /\
  (forall t, JS.le (AdvancedImageMatcher.hammingDistance a b) (Num t) = false) /\
  (forall rest s,
     AdvancedImageMatcher.stage1_loop a (b :: rest) s =
     match AdvancedImageMatcher.stage1_loop a rest (direct_miss Infinity s) with
     | (r, s', t) => (r, s', Compare Direct a b :: t)
     end) /\
  (forall threshold objectId rest best,
     ImageProcessor.variant_loop threshold b objectId (a :: rest) best tt =
     match ImageProcessor.variant_loop threshold b objectId rest best tt with
     | (r, s, t) => (r, s, Compare Variant a b :: t)
     end) /\
  (forall img bd tg store objectId threshold,
     ImageProcessor.generateRobustPHashFromBuffer ext img tt = (Normal bd, tt, tg) ->
     ImageProcessor.primary bd = a ->
     In (b, objectId) store ->
     exists tr,
       ImageProcessor.findBestMatch ext img store threshold tt = (Normal None, tt, tr)).
Proof.
  intros Hlen.
  pose proof (ip_distance_mismatch a b Hlen) as Hip.
  pose proof (aim_distance_mismatch a b Hlen) as Haim.
  split; [ exact Hip | split; [ exact Haim | split; [ | split; [ | split ] ] ] ].
  - intros t. rewrite Haim. reflexivity.
  - intros rest s. rewrite stage1_loop_cons, Haim. reflexivity.
  - intros threshold objectId rest best.
    rewrite variant_loop_cons. unfold variant_step. rewrite Hip. reflexivity.
  - intros img bd tg store objectId threshold Hgen Hp Hin.
    destruct (findBestMatch_run ext img store threshold tt) as [tg' [_ [Hgen' Hrun]]].
    rewrite Hgen in Hgen'. injection Hgen' as Hbd Htg. rewrite <- Hbd in Hrun.
    rewrite Hrun, Hp.
    destruct (entries_result_mismatch threshold a
                (map ImageProcessor.hash (ImageProcessor.variants bd)) store
                (None, Infinity) b objectId Hin Hlen) as [e [t ->]].
    eexists. reflexivity.
Qed.

Lemma length_mismatch_in_toy_store :
  ImageProcessor.hammingDistance Toy.near_h1 "3fa9" =
    Throw (Error "Hash lengths must be equal") /\
  AdvancedImageMatcher.hammingDistance Toy.near_h1 "3fa9" = Infinity /\
  exists tr,
    ImageProcessor.findBestMatch
      (Toy.world Toy.always Toy.always Toy.plain ImageProcessor.zeroHash)
      (Toy.Raw 1) [(Toy.h1, "obj-A"); ("3fa9", "obj-B")] 3 tt = (Normal None, tt, tr).
Proof.
  assert (String.length Toy.near_h1 <> String.length "3fa9") as Hlen
    by (vm_compute; discriminate).
  destruct (@length_mismatch_handling _
              (Toy.world Toy.always Toy.always Toy.plain ImageProcessor.zeroHash)
              Toy.near_h1 "3fa9" Hlen)
    as [Hip [Haim [_ [_ [_ Hfind]]]]].
  split; [ exact Hip | split; [ exact Haim | ] ].
  assert (exists bd tg,
            ImageProcessor.generateRobustPHashFromBuffer
              (Toy.world Toy.always Toy.always Toy.plain ImageProcessor.zeroHash)
              (Toy.Raw 1) tt = (Normal bd, tt, tg) /\
            ImageProcessor.primary bd = Toy.near_h1) as [bd [tg [Hgen Hp]]].
  { eexists. eexists. split; [ vm_compute; reflexivity | reflexivity ]. }
  apply (Hfind (Toy.Raw 1) bd tg [(Toy.h1, "obj-A"); ("3fa9", "obj-B")] "obj-B" 3 Hgen Hp).
  right. left. reflexivity.
Defined.

(** C5, counterexample.  The lengths differ and
    [AdvancedImageMatcher.hammingDistance] returns a value; the verifier
    reports an ordinary miss.  In [findBestMatch] the record [obj-A] is at
    distance 2, within the threshold, and the failure of the comparison with
    the next record turns the result into [null]. *)
Lemma length_mismatch_swallowed :
  String.length Toy.near_h1 <> String.length "3fa9" /\
  AdvancedImageMatcher.hammingDistance Toy.near_h1 "3fa9" = Infinity /\
  fst (AdvancedImageMatcher.verifyImageMatch
         (Toy.world Toy.always Toy.never Toy.plain ImageProcessor.zeroHash)
         (Toy.Raw 1) ["3fa9"]) =
    Normal (direct_miss Infinity AdvancedImageMatcher.initial) /\
  Overall.matched (AdvancedImageMatcher.overall
                     (direct_miss Infinity AdvancedImageMatcher.initial)) = false /\
  fst (fst (ImageProcessor.findBestMatch
              (Toy.world Toy.always Toy.always Toy.plain ImageProcessor.zeroHash)
              (Toy.Raw 1) [(Toy.h1, "obj-A"); ("3fa9", "obj-B")] 3 tt)) = Normal None.
Proof.
  split; [ vm_compute; discriminate | ].
  repeat split; vm_compute; reflexivity.
Qed.

(** ** The verifier on an empty store *)

Section EmptyStore.

Context {Buffer : Type} (ext : Externals Buffer).

Lemma stage2_loop_empty (nb : Buffer) (angles : list Z) (s : AdvancedImageMatcher.results) :
  (forall a, In a angles -> exists rh, rotated_fingerprint ext nb a = inr rh) ->
  AdvancedImageMatcher.stage2_loop ext nb angles [] s =
  (Normal None, s,
   flat_map (fun a => [Transform (Rotated a); Fingerprint (Rotated a)]) angles).
Proof.
  induction angles as [| a rest IH]; intros Hok.
  - reflexivity.
  - destruct (Hok a (or_introl eq_refl)) as [rh Hrh].
    rewrite (@stage2_loop_ok_cons _ ext nb a rest [] s rh Hrh).
    cbn [AdvancedImageMatcher.stage2_scan]. unfold ret at 1.
    rewrite IH by (intros a' Ha'; apply Hok; right; assumption).
    reflexivity.
Qed.

Lemma verifyImageMatch_empty_trace (img nb file : Buffer) (h : string) :
  sharp_normalize ext img = inr nb ->
  sharp_toFile ext nb = inr file ->
  imageHash ext file = inr h ->
  (forall a, In a AdvancedImageMatcher.rotationAngles ->
     exists rh, rotated_fingerprint ext nb a = inr rh) ->
  AdvancedImageMatcher.verifyImageMatch ext img [] =
  (Normal AdvancedImageMatcher.initial,
   [Canonicalize; Fingerprint Original] ++
   flat_map (fun a => [Transform (Rotated a); Fingerprint (Rotated a)])
            AdvancedImageMatcher.rotationAngles ++
   [Histogram; Edges]).
Proof.
  intros Hnorm Hfile Hhash Hrot.
  unfold AdvancedImageMatcher.verifyImageMatch, AdvancedImageMatcher.verifyImageMatch_body.
  unfold try_catch. unfold bind at 1. unfold bind at 1.
  unfold emit at 1. unfold call at 1. rewrite Hnorm.
  unfold ret at 1. unfold bind at 1. unfold call at 1. rewrite Hfile.
  unfold ret at 1. unfold bind at 1. unfold bind at 1.
  unfold emit at 1. unfold call at 1. rewrite Hhash.
  unfold ret at 1. unfold bind at 1. cbn [AdvancedImageMatcher.stage1_loop].
  unfold ret at 1. unfold bind at 1.
  rewrite (@stage2_loop_empty nb AdvancedImageMatcher.rotationAngles
             AdvancedImageMatcher.initial Hrot).
  unfold bind at 1.
  destruct (generateColorHistogram_run ext nb AdvancedImageMatcher.initial) as [v ->].
  unfold bind at 1.
  destruct (generateEdgeHash_run ext nb AdvancedImageMatcher.initial) as [v' ->].
  unfold get. cbn [app]. rewrite ?app_nil_r. reflexivity.
Qed.

End EmptyStore.

(** C9 (as amended). Against an empty store [verifyImageMatch] always
    reports [overall = {matched: false, confidence: 0, method: 'none'}].  For
    a decodable query whose rotations can be computed it does so after
    computing the query's own fingerprint, the rotated fingerprint of each
    of the eleven probe angles, the colour histogram and the edge hash; the
    two comparison loops are empty.  It is the [/api/verify] route that
    answers at once when the database is empty: it returns
    [verified: false] without calling the verifier, so that nothing at all
    is computed. *)
Theorem verifyImageMatch_empty_store {Buffer : Type} (ext : Externals Buffer)
    (img : Buffer) :
  (exists r tr,
     AdvancedImageMatcher.verifyImageMatch ext img [] = (Normal r, tr) /\
     AdvancedImageMatcher.overall r =
     {| Overall.matched := false; Overall.confidence := 0; Overall.method := "none" |}) /\
  (forall nb file h,
     sharp_normalize ext img = inr nb ->
     sharp_toFile ext nb = inr file ->
     imageHash ext file = inr h ->
     (forall a, In a AdvancedImageMatcher.rotationAngles ->
        exists rh, rotated_fingerprint ext nb a = inr rh) ->
     AdvancedImageMatcher.verifyImageMatch ext img [] =
     (Normal AdvancedImageMatcher.initial,
      [Canonicalize; Fingerprint Original] ++
      flat_map (fun a => [Transform (Rotated a); Fingerprint (Rotated a)])
               AdvancedImageMatcher.rotationAngles ++
      [Histogram; Edges])) /\
  Api.verify ext (Some img) [] =
  (Api.NotVerified "No objects in database to compare against" None, []).
Proof.
  split; [ | split ].
  - destruct (verifyImageMatch_report ext img []) as [tr Hrun].
    exists (report ext img []), tr. split; [ exact Hrun | ].
    destruct (report_form ext img []) as [Hd | [Hr | Hu]].
    + exfalso. unfold report in Hd.
      destruct (sharp_normalize ext img) as [e | nb];
        [ destruct Hd as [Hd _]; discriminate | ].
      destruct (variant_fingerprint ext nb Original) as [e | inputHash];
        [ destruct Hd as [Hd _]; discriminate | ].
      cbn [AdvancedImageMatcher.stage1_loop] in Hd. unfold ret at 1 in Hd.
      destruct (stage2_result_outcome ext nb AdvancedImageMatcher.rotationAngles []
                  unmatched_initial)
        as [[r [s' [Hres Hr]]] | [[s' [Hres Hs]] | [e [s' [Hres Hs]]]]];
        rewrite Hres in Hd.
      * destruct Hd as [Hd _]. destruct Hr as [Hr _]. rewrite Hr in Hd. discriminate.
      * destruct Hd as [Hd _]. destruct Hs as [Hs _]. rewrite Hs in Hd. discriminate.
      * destruct Hd as [Hd _]. destruct Hs as [Hs _]. rewrite Hs in Hd. discriminate.
    + exfalso. unfold report in Hr.
      destruct (sharp_normalize ext img) as [e | nb];
        [ destruct Hr as [Hr _]; discriminate | ].
      destruct (variant_fingerprint ext nb Original) as [e | inputHash];
        [ destruct Hr as [Hr _]; discriminate | ].
      cbn [AdvancedImageMatcher.stage1_loop] in Hr. unfold ret at 1 in Hr.
      assert (forall angles s,
                (exists e, stage2_result ext nb angles [] s = (Throw e, s)) \/
                stage2_result ext nb angles [] s = (Normal None, s)) as Hempty.
      { induction angles as [| a rest IHa]; intros s.
        - right. reflexivity.
        - cbn [stage2_result AdvancedImageMatcher.stage2_scan].
          destruct (rotated_fingerprint ext nb a) as [e | rh].
          + left. exists e. reflexivity.
          + unfold ret at 1. apply IHa. }
      destruct (Hempty AdvancedImageMatcher.rotationAngles AdvancedImageMatcher.initial)
        as [[e Hres] | Hres]; rewrite Hres in Hr;
        destruct Hr as [Hr _]; discriminate.
    + destruct Hu as [Ho _]. exact Ho.
  - intros nb file h. apply verifyImageMatch_empty_trace.
  - reflexivity.
Qed.

(** C9, counterexample.  The picture is decodable and the store is empty;
    the verifier computes the fingerprint of the picture turned by 5 degrees
    (and by every other probe angle) before it reports. *)
Lemma verifyImageMatch_empty_store_rotates :
  sharp_normalize (Toy.world Toy.always Toy.always Toy.plain ImageProcessor.zeroHash)
    (Toy.Raw 1) = inr (Toy.Normalized 1) /\
  In (Fingerprint (Rotated 5))
     (snd (AdvancedImageMatcher.verifyImageMatch
             (Toy.world Toy.always Toy.always Toy.plain ImageProcessor.zeroHash)
             (Toy.Raw 1) [])) /\
  List.length
    (filter (fun e => match e with Fingerprint (Rotated _) => true | _ => false end)
       (snd (AdvancedImageMatcher.verifyImageMatch
               (Toy.world Toy.always Toy.always Toy.plain ImageProcessor.zeroHash)
               (Toy.Raw 1) []))) = 11%nat.
Proof.
  split; [ reflexivity | split ].
  - vm_compute. tauto.
  - vm_compute. reflexivity.
Qed.

(** ** The stages of the verifier, in order *)

Section Stages.

Context {Buffer : Type} (ext : Externals Buffer).

(** The steps of stage 2 for an angle at which no stored fingerprint is hit. *)
Definition rotation_events (nb : Buffer) (stored : list string) (a : Z) : list event :=
  match rotated_fingerprint ext nb a with
  | inr rh =>
      Transform (Rotated a) :: Fingerprint (Rotated a) ::
      map (Compare (Rotation a) rh) stored
  | inl _ => []
  end.

(** The state after the angles at which no stored fingerprint is hit. *)
Definition angles_missed (nb : Buffer) (stored : list string) (angles : list Z)
    (s : AdvancedImageMatcher.results) : AdvancedImageMatcher.results :=
  fold_left (fun s a =>
               match rotated_fingerprint ext nb a with
               | inr rh => rotation_misses rh stored s
               | inl _ => s
               end) angles s.

Lemma angles_missed_unmatched (nb : Buffer) (stored : list string) (angles : list Z)
    (s : AdvancedImageMatcher.results) :
  unmatched s -> unmatched (angles_missed nb stored angles s).
Proof.
  revert s. induction angles as [| a rest IH]; intros s Hs.
  - assumption.
  - unfold angles_missed in *. cbn [fold_left]. apply IH.
    destruct (rotated_fingerprint ext nb a); [ assumption | ].
    apply rotation_misses_unmatched. assumption.
Qed.

Lemma stage2_loop_skip (nb : Buffer) (stored : list string) (before rest : list Z)
    (s : AdvancedImageMatcher.results) :
  (forall a, In a before ->
     exists rh, rotated_fingerprint ext nb a = inr rh /\
       forall y, In y stored ->
         JS.le (AdvancedImageMatcher.hammingDistance rh y) (Num 8) = false) ->
  AdvancedImageMatcher.stage2_loop ext nb (before ++ rest) stored s =
  match AdvancedImageMatcher.stage2_loop ext nb rest stored
          (angles_missed nb stored before s) with
  | (r, s', t) => (r, s', flat_map (rotation_events nb stored) before ++ t)
  end.
Proof.
  revert s. induction before as [| a before IH]; intros s Hmiss.
  - cbn [app flat_map angles_missed fold_left].
    destruct (AdvancedImageMatcher.stage2_loop ext nb rest stored s) as [[r s'] t].
    reflexivity.
  - destruct (Hmiss a (or_introl eq_refl)) as [rh [Hrh Hall]].
    cbn [app]. rewrite (@stage2_loop_ok_cons _ ext nb a (before ++ rest) stored s rh Hrh).
    rewrite stage2_scan_misses by assumption.
    rewrite IH by (intros a' Ha'; apply Hmiss; right; assumption).
    unfold angles_missed. cbn [fold_left flat_map]. unfold rotation_events at 2.
    rewrite Hrh.
    destruct (AdvancedImageMatcher.stage2_loop ext nb rest stored _) as [[r s'] t].
    cbn [app]. rewrite app_assoc. reflexivity.
Qed.

Lemma verifyImageMatch_direct (img nb file : Buffer) (inputHash : string)
    (stored : list string) (r s1 : AdvancedImageMatcher.results) (t1 : list event) :
  sharp_normalize ext img = inr nb ->
  sharp_toFile ext nb = inr file ->
  imageHash ext file = inr inputHash ->
  AdvancedImageMatcher.stage1_loop inputHash stored AdvancedImageMatcher.initial =
    (Normal (Some r), s1, t1) ->
  AdvancedImageMatcher.verifyImageMatch ext img stored =
  (Normal r, [Canonicalize; Fingerprint Original] ++ t1).
Proof.
  intros Hnorm Hfile Hhash H1.
  unfold AdvancedImageMatcher.verifyImageMatch, AdvancedImageMatcher.verifyImageMatch_body.
  unfold try_catch. unfold bind at 1. unfold bind at 1.
  unfold emit at 1. unfold call at 1. rewrite Hnorm.
  unfold ret at 1. unfold bind at 1. unfold call at 1. rewrite Hfile.
  unfold ret at 1. unfold bind at 1. unfold bind at 1.
  unfold emit at 1. unfold call at 1. rewrite Hhash.
  unfold ret at 1. unfold bind at 1. rewrite H1.
  unfold ret at 1. cbn [app]. rewrite ?app_nil_r. reflexivity.
Qed.

Lemma verifyImageMatch_rotation (img nb file : Buffer) (inputHash : string)
    (stored : list string) (r s1 s2 : AdvancedImageMatcher.results)
    (t1 t2 : list event) :
  sharp_normalize ext img = inr nb ->
  sharp_toFile ext nb = inr file ->
  imageHash ext file = inr inputHash ->
  AdvancedImageMatcher.stage1_loop inputHash stored AdvancedImageMatcher.initial =
    (Normal None, s1, t1) ->
  AdvancedImageMatcher.stage2_loop ext nb AdvancedImageMatcher.rotationAngles stored s1 =
    (Normal (Some r), s2, t2) ->
  AdvancedImageMatcher.verifyImageMatch ext img stored =
  (Normal r, [Canonicalize; Fingerprint Original] ++ t1 ++ t2).
Proof.
  intros Hnorm Hfile Hhash H1 H2.
  unfold AdvancedImageMatcher.verifyImageMatch, AdvancedImageMatcher.verifyImageMatch_body.
  unfold try_catch. unfold bind at 1. unfold bind at 1.
  unfold emit at 1. unfold call at 1. rewrite Hnorm.
  unfold ret at 1. unfold bind at 1. unfold call at 1. rewrite Hfile.
  unfold ret at 1. unfold bind at 1. unfold bind at 1.
  unfold emit at 1. unfold call at 1. rewrite Hhash.
  unfold ret at 1. unfold bind at 1. rewrite H1.
  unfold bind at 1. rewrite H2.
  unfold ret at 1. cbn [app]. rewrite ?app_nil_r. reflexivity.
Qed.

End Stages.

(** C2. Let the query be decoded and its primary fingerprint be
    [inputHash].  (1) Stage 1 compares [inputHash] with the stored
    fingerprints in store order; at the first one at distance at most 3 the
    call returns a report with [overall = {matched: true, confidence: 0.95,
    method: 'direct_phash'}] and [stage1_phash = {matched: true, distance,
    confidence: 0.95}], having made only the comparisons up to that record
    and no step of stage 2.  (2) When stage 1 hits nothing, stage 2 takes the
    angles of [rotationAngles] in order, computes the rotated fingerprint of
    each and compares it with all stored fingerprints in store order; at the
    first angle and record at distance at most 8 the call returns a report
    with [overall = {matched: true, confidence: 0.85, method:
    'rotation_phash'}] and [stage2_rotation = {matched: true, distance,
    confidence: 0.85}].  (3) The angles are 5, 10, 15, 30, 45, 90, 180, 270,
    345, 350, 355.  (4) A rotation is computed only if stage 1 hit nothing. *)
Theorem verifyImageMatch_stages_in_order {Buffer : Type} (ext : Externals Buffer)
    (img nb file : Buffer) (inputHash : string) (stored : list string) :
  sharp_normalize ext img = inr nb ->
  sharp_toFile ext nb = inr file ->
  imageHash ext file = inr inputHash ->
  (forall pre x post,
     stored = pre ++ x :: post ->
     (forall y, In y pre ->
        JS.le (AdvancedImageMatcher.hammingDistance inputHash y) (Num 3) = false) ->
     JS.le (AdvancedImageMatcher.hammingDistance inputHash x) (Num 3) = true ->
     exists r,
       AdvancedImageMatcher.verifyImageMatch ext img stored =
       (Normal r,
        [Canonicalize; Fingerprint Original] ++
        map (Compare Direct inputHash) (pre ++ [x])) /\
       AdvancedImageMatcher.overall r =
       {| Overall.matched := true; Overall.confidence := 95 # 100;
          Overall.method := "direct_phash" |} /\
       AdvancedImageMatcher.stage1_phash r =
       {| Stage.matched := true;
          Stage.distance := AdvancedImageMatcher.hammingDistance inputHash x;
          Stage.confidence := 95 # 100 |} /\
       AdvancedImageMatcher.stage2_rotation r =
       AdvancedImageMatcher.stage2_rotation AdvancedImageMatcher.initial) /\
  ((forall y, In y stored ->
      JS.le (AdvancedImageMatcher.hammingDistance inputHash y) (Num 3) = false) ->
   forall before a after rh pre x post,
     AdvancedImageMatcher.rotationAngles = before ++ a :: after ->
     (forall a', In a' before ->
        exists rh', rotated_fingerprint ext nb a' = inr rh' /\
          forall y, In y stored ->
            JS.le (AdvancedImageMatcher.hammingDistance rh' y) (Num 8) = false) ->
     rotated_fingerprint ext nb a = inr rh ->
     stored = pre ++ x :: post ->
     (forall y, In y pre ->
        JS.le (AdvancedImageMatcher.hammingDistance rh y) (Num 8) = false) ->
     JS.le (AdvancedImageMatcher.hammingDistance rh x) (Num 8) = true ->
     exists r,
       AdvancedImageMatcher.verifyImageMatch ext img stored =
       (Normal r,
        [Canonicalize; Fingerprint Original] ++
        map (Compare Direct inputHash) stored ++
        flat_map (rotation_events ext nb stored) before ++
        [Transform (Rotated a); Fingerprint (Rotated a)] ++
        map (Compare (Rotation a) rh) (pre ++ [x])) /\
       AdvancedImageMatcher.overall r =
       {| Overall.matched := true; Overall.confidence := 85 # 100;
          Overall.method := "rotation_phash" |} /\
       AdvancedImageMatcher.stage2_rotation r =
       {| Stage.matched := true;
          Stage.distance := AdvancedImageMatcher.hammingDistance rh x;
          Stage.confidence := 85 # 100 |} /\
       Stage.matched (AdvancedImageMatcher.stage1_phash r) = false) /\
  AdvancedImageMatcher.rotationAngles = [5; 10; 15; 30; 45; 90; 180; 270; 345; 350; 355] /\
  (forall a,
     In (Transform (Rotated a))
        (snd (AdvancedImageMatcher.verifyImageMatch ext img stored)) ->
     forall y, In y stored ->
       JS.le (AdvancedImageMatcher.hammingDistance inputHash y) (Num 3) = false).
Proof.
  intros Hnorm Hfile Hhash.
  assert (forall pre x post,
     stored = pre ++ x :: post ->
     (forall y, In y pre ->
        JS.le (AdvancedImageMatcher.hammingDistance inputHash y) (Num 3) = false) ->
     JS.le (AdvancedImageMatcher.hammingDistance inputHash x) (Num 3) = true ->
     AdvancedImageMatcher.verifyImageMatch ext img stored =
       (Normal (direct_hit (AdvancedImageMatcher.hammingDistance inputHash x)
                  (direct_misses inputHash pre AdvancedImageMatcher.initial)),
        [Canonicalize; Fingerprint Original] ++
        map (Compare Direct inputHash) (pre ++ [x]))) as Hdirect.
  { intros pre x post -> Hpre Hx.
    apply (@verifyImageMatch_direct _ ext img nb file inputHash (pre ++ x :: post)
             _ _ _ Hnorm Hfile Hhash
             (@stage1_loop_hit inputHash pre x post AdvancedImageMatcher.initial Hpre Hx)). }
  split; [ | split; [ | split; [ reflexivity | ] ] ].
  - intros pre x post Hst Hpre Hx.
    eexists. split; [ apply (Hdirect pre x post Hst Hpre Hx) | ].
    split; [ reflexivity | split; [ reflexivity | ] ].
    destruct (@direct_misses_unmatched inputHash pre _ unmatched_initial) as [_ H2].
    exact H2.
  - intros Hmiss before a after rh pre x post Hangles Hbefore Hrh Hst Hpre Hx.
    pose proof (@stage1_loop_misses inputHash stored AdvancedImageMatcher.initial Hmiss)
      as H1.
    destruct (@direct_misses_unmatched inputHash stored _ unmatched_initial) as [Hu1 _].
    pose proof (@angles_missed_unmatched _ ext nb stored before _ Hu1) as Hu2.
    destruct (@rotation_misses_unmatched rh pre _ Hu2) as [Hu3 Hs1].
    assert (AdvancedImageMatcher.stage2_loop ext nb
              AdvancedImageMatcher.rotationAngles stored
              (direct_misses inputHash stored AdvancedImageMatcher.initial) =
            (Normal (Some
               (rotation_hit (AdvancedImageMatcher.hammingDistance rh x)
                  (rotation_misses rh pre
                     (angles_missed ext nb stored before
                        (direct_misses inputHash stored AdvancedImageMatcher.initial))))),
             rotation_hit (AdvancedImageMatcher.hammingDistance rh x)
               (rotation_misses rh pre
                  (angles_missed ext nb stored before
                     (direct_misses inputHash stored AdvancedImageMatcher.initial))),
             flat_map (rotation_events ext nb stored) before ++
             [Transform (Rotated a); Fingerprint (Rotated a)] ++
             map (Compare (Rotation a) rh) (pre ++ [x]))) as H2.
    { rewrite Hangles. rewrite stage2_loop_skip by assumption.
      rewrite (@stage2_loop_ok_cons _ ext nb a after stored _ rh Hrh).
      rewrite Hst at 1. rewrite stage2_scan_hit by assumption. reflexivity. }
    eexists. split.
    + apply (@verifyImageMatch_rotation _ ext img nb file inputHash stored
               _ _ _ _ _ Hnorm Hfile Hhash H1 H2).
    + split; [ reflexivity | split; [ reflexivity | ] ].
      destruct Hu3 as [_ [_ [_ [Hm _]]]]. exact Hm.
  - intros a Hin.
    destruct (first_hit
                (fun y => JS.le (AdvancedImageMatcher.hammingDistance inputHash y) (Num 3))
                stored) as [Hmiss | [pre [x [post [Hst [Hpre Hx]]]]]];
      [ exact Hmiss | exfalso ].
    rewrite (Hdirect pre x post Hst Hpre Hx) in Hin. cbn [snd app] in Hin.
    destruct Hin as [Hin | [Hin | Hin]]; try discriminate.
    apply in_map_iff in Hin. destruct Hin as [y [Hy _]]. discriminate.
Qed.

(** The direct stage on a store that holds a fingerprint two bits away from
    the query's, and the rotation stage on a store that holds the
    fingerprint of the query turned by 90 degrees. *)
Lemma verifyImageMatch_toy_stages :
  (exists r,
     AdvancedImageMatcher.verifyImageMatch
       (Toy.world Toy.always Toy.always Toy.plain ImageProcessor.zeroHash)
       (Toy.Raw 1) [Toy.ones; Toy.h1] =
     (Normal r,
      [Canonicalize; Fingerprint Original;
       Compare Direct Toy.near_h1 Toy.ones; Compare Direct Toy.near_h1 Toy.h1]) /\
     AdvancedImageMatcher.overall r =
     {| Overall.matched := true; Overall.confidence := 95 # 100;
        Overall.method := "direct_phash" |}) /\
  (exists r tr,
     AdvancedImageMatcher.verifyImageMatch
       (Toy.world Toy.always Toy.always Toy.only_turned90 ImageProcessor.zeroHash)
       (Toy.Raw 1) [Toy.h1] = (Normal r, tr) /\
     AdvancedImageMatcher.overall r =
     {| Overall.matched := true; Overall.confidence := 85 # 100;
        Overall.method := "rotation_phash" |} /\
     AdvancedImageMatcher.stage2_rotation r =
     {| Stage.matched := true; Stage.distance := Num 0; Stage.confidence := 85 # 100 |}).
Proof.
  split.
  - destruct (@verifyImageMatch_stages_in_order _
                (Toy.world Toy.always Toy.always Toy.plain ImageProcessor.zeroHash)
                (Toy.Raw 1) (Toy.Normalized 1) (Toy.Normalized 1) Toy.near_h1
                [Toy.ones; Toy.h1] eq_refl eq_refl eq_refl) as [Hdirect _].
    destruct (Hdirect [Toy.ones] Toy.h1 [] eq_refl) as [r [Hrun [Ho _]]].
    + intros y [<- | []]. vm_compute. reflexivity.
    + vm_compute. reflexivity.
    + exists r. split; [ exact Hrun | exact Ho ].
  - destruct (@verifyImageMatch_stages_in_order _
                (Toy.world Toy.always Toy.always Toy.only_turned90 ImageProcessor.zeroHash)
                (Toy.Raw 1) (Toy.Normalized 1) (Toy.Normalized 1) Toy.ones
                [Toy.h1] eq_refl eq_refl eq_refl) as [_ [Hrot _]].
    destruct (Hrot (fun y Hy => match Hy with
                                | or_introl E =>
                                    eq_ind Toy.h1
                                      (fun z => JS.le (AdvancedImageMatcher.hammingDistance
                                                         Toy.ones z) (Num 3) = false)
                                      eq_refl y E
                                | or_intror F => match F with end
                                end)
                   [5; 10; 15; 30; 45] 90 [180; 270; 345; 350; 355] Toy.h1
                   [] Toy.h1 [] eq_refl) as [r [Hrun [Ho [Hs _]]]].
    + intros a' Ha'. exists Toy.ones. split.
      * simpl in Ha'.
        destruct Ha' as [<- | [<- | [<- | [<- | [<- | []]]]]]; reflexivity.
      * intros y [<- | []]. vm_compute. reflexivity.
    + reflexivity.
    + reflexivity.
    + intros y [].
    + vm_compute. reflexivity.
    + exists r. eexists. split; [ exact Hrun | ]. split; [ exact Ho | ].
      rewrite Hs. f_equal.
Defined.

(** * Further properties of the code *)

Unset Implicit Arguments.

(** ** Every match [findBestMatch] returns is a real one *)

(** The best match so far is a record of [store], within the threshold, at
    the distance of the primary fingerprint or of a variant. *)
Definition sound (threshold : Z) (p : string) (vs : list string)
    (store : list (string * string)) (b : ImageProcessor.best) : Prop :=
  coherent b /\
  match fst b with
  | None => True
  | Some m =>
      In (ImageProcessor.matchedHash m, ImageProcessor.objectId m) store /\
      0 <= ImageProcessor.distance m <= threshold /\
      exists q, (q = p \/ In q vs) /\
                ImageProcessor.hammingDistance q (ImageProcessor.matchedHash m) =
                Normal (ImageProcessor.distance m)
  end.

Lemma ip_distance_nonneg (a b : string) (d : Z) :
  ImageProcessor.hammingDistance a b = Normal d -> 0 <= d.
Proof.
  destruct (ip_distance_cases a b) as [[_ ->] | [_ ->]]; [ | discriminate ].
  intros H. injection H as <-. apply bit_distance_bounds.
Qed.

Lemma primary_step_sound (threshold : Z) (p : string) (vs : list string)
    (store : list (string * string)) (h o : string) (d : Z) (b : ImageProcessor.best) :
  ImageProcessor.hammingDistance p h = Normal d ->
  In (h, o) store ->
  sound threshold p vs store b ->
  sound threshold p vs store (primary_step threshold h o d b).
Proof.
  intros Hd Hin Hb. unfold primary_step.
  destruct ((d <=? threshold) && JS.lt (Num d) (snd b)) eqn:Hc; [ | assumption ].
  apply andb_true_iff in Hc. destruct Hc as [Hle _]. apply Z.leb_le in Hle.
  split; [ reflexivity | ]. cbn.
  split; [ assumption | split ].
  - split; [ apply (ip_distance_nonneg _ _ _ Hd) | assumption ].
  - exists p. split; [ left; reflexivity | assumption ].
Qed.

Lemma variant_fold_sound (threshold : Z) (p : string) (vs : list string)
    (store : list (string * string)) (h o : string) (ws : list string)
    (b : ImageProcessor.best) :
  In (h, o) store ->
  (forall w, In w ws -> In w vs) ->
  sound threshold p vs store b ->
  sound threshold p vs store (fold_left (variant_step threshold h o) ws b).
Proof.
  intros Hin. revert b. induction ws as [| w ws IH]; intros b Hws Hb.
  - assumption.
  - cbn [fold_left]. apply IH; [ intros w' Hw'; apply Hws; right; assumption | ].
    unfold variant_step.
    destruct (ImageProcessor.hammingDistance w h) as [d | e |] eqn:Hd;
      try assumption.
    destruct (JS.lt (Num d) (snd b) && (d <=? threshold)) eqn:Hc; [ | assumption ].
    apply andb_true_iff in Hc. destruct Hc as [_ Hle]. apply Z.leb_le in Hle.
    split; [ reflexivity | ]. cbn.
    split; [ assumption | split ].
    + split; [ apply (ip_distance_nonneg _ _ _ Hd) | assumption ].
    + exists w. split; [ right; apply Hws; left; reflexivity | assumption ].
Qed.

Lemma entries_result_sound (threshold : Z) (p : string) (vs : list string)
    (store entries : list (string * string)) (b b' : ImageProcessor.best)
    (t : list event) :
  (forall e, In e entries -> In e store) ->
  sound threshold p vs store b ->
  entries_result threshold p vs entries b = (Normal b', t) ->
  sound threshold p vs store b'.
Proof.
  revert b t. induction entries as [| [h o] rest IH]; intros b t Hsub Hb Hrun.
  - cbn in Hrun. injection Hrun as <- _. assumption.
  - cbn [entries_result] in Hrun.
    assert (In (h, o) store) as Hin by (apply Hsub; left; reflexivity).
    assert (forall e, In e rest -> In e store) as Hsub'
      by (intros e He; apply Hsub; right; assumption).
    destruct (ImageProcessor.hammingDistance p h) as [d | e |] eqn:Hd;
      try discriminate.
    pose proof (primary_step_sound threshold p vs store h o d b Hd Hin Hb) as H1.
    destruct ((d >? threshold) && (threshold <=? 3)).
    + pose proof (variant_fold_sound threshold p vs store h o vs _ Hin
                    (fun w Hw => Hw) H1) as H2.
      destruct (entries_result threshold p vs rest _) as [r t'] eqn:Hrest.
      injection Hrun as -> _. exact (IH _ _ Hsub' H2 Hrest).
    + destruct (entries_result threshold p vs rest _) as [r t'] eqn:Hrest.
      injection Hrun as -> _. exact (IH _ _ Hsub' H1 Hrest).
Qed.

(** X1. Whatever the store and the threshold, a match returned by
    [findBestMatch] is an entry of the store, its distance is between 0 and
    the threshold, and that distance is the Hamming distance of the stored
    fingerprint from the primary fingerprint or from one of the variant
    fingerprints of the query's bundle. *)
Theorem findBestMatch_sound {Buffer : Type} (ext : Externals Buffer) (img : Buffer)
    (store : list (string * string)) (threshold : Z) (m : ImageProcessor.bestMatch) :
  fst (fst (ImageProcessor.findBestMatch ext img store threshold tt)) = Normal (Some m) ->
  In (ImageProcessor.matchedHash m, ImageProcessor.objectId m) store /\
  0 <= ImageProcessor.distance m <= threshold /\
  exists bd q,
    fst (fst (ImageProcessor.generateRobustPHashFromBuffer ext img tt)) = Normal bd /\
    (q = ImageProcessor.primary bd \/
     In q (map ImageProcessor.hash (ImageProcessor.variants bd))) /\
    ImageProcessor.hammingDistance q (ImageProcessor.matchedHash m) =
    Normal (ImageProcessor.distance m).
Proof.
  destruct (findBestMatch_run ext img store threshold tt) as [tg [_ [Hgen Hrun]]].
  rewrite Hrun, Hgen. cbn [fst]. clear Hrun Hgen.
  destruct (bundle_result ext img) as [bd | e |]; try discriminate.
  destruct (entries_result threshold (ImageProcessor.primary bd)
              (map ImageProcessor.hash (ImageProcessor.variants bd)) store
              (None, Infinity)) as [r t] eqn:Hres.
  destruct r as [b | e |]; cbn [fst]; try discriminate.
  intros Hm. injection Hm as Hm.
  assert (sound threshold (ImageProcessor.primary bd)
            (map ImageProcessor.hash (ImageProcessor.variants bd)) store
            (None, Infinity)) as H0 by (split; [ reflexivity | exact I ]).
  pose proof (entries_result_sound _ _ _ store store _ _ _ (fun e He => He) H0 Hres)
    as [_ Hs].
  rewrite Hm in Hs. destruct Hs as [Hin [Hd [q [Hq Hdist]]]].
  split; [ assumption | split; [ assumption | ] ].
  exists bd, q. split; [ reflexivity | split; assumption ].
Qed.

Lemma findBestMatch_sound_turned :
  In (Toy.h1, "obj-A") [(Toy.h1, "obj-A")] /\ 0 <= 0 <= 1.
Proof.
  destruct (findBestMatch_sound
              (Toy.world Toy.always Toy.always Toy.turned90 ImageProcessor.zeroHash)
              (Toy.Raw 1) [(Toy.h1, "obj-A")] 1
              {| ImageProcessor.objectId := "obj-A"; ImageProcessor.distance := 0;
                 ImageProcessor.matchedHash := Toy.h1 |})
    as [Hin [Hd _]].
  - vm_compute. reflexivity.
  - split; assumption.
Defined.

(** ** An admissible record is never missed *)

(** [bestDistance] is at most [d]. *)
Definition below (d : Z) (b : ImageProcessor.best) : Prop :=
  JS.le (snd b) (Num d) = true.

Lemma primary_step_below (threshold : Z) (h o : string) (d d' : Z)
    (b : ImageProcessor.best) :
  below d b -> below d (primary_step threshold h o d' b).
Proof.
  unfold below, primary_step. intros Hb.
  destruct ((d' <=? threshold) && JS.lt (Num d') (snd b)) eqn:Hc; [ | assumption ].
  apply andb_true_iff in Hc. destruct Hc as [_ Hlt].
  destruct (snd b) as [x | |]; try discriminate.
  cbn in *. apply Z.ltb_lt in Hlt. apply Z.leb_le in Hb. apply Z.leb_le. lia.
Qed.

Lemma primary_step_reaches (threshold : Z) (h o : string) (d : Z)
    (b : ImageProcessor.best) :
  coherent b -> d <= threshold -> below d (primary_step threshold h o d b).
Proof.
  unfold below, primary_step, coherent. intros Hco Hle.
  apply Z.leb_le in Hle. rewrite Hle. cbn [andb].
  destruct (JS.lt (Num d) (snd b)) eqn:Hlt.
  - cbn. apply Z.leb_refl.
  - destruct (snd b) as [x | |] eqn:Hs.
    + cbn in *. apply Z.ltb_ge in Hlt. apply Z.leb_le. assumption.
    + discriminate.
    + destruct (fst b); discriminate.
Qed.

Lemma variant_fold_below (threshold : Z) (h o : string) (d : Z) (ws : list string)
    (b : ImageProcessor.best) :
  below d b -> below d (fold_left (variant_step threshold h o) ws b).
Proof.
  revert b. induction ws as [| w ws IH]; intros b Hb.
  - assumption.
  - cbn [fold_left]. apply IH. unfold variant_step.
    destruct (ImageProcessor.hammingDistance w h) as [d' | e |]; try assumption.
    destruct (JS.lt (Num d') (snd b) && (d' <=? threshold)) eqn:Hc; [ | assumption ].
    apply andb_true_iff in Hc. destruct Hc as [Hlt _].
    unfold below in *. destruct (snd b) as [x | |]; try discriminate.
    cbn in *. apply Z.ltb_lt in Hlt. apply Z.leb_le in Hb. apply Z.leb_le. lia.
Qed.

Lemma entries_result_below (threshold : Z) (p : string) (vs : list string)
    (entries : list (string * string)) (b b' : ImageProcessor.best)
    (t : list event) (d : Z) :
  below d b ->
  entries_result threshold p vs entries b = (Normal b', t) ->
  below d b'.
Proof.
  revert b t. induction entries as [| [h o] rest IH]; intros b t Hb Hrun.
  - cbn in Hrun. injection Hrun as <- _. assumption.
  - cbn [entries_result] in Hrun.
    destruct (ImageProcessor.hammingDistance p h) as [d' | e |]; try discriminate.
    pose proof (primary_step_below threshold h o d d' b Hb) as H1.
    destruct ((d' >? threshold) && (threshold <=? 3)).
    + pose proof (variant_fold_below threshold h o d vs _ H1) as H2.
      destruct (entries_result threshold p vs rest _) as [r t'] eqn:Hrest.
      injection Hrun as -> _. exact (IH _ _ H2 Hrest).
    + destruct (entries_result threshold p vs rest _) as [r t'] eqn:Hrest.
      injection Hrun as -> _. exact (IH _ _ H1 Hrest).
Qed.

Lemma entries_result_reaches (threshold : Z) (p : string) (vs : list string)
    (store entries : list (string * string)) (b b' : ImageProcessor.best)
    (t : list event) (h o : string) :
  (forall e, In e entries -> In e store) ->
  sound threshold p vs store b ->
  Forall (fun e => String.length (fst e) = String.length p) entries ->
  In (h, o) entries -> bit_distance p h <= threshold ->
  entries_result threshold p vs entries b = (Normal b', t) ->
  below (bit_distance p h) b'.
Proof.
  revert b t. induction entries as [| [eh oid] rest IH];
    intros b t Hsub Hb Hlen Hin Hle Hrun.
  - destruct Hin.
  - inversion Hlen as [| x l Hh Hrest]; subst. cbn [fst] in Hh.
    cbn [entries_result] in Hrun.
    pose proof (ip_distance_eq p eh (eq_sym Hh)) as Hd. rewrite Hd in Hrun.
    assert (In (eh, oid) store) as Hst by (apply Hsub; left; reflexivity).
    assert (forall e, In e rest -> In e store) as Hsub'
      by (intros e He; apply Hsub; right; assumption).
    pose proof (primary_step_sound threshold p vs store eh oid _ b Hd Hst Hb) as H1.
    destruct Hin as [Heq | Hin].
    + injection Heq as -> ->.
      destruct Hb as [Hco _].
      pose proof (primary_step_reaches threshold h o _ b Hco Hle) as Hr.
      destruct ((bit_distance p h >? threshold) && (threshold <=? 3)).
      * pose proof (variant_fold_below threshold h o _ vs _ Hr) as H2.
        destruct (entries_result threshold p vs rest _) as [r t'] eqn:Hres.
        injection Hrun as -> _.
        exact (entries_result_below _ _ _ _ _ _ _ _ H2 Hres).
      * destruct (entries_result threshold p vs rest _) as [r t'] eqn:Hres.
        injection Hrun as -> _.
        exact (entries_result_below _ _ _ _ _ _ _ _ Hr Hres).
    + destruct ((bit_distance p eh >? threshold) && (threshold <=? 3)).
      * pose proof (variant_fold_sound threshold p vs store eh oid vs _ Hst
                      (fun w Hw => Hw) H1) as H2.
        destruct (entries_result threshold p vs rest _) as [r t'] eqn:Hres.
        injection Hrun as -> _. exact (IH _ _ Hsub' H2 Hrest Hin Hle Hres).
      * destruct (entries_result threshold p vs rest _) as [r t'] eqn:Hres.
        injection Hrun as -> _. exact (IH _ _ Hsub' H1 Hrest Hin Hle Hres).
Qed.

Lemma entries_result_normal (threshold : Z) (p : string) (vs : list string)
    (entries : list (string * string)) (b : ImageProcessor.best) :
  Forall (fun e => String.length (fst e) = String.length p) entries ->
  exists b' t, entries_result threshold p vs entries b = (Normal b', t).
Proof.
  revert b. induction entries as [| [h o] rest IH]; intros b Hlen.
  - exists b, []. reflexivity.
  - inversion Hlen as [| x l Hh Hrest]; subst. cbn [fst] in Hh.
    cbn [entries_result]. rewrite (ip_distance_eq p h (eq_sym Hh)).
    destruct ((bit_distance p h >? threshold) && (threshold <=? 3)).
    + destruct (IH (fold_left (variant_step threshold h o) vs
                      (primary_step threshold h o (bit_distance p h) b)) Hrest)
        as [b' [t ->]].
      eexists. eexists. reflexivity.
    + destruct (IH (primary_step threshold h o (bit_distance p h) b) Hrest)
        as [b' [t ->]].
      eexists. eexists. reflexivity.
Qed.

Section Completeness.

Context {Buffer : Type} (ext : Externals Buffer).

Lemma findBestMatch_reaches (img : Buffer) (bd : ImageProcessor.bundle)
    (tg : list event) (store : list (string * string)) (threshold : Z)
    (h o : string) :
  ImageProcessor.generateRobustPHashFromBuffer ext img tt = (Normal bd, tt, tg) ->
  Forall (fun e => String.length (fst e) = String.length (ImageProcessor.primary bd))
         store ->
  In (h, o) store ->
  bit_distance (ImageProcessor.primary bd) h <= threshold ->
  exists m tr,
    ImageProcessor.findBestMatch ext img store threshold tt = (Normal (Some m), tt, tr) /\
    0 <= ImageProcessor.distance m <= bit_distance (ImageProcessor.primary bd) h.
Proof.
  intros Hgen Hlen Hin Hle.
  destruct (findBestMatch_run ext img store threshold tt) as [tg' [_ [Hgen' Hrun]]].
  rewrite Hgen in Hgen'. injection Hgen' as Hbd Htg. rewrite <- Hbd in Hrun.
  destruct (entries_result_normal threshold (ImageProcessor.primary bd)
              (map ImageProcessor.hash (ImageProcessor.variants bd)) store
              (None, Infinity) Hlen) as [b' [t Hres]].
  rewrite Hres in Hrun.
  assert (sound threshold (ImageProcessor.primary bd)
            (map ImageProcessor.hash (ImageProcessor.variants bd)) store
            (None, Infinity)) as H0 by (split; [ reflexivity | exact I ]).
  pose proof (entries_result_sound _ _ _ store store _ _ _ (fun e He => He) H0 Hres)
    as [Hco Hs].
  pose proof (entries_result_reaches _ _ _ store store _ _ _ h o
                (fun e He => He) H0 Hlen Hin Hle Hres) as Hbelow.
  unfold below in Hbelow. unfold coherent in Hco.
  destruct (fst b') as [m |] eqn:Hm.
  - exists m, (tg' ++ t). split; [ exact Hrun | ].
    rewrite Hco in Hbelow. cbn in Hbelow. apply Z.leb_le in Hbelow.
    destruct Hs as [_ [[Hnn _] _]]. split; assumption.
  - rewrite Hco in Hbelow. discriminate.
Qed.

End Completeness.

(** X2. When every stored fingerprint has the length of the query's primary
    fingerprint and some record is admissible (its distance from the primary
    fingerprint is within the threshold), [findBestMatch] returns a match,
    and the distance of that match is at most the distance of the admissible
    record: at no threshold does the widening by variants hide a record that
    the primary fingerprint reaches. *)
Theorem findBestMatch_complete {Buffer : Type} (ext : Externals Buffer) (img : Buffer)
    (bd : ImageProcessor.bundle) (tg : list event) (store : list (string * string))
    (threshold : Z) (h o : string) :
  ImageProcessor.generateRobustPHashFromBuffer ext img tt = (Normal bd, tt, tg) ->
  Forall (fun e => String.length (fst e) = String.length (ImageProcessor.primary bd))
         store ->
  In (h, o) store ->
  bit_distance (ImageProcessor.primary bd) h <= threshold ->
  exists m tr,
    ImageProcessor.findBestMatch ext img store threshold tt = (Normal (Some m), tt, tr) /\
    ImageProcessor.distance m <= bit_distance (ImageProcessor.primary bd) h.
Proof.
  intros Hgen Hlen Hin Hle.
  destruct (findBestMatch_reaches ext img bd tg store threshold h o Hgen Hlen Hin Hle)
    as [m [tr [Hrun [_ Hd]]]].
  exists m, tr. split; assumption.
Qed.

Lemma findBestMatch_complete_plain :
  exists m tr,
    ImageProcessor.findBestMatch
      (Toy.world Toy.always Toy.always Toy.plain ImageProcessor.zeroHash)
      (Toy.Raw 1) [(Toy.ones, "obj-B"); (Toy.h1, "obj-A")] 3 tt =
    (Normal (Some m), tt, tr) /\
    ImageProcessor.distance m <= 2.
Proof.
  assert (exists bd tg,
            ImageProcessor.generateRobustPHashFromBuffer
              (Toy.world Toy.always Toy.always Toy.plain ImageProcessor.zeroHash)
              (Toy.Raw 1) tt = (Normal bd, tt, tg) /\
            ImageProcessor.primary bd = Toy.near_h1) as [bd [tg [Hgen Hp]]].
  { eexists. eexists. split; [ vm_compute; reflexivity | reflexivity ]. }
  assert (bit_distance (ImageProcessor.primary bd) Toy.h1 = 2) as Hd
    by (rewrite Hp; reflexivity).
  rewrite <- Hd.
  apply (findBestMatch_complete _ _ bd tg _ 3 Toy.h1 "obj-A" Hgen).
  - rewrite Hp. repeat constructor.
  - right. left. reflexivity.
  - rewrite Hd. lia.
Defined.

(** X3. Duplicate rejection.  When the primary fingerprint of the query is
    itself a key of the store (the image was registered before), every
    stored fingerprint has its length and the threshold is not negative,
    [findBestMatch] returns a match at distance 0. *)
Theorem findBestMatch_registered_image {Buffer : Type} (ext : Externals Buffer)
    (img : Buffer) (bd : ImageProcessor.bundle) (tg : list event)
    (store : list (string * string)) (threshold : Z) (o : string) :
  ImageProcessor.generateRobustPHashFromBuffer ext img tt = (Normal bd, tt, tg) ->
  Forall (fun e => String.length (fst e) = String.length (ImageProcessor.primary bd))
         store ->
  In (ImageProcessor.primary bd, o) store ->
  0 <= threshold ->
  exists m tr,
    ImageProcessor.findBestMatch ext img store threshold tt = (Normal (Some m), tt, tr) /\
    ImageProcessor.distance m = 0.
Proof.
  intros Hgen Hlen Hin Hth.
  assert (bit_distance (ImageProcessor.primary bd) (ImageProcessor.primary bd) = 0) as H0
    by (apply bit_distance_zero; reflexivity).
  destruct (findBestMatch_reaches ext img bd tg store threshold
              (ImageProcessor.primary bd) o Hgen Hlen Hin) as [m [tr [Hrun Hd]]].
  - rewrite H0. assumption.
  - exists m, tr. split; [ assumption | lia ].
Qed.

Lemma findBestMatch_registered_plain :
  exists m tr,
    ImageProcessor.findBestMatch
      (Toy.world Toy.always Toy.always Toy.plain ImageProcessor.zeroHash)
      (Toy.Raw 1) [(Toy.h1, "obj-A"); (Toy.near_h1, "obj-C")] 3 tt =
    (Normal (Some m), tt, tr) /\
    ImageProcessor.distance m = 0.
Proof.
  assert (exists bd tg,
            ImageProcessor.generateRobustPHashFromBuffer
              (Toy.world Toy.always Toy.always Toy.plain ImageProcessor.zeroHash)
              (Toy.Raw 1) tt = (Normal bd, tt, tg) /\
            ImageProcessor.primary bd = Toy.near_h1) as [bd [tg [Hgen Hp]]].
  { eexists. eexists. split; [ vm_compute; reflexivity | reflexivity ]. }
  apply (findBestMatch_registered_image _ _ bd tg _ 3 "obj-C" Hgen).
  - rewrite Hp. repeat constructor.
  - rewrite Hp. right. left. reflexivity.
  - lia.
Defined.

(** ** The shape of a bundle *)

Section BundleShape.

Context {Buffer : Type} (ext : Externals Buffer).

Lemma variants_result_shape (nb : Buffer) (ts : list transform)
    (hashes hs : list ImageProcessor.variant) :
  variants_result ext nb ts hashes = Normal hs ->
  map ImageProcessor.type hs = map ImageProcessor.type hashes ++ ts /\
  forall v, In v hs ->
    In v hashes \/
    variant_fingerprint ext nb (ImageProcessor.type v) = inr (ImageProcessor.hash v).
Proof.
  revert hashes. induction ts as [| t rest IH]; intros hashes Hrun.
  - cbn in Hrun. injection Hrun as <-. rewrite app_nil_r.
    split; [ reflexivity | intros v Hv; left; assumption ].
  - cbn [variants_result] in Hrun.
    destruct (variant_fingerprint ext nb t) as [e | h] eqn:Hfp; [ discriminate | ].
    destruct (IH _ Hrun) as [Htypes Hall]. split.
    + rewrite Htypes, map_app, <- app_assoc. reflexivity.
    + intros v Hv. destruct (Hall v Hv) as [Hin | Hok]; [ | right; assumption ].
      apply in_app_or in Hin. destruct Hin as [Hin | [<- | []]].
      * left. assumption.
      * right. assumption.
Qed.

End BundleShape.

(** X4. A bundle returned by [generateRobustPHashFromBuffer] always has the
    same thirteen variants in the same order: the original, the rotations by
    15, 30, 45, 90, 135, 180, 225, 270, 315 and 345 degrees, and the scales
    0.9 and 1.1; each carries the perceptual hash of that transform of the
    canonical image.  The primary fingerprint is the perceptual hash of the
    canonical image, except when that hash is all-zero: then it is the first
    64 digits of the SHA-256 digest of the image's description, while the
    all-zero hash stays in the bundle as the variant [original]. *)
Theorem generateRobustPHashFromBuffer_shape {Buffer : Type} (ext : Externals Buffer)
    (img : Buffer) (bd : ImageProcessor.bundle) (tg : list event) :
  ImageProcessor.generateRobustPHashFromBuffer ext img tt = (Normal bd, tt, tg) ->
  exists nb originalHash,
    sharp_normalize ext img = inr nb /\
    variant_fingerprint ext nb Original = inr originalHash /\
    map ImageProcessor.type (ImageProcessor.variants bd) =
      Original ::
      map Rotated [15; 30; 45; 90; 135; 180; 225; 270; 315; 345] ++
      map Scaled [(9 # 10)%Q; (11 # 10)%Q] /\
    (forall v, In v (ImageProcessor.variants bd) ->
       variant_fingerprint ext nb (ImageProcessor.type v) = inr (ImageProcessor.hash v)) /\
    hd_error (ImageProcessor.variants bd) =
      Some {| ImageProcessor.type := Original; ImageProcessor.hash := originalHash |} /\
    (originalHash <> ImageProcessor.zeroHash -> ImageProcessor.primary bd = originalHash) /\
    (originalHash = ImageProcessor.zeroHash ->
     exists data,
       sharp_describe ext nb = inr data /\
       ImageProcessor.primary bd = substring 0 64 (sha256_hex ext data)).
Proof.
  intros Hgen.
  assert (bundle_result ext img = Normal bd) as Hbd.
  { destruct (generateRobustPHashFromBuffer_run ext img tt) as [tr [Hrun _]].
    rewrite Hgen in Hrun. injection Hrun as Hr _. symmetry. assumption. }
  unfold bundle_result in Hbd.
  destruct (sharp_normalize ext img) as [e | nb]; [ discriminate | ].
  destruct (variant_fingerprint ext nb Original) as [e | originalHash] eqn:Horig;
    [ discriminate | ].
  destruct (variants_result ext nb variant_transforms _) as [hashes | e |] eqn:Hvs;
    try discriminate.
  destruct (variants_result_shape ext nb _ _ _ Hvs) as [Htypes Hall].
  assert (forall v, In v hashes ->
            variant_fingerprint ext nb (ImageProcessor.type v) =
            inr (ImageProcessor.hash v)) as Hall'.
  { intros v Hv. destruct (Hall v Hv) as [[<- | []] | Hok]; assumption. }
  assert (hd_error hashes =
          Some {| ImageProcessor.type := Original;
                  ImageProcessor.hash := originalHash |}) as Hhd.
  { destruct hashes as [| v0 hashes']; [ discriminate | ].
    cbn in Htypes. injection Htypes as Ht0 _.
    pose proof (Hall' v0 (or_introl eq_refl)) as H0.
    rewrite Ht0, Horig in H0. injection H0 as H0.
    destruct v0 as [t0 h0]. cbn in *. subst. reflexivity. }
  exists nb, originalHash.
  destruct (String.eqb originalHash ImageProcessor.zeroHash) eqn:Hz.
  - apply String.eqb_eq in Hz.
    destruct (sharp_describe ext nb) as [e | data] eqn:Hdesc; [ discriminate | ].
    injection Hbd as <-. cbn.
    repeat split; try assumption; try reflexivity.
    + intros Hne. contradiction.
    + intros _. exists data. split; reflexivity.
  - apply String.eqb_neq in Hz. injection Hbd as <-. cbn.
    repeat split; try assumption; try reflexivity.
    intros Heq. contradiction.
Qed.

Lemma generateRobustPHashFromBuffer_shape_blank :
  exists bd,
    fst (fst (ImageProcessor.generateRobustPHashFromBuffer
                (Toy.world Toy.always Toy.always Toy.blank_but_2 Toy.near_h1)
                (Toy.Raw 1) tt)) = Normal bd /\
    ImageProcessor.primary bd = Toy.near_h1 /\
    hd_error (ImageProcessor.variants bd) =
      Some {| ImageProcessor.type := Original;
              ImageProcessor.hash := ImageProcessor.zeroHash |}.
Proof.
  assert (exists bd tg,
            ImageProcessor.generateRobustPHashFromBuffer
              (Toy.world Toy.always Toy.always Toy.blank_but_2 Toy.near_h1)
              (Toy.Raw 1) tt = (Normal bd, tt, tg)) as [bd [tg Hgen]].
  { eexists. eexists. vm_compute. reflexivity. }
  destruct (generateRobustPHashFromBuffer_shape _ _ bd tg Hgen)
    as [nb [oh [Hnorm [Horig [_ [_ [Hhd [_ Hfb]]]]]]]].
  cbn in Hnorm. injection Hnorm as <-. cbn in Horig. injection Horig as <-.
  destruct (Hfb eq_refl) as [data [Hdesc Hp]].
  exists bd. rewrite Hgen. split; [ reflexivity | ].
  split; [ rewrite Hp; reflexivity | exact Hhd ].
Defined.

(** ** Registration followed by verification *)

Section RegisterVerify.

Context {Buffer : Type} (ext : Externals Buffer).

Lemma bundle_original_hash (img : Buffer) (bd : ImageProcessor.bundle)
    (tg : list event) (h : string) :
  ImageProcessor.generateRobustPHashFromBuffer ext img tt = (Normal bd, tt, tg) ->
  hd_error (ImageProcessor.variants bd) =
    Some {| ImageProcessor.type := Original; ImageProcessor.hash := h |} ->
  exists nb file,
    sharp_normalize ext img = inr nb /\
    sharp_toFile ext nb = inr file /\
    imageHash ext file = inr h.
Proof.
  intros Hgen Hhd.
  assert (bundle_result ext img = Normal bd) as Hbd.
  { destruct (generateRobustPHashFromBuffer_run ext img tt) as [tr [Hrun _]].
    rewrite Hgen in Hrun. injection Hrun as Hr _. symmetry. assumption. }
  unfold bundle_result in Hbd.
  destruct (sharp_normalize ext img) as [e | nb]; [ discriminate | ].
  destruct (variant_fingerprint ext nb Original) as [e | originalHash] eqn:Horig;
    [ discriminate | ].
  destruct (variants_result ext nb variant_transforms _) as [hashes | e |] eqn:Hvs;
    try discriminate.
  destruct (variants_result_shape ext nb _ _ _ Hvs) as [_ Hall].
  assert (ImageProcessor.variants bd = hashes) as Hv.
  { destruct (String.eqb originalHash ImageProcessor.zeroHash).
    - destruct (sharp_describe ext nb); [ discriminate | ].
      injection Hbd as <-. reflexivity.
    - injection Hbd as <-. reflexivity. }
  rewrite Hv in Hhd. destruct hashes as [| v0 rest]; [ discriminate | ].
  cbn in Hhd. injection Hhd as ->.
  destruct (Hall _ (or_introl eq_refl)) as [[Heq | []] | Hok].
  - injection Heq as <-. cbn [variant_fingerprint] in Horig.
    destruct (sharp_toFile ext nb) as [e | file] eqn:Hfile; [ discriminate | ].
    exists nb, file. repeat split; try assumption; reflexivity.
  - cbn [variant_fingerprint ImageProcessor.type ImageProcessor.hash] in Hok.
    destruct (sharp_toFile ext nb) as [e | file] eqn:Hfile; [ discriminate | ].
    exists nb, file. repeat split; try assumption; reflexivity.
Qed.

Lemma aim_distance_self (h : string) :
  JS.le (AdvancedImageMatcher.hammingDistance h h) (Num 3) = true.
Proof.
  rewrite aim_distance_eq by reflexivity.
  assert (bit_distance h h = 0) as -> by (apply bit_distance_zero; reflexivity).
  reflexivity.
Qed.

Lemma verifyImageMatch_own_hash (img nb file : Buffer) (h : string)
    (stored : list string) :
  sharp_normalize ext img = inr nb ->
  sharp_toFile ext nb = inr file ->
  imageHash ext file = inr h ->
  In h stored ->
  exists r tr,
    AdvancedImageMatcher.verifyImageMatch ext img stored = (Normal r, tr) /\
    AdvancedImageMatcher.overall r =
    {| Overall.matched := true; Overall.confidence := 95 # 100;
       Overall.method := "direct_phash" |} /\
    Stage.matched (AdvancedImageMatcher.stage1_phash r) = true /\
    JS.le (Stage.distance (AdvancedImageMatcher.stage1_phash r)) (Num 3) = true.
Proof.
  intros Hnorm Hfile Hhash Hin.
  destruct (first_hit
              (fun y => JS.le (AdvancedImageMatcher.hammingDistance h y) (Num 3))
              stored) as [Hmiss | [pre [x [post [Hst [Hpre Hx]]]]]].
  - pose proof (aim_distance_self h) as Hs. rewrite (Hmiss h Hin) in Hs. discriminate.
  - eexists. eexists. split.
    + rewrite Hst.
      apply (@verifyImageMatch_direct _ ext img nb file h (pre ++ x :: post)
               _ _ _ Hnorm Hfile Hhash
               (@stage1_loop_hit h pre x post AdvancedImageMatcher.initial Hpre Hx)).
    + split; [ reflexivity | split; [ reflexivity | exact Hx ] ].
Qed.

End RegisterVerify.

(** X5. Registration followed by verification.  If the bundle of an image
    has the perceptual hash of the image as primary fingerprint (it is not a
    fallback) and that fingerprint is among the stored ones, then
    [verifyImageMatch] on the same image answers in stage 1:
    [overall = {matched: true, confidence: 0.95, method: 'direct_phash'}],
    with a stage-1 distance of at most 3. *)
Theorem verifyImageMatch_registered_image {Buffer : Type} (ext : Externals Buffer)
    (img : Buffer) (bd : ImageProcessor.bundle) (tg : list event)
    (stored : list string) :
  ImageProcessor.generateRobustPHashFromBuffer ext img tt = (Normal bd, tt, tg) ->
  hd_error (ImageProcessor.variants bd) =
    Some {| ImageProcessor.type := Original;
            ImageProcessor.hash := ImageProcessor.primary bd |} ->
  In (ImageProcessor.primary bd) stored ->
  exists r tr,
    AdvancedImageMatcher.verifyImageMatch ext img stored = (Normal r, tr) /\
    AdvancedImageMatcher.overall r =
    {| Overall.matched := true; Overall.confidence := 95 # 100;
       Overall.method := "direct_phash" |} /\
    Stage.matched (AdvancedImageMatcher.stage1_phash r) = true /\
    JS.le (Stage.distance (AdvancedImageMatcher.stage1_phash r)) (Num 3) = true.
Proof.
  intros Hgen Hhd Hin.
  destruct (bundle_original_hash ext img bd tg _ Hgen Hhd)
    as [nb [file [Hnorm [Hfile Hhash]]]].
  exact (verifyImageMatch_own_hash ext img nb file _ stored Hnorm Hfile Hhash Hin).
Qed.

Lemma verifyImageMatch_registered_plain :
  exists r tr,
    AdvancedImageMatcher.verifyImageMatch
      (Toy.world Toy.always Toy.always Toy.plain ImageProcessor.zeroHash)
      (Toy.Raw 1) [Toy.ones; Toy.near_h1] = (Normal r, tr) /\
    AdvancedImageMatcher.overall r =
    {| Overall.matched := true; Overall.confidence := 95 # 100;
       Overall.method := "direct_phash" |} /\
    Stage.matched (AdvancedImageMatcher.stage1_phash r) = true /\
    JS.le (Stage.distance (AdvancedImageMatcher.stage1_phash r)) (Num 3) = true.
Proof.
  assert (exists bd tg,
            ImageProcessor.generateRobustPHashFromBuffer
              (Toy.world Toy.always Toy.always Toy.plain ImageProcessor.zeroHash)
              (Toy.Raw 1) tt = (Normal bd, tt, tg) /\
            ImageProcessor.primary bd = Toy.near_h1 /\
            hd_error (ImageProcessor.variants bd) =
              Some {| ImageProcessor.type := Original;
                      ImageProcessor.hash := Toy.near_h1 |})
    as [bd [tg [Hgen [Hp Hhd]]]].
  { eexists. eexists. split; [ vm_compute; reflexivity | split; reflexivity ]. }
  apply (verifyImageMatch_registered_image _ _ bd tg _ Hgen).
  - rewrite Hp. exact Hhd.
  - rewrite Hp. right. left. reflexivity.
Defined.

(** ** What the verifier compares *)

Section VerifierComparisons.

Context {Buffer : Type} (ext : Externals Buffer).

(** A comparison of the verifier: a stored fingerprint against the
    perceptual hash [oh] of the canonical image [nb] in stage 1, or against
    the hash of [nb] rotated by a probe angle in stage 2.  Other events are
    not comparisons. *)
Definition probe_comparison (nb : Buffer) (oh : string) (stored : list string)
    (e : event) : Prop :=
  match e with
  | Compare Direct h x => h = oh /\ In x stored
  | Compare (Rotation a) h x =>
      In a AdvancedImageMatcher.rotationAngles /\
      rotated_fingerprint ext nb a = inr h /\ In x stored
  | Compare _ _ _ => False
  | _ => True
  end.

Lemma stage1_loop_trace (nb : Buffer) (oh : string) (stored l : list string)
    (s : AdvancedImageMatcher.results) :
  (forall x, In x l -> In x stored) ->
  Forall (probe_comparison nb oh stored)
         (snd (AdvancedImageMatcher.stage1_loop oh l s)).
Proof.
  revert s. induction l as [| x rest IH]; intros s Hsub.
  - constructor.
  - rewrite stage1_loop_cons.
    destruct (JS.le (AdvancedImageMatcher.hammingDistance oh x) (Num 3)).
    + cbn [snd]. constructor; [ | constructor ].
      split; [ reflexivity | apply Hsub; left; reflexivity ].
    + specialize (IH (direct_miss (AdvancedImageMatcher.hammingDistance oh x) s)
                     (fun y Hy => Hsub y (or_intror Hy))).
      destruct (AdvancedImageMatcher.stage1_loop oh rest _) as [[r s'] t].
      cbn [snd] in *. constructor; [ | assumption ].
      split; [ reflexivity | apply Hsub; left; reflexivity ].
Qed.

Lemma stage2_scan_trace (nb : Buffer) (oh : string) (stored l : list string)
    (a : Z) (rh : string) (s : AdvancedImageMatcher.results) :
  In a AdvancedImageMatcher.rotationAngles ->
  rotated_fingerprint ext nb a = inr rh ->
  (forall x, In x l -> In x stored) ->
  Forall (probe_comparison nb oh stored)
         (snd (AdvancedImageMatcher.stage2_scan a rh l s)).
Proof.
  intros Ha Hrh. revert s. induction l as [| x rest IH]; intros s Hsub.
  - constructor.
  - rewrite stage2_scan_cons.
    destruct (JS.le (AdvancedImageMatcher.hammingDistance rh x) (Num 8)).
    + cbn [snd]. constructor; [ | constructor ].
      split; [ assumption | split; [ assumption | apply Hsub; left; reflexivity ] ].
    + specialize (IH (rotation_miss (AdvancedImageMatcher.hammingDistance rh x) s)
                     (fun y Hy => Hsub y (or_intror Hy))).
      destruct (AdvancedImageMatcher.stage2_scan a rh rest _) as [[r s'] t].
      cbn [snd] in *. constructor; [ | assumption ].
      split; [ assumption | split; [ assumption | apply Hsub; left; reflexivity ] ].
Qed.

Lemma stage2_loop_fail_trace (nb : Buffer) (a : Z) (rest : list Z)
    (stored : list string) (s : AdvancedImageMatcher.results) (e : exn) :
  rotated_fingerprint ext nb a = inl e ->
  exists t,
    AdvancedImageMatcher.stage2_loop ext nb (a :: rest) stored s = (Throw e, s, t) /\
    Forall (fun ev => is_compare ev = false) t.
Proof.
  unfold rotated_fingerprint. intros Hfp.
  cbn [AdvancedImageMatcher.stage2_loop].
  unfold bind at 1. unfold bind at 1. unfold emit at 1. unfold call at 1.
  destruct (sharp_rotate ext a nb) as [e0 | rb].
  - injection Hfp as <-. eexists. split; [ reflexivity | repeat constructor ].
  - unfold ret at 1. unfold bind at 1. unfold call at 1.
    destruct (sharp_toFile ext rb) as [e0 | f].
    + injection Hfp as <-. eexists. split; [ reflexivity | repeat constructor ].
    + unfold ret at 1. unfold bind at 1. unfold bind at 1.
      unfold emit at 1. unfold call at 1. rewrite Hfp.
      eexists. split; [ reflexivity | repeat constructor ].
Qed.

Lemma quiet_probe (nb : Buffer) (oh : string) (stored : list string)
    (t : list event) :
  Forall (fun ev => is_compare ev = false) t ->
  Forall (probe_comparison nb oh stored) t.
Proof.
  intros H. eapply Forall_impl; [ | exact H ].
  intros [] Hq; try exact I. discriminate.
Qed.

Lemma stage2_loop_trace (nb : Buffer) (oh : string) (stored : list string)
    (angles : list Z) (s : AdvancedImageMatcher.results) :
  (forall a, In a angles -> In a AdvancedImageMatcher.rotationAngles) ->
  Forall (probe_comparison nb oh stored)
         (snd (AdvancedImageMatcher.stage2_loop ext nb angles stored s)).
Proof.
  revert s. induction angles as [| a rest IH]; intros s Hsub.
  - constructor.
  - destruct (rotated_fingerprint ext nb a) as [e | rh] eqn:Hfp.
    + destruct (stage2_loop_fail_trace nb a rest stored s e Hfp) as [t [-> Hq]].
      cbn [snd]. apply quiet_probe. assumption.
    + rewrite (@stage2_loop_ok_cons _ ext nb a rest stored s rh Hfp).
      pose proof (stage2_scan_trace nb oh stored stored a rh s
                    (Hsub a (or_introl eq_refl)) Hfp (fun x Hx => Hx)) as Hscan.
      destruct (AdvancedImageMatcher.stage2_scan a rh stored s)
        as [[[[r |] | e |] s'] t]; cbn [snd] in *;
        try (constructor; [ exact I | constructor; [ exact I | assumption ] ]).
      specialize (IH s' (fun a' Ha' => Hsub a' (or_intror Ha'))).
      destruct (AdvancedImageMatcher.stage2_loop ext nb rest stored s')
        as [[r' s''] t'].
      cbn [snd] in *.
      constructor; [ exact I | constructor; [ exact I | ] ].
      apply Forall_app. split; assumption.
Qed.

Lemma verifyImageMatch_trace (img nb file : Buffer) (oh : string)
    (stored : list string) :
  sharp_normalize ext img = inr nb ->
  sharp_toFile ext nb = inr file ->
  imageHash ext file = inr oh ->
  Forall (probe_comparison nb oh stored)
         (snd (AdvancedImageMatcher.verifyImageMatch ext img stored)).
Proof.
  intros Hnorm Hfile Hhash.
  unfold AdvancedImageMatcher.verifyImageMatch, AdvancedImageMatcher.verifyImageMatch_body.
  unfold try_catch. unfold bind at 1. unfold bind at 1.
  unfold emit at 1. unfold call at 1. rewrite Hnorm.
  unfold ret at 1. unfold bind at 1. unfold call at 1. rewrite Hfile.
  unfold ret at 1. unfold bind at 1. unfold bind at 1.
  unfold emit at 1. unfold call at 1. rewrite Hhash.
  unfold ret at 1. unfold bind at 1.
  pose proof (stage1_loop_trace nb oh stored stored AdvancedImageMatcher.initial
                (fun x Hx => Hx)) as H1.
  destruct (AdvancedImageMatcher.stage1_loop oh stored AdvancedImageMatcher.initial)
    as [[[[r |] | e |] s1] t1]; cbn [snd] in *.
  - unfold ret at 1. cbn [snd app].
    constructor; [ exact I | constructor; [ exact I | ] ].
    rewrite ?app_nil_r. assumption.
  - unfold bind at 1.
    pose proof (stage2_loop_trace nb oh stored AdvancedImageMatcher.rotationAngles s1
                  (fun a Ha => Ha)) as H2.
    destruct (AdvancedImageMatcher.stage2_loop ext nb
                AdvancedImageMatcher.rotationAngles stored s1)
      as [[[[r |] | e |] s2] t2]; cbn [snd] in *.
    + unfold ret at 1. cbn [snd app].
      constructor; [ exact I | constructor; [ exact I | ] ].
      rewrite ?app_nil_r. apply Forall_app. split; assumption.
    + unfold bind at 1.
      destruct (generateColorHistogram_run ext nb s2) as [v ->].
      unfold bind at 1.
      destruct (generateEdgeHash_run ext nb s2) as [v' ->].
      unfold get. cbn [snd app].
      constructor; [ exact I | constructor; [ exact I | ] ].
      rewrite ?app_nil_r. apply Forall_app. split; [ assumption | ].
      apply Forall_app. split; [ assumption | repeat constructor ].
    + unfold get. cbn [snd app].
      constructor; [ exact I | constructor; [ exact I | ] ].
      rewrite ?app_nil_r. apply Forall_app. split; assumption.
    + cbn [snd app].
      constructor; [ exact I | constructor; [ exact I | ] ].
      rewrite ?app_nil_r. apply Forall_app. split; assumption.
  - unfold get. cbn [snd app].
    constructor; [ exact I | constructor; [ exact I | ] ].
    rewrite ?app_nil_r. assumption.
  - cbn [snd app].
    constructor; [ exact I | constructor; [ exact I | ] ].
    rewrite ?app_nil_r. assumption.
Qed.

End VerifierComparisons.

(** X6. Every fingerprint comparison made by [verifyImageMatch] is between a
    stored fingerprint and either the perceptual hash of the canonical query
    image (stage 1) or the hash of that image rotated by one of the probe
    angles (stage 2).  The verifier never compares the fallback fingerprint
    under which a uniform image is registered, nor any scaled variant. *)
Theorem verifyImageMatch_compares_perceptual_hashes {Buffer : Type}
    (ext : Externals Buffer) (img nb file : Buffer) (oh : string)
    (stored : list string) :
  sharp_normalize ext img = inr nb ->
  sharp_toFile ext nb = inr file ->
  imageHash ext file = inr oh ->
  forall k h x,
    In (Compare k h x) (snd (AdvancedImageMatcher.verifyImageMatch ext img stored)) ->
    In x stored /\
    ((k = Direct /\ h = oh) \/
     (exists a, k = Rotation a /\ In a AdvancedImageMatcher.rotationAngles /\
                rotated_fingerprint ext nb a = inr h)).
Proof.
  intros Hnorm Hfile Hhash k h x Hin.
  pose proof (verifyImageMatch_trace ext img nb file oh stored Hnorm Hfile Hhash) as Ht.
  rewrite Forall_forall in Ht. specialize (Ht _ Hin).
  destruct k as [| | | a]; cbn in Ht; try contradiction.
  - destruct Ht as [-> Hx]. split; [ assumption | left; split; reflexivity ].
  - destruct Ht as [Ha [Hrh Hx]]. split; [ assumption | right ].
    exists a. repeat split; assumption.
Qed.

(** A uniform picture is registered under its fallback fingerprint; its
    verification compares the all-zero hash with the stored fallback. *)
Lemma verifyImageMatch_blank_compares_zero :
  In Toy.near_h1 [Toy.near_h1] /\
  ((Direct = Direct /\ ImageProcessor.zeroHash = ImageProcessor.zeroHash) \/
   (exists a, Direct = Rotation a /\ In a AdvancedImageMatcher.rotationAngles /\
              rotated_fingerprint
                (Toy.world Toy.always Toy.always Toy.blank_but_2 Toy.near_h1)
                (Toy.Normalized 1) a = inr ImageProcessor.zeroHash)).
Proof.
  apply (verifyImageMatch_compares_perceptual_hashes
           (Toy.world Toy.always Toy.always Toy.blank_but_2 Toy.near_h1)
           (Toy.Raw 1) (Toy.Normalized 1) (Toy.Normalized 1) ImageProcessor.zeroHash
           [Toy.near_h1] eq_refl eq_refl eq_refl
           Direct ImageProcessor.zeroHash Toy.near_h1).
  vm_compute. tauto.
Defined.

(** ** The diagnostic distances of a negative report *)

(** [d] is the least element of [l]; [Infinity] when [l] is empty. *)
Definition is_minimum (d : number) (l : list number) : Prop :=
  match l with
  | [] => d = Infinity
  | _ => In d l /\ forall x, In x l -> JS.le d x = true
  end.

Lemma aim_distance_number (a b : string) :
  AdvancedImageMatcher.hammingDistance a b <> NaN.
Proof.
  unfold AdvancedImageMatcher.hammingDistance.
  destruct (negb _); discriminate.
Qed.

Lemma min_le_left (a b : number) : a <> NaN -> b <> NaN -> JS.le (JS.min a b) a = true.
Proof.
  intros Ha Hb. destruct a as [x | |], b as [y | |]; try contradiction; cbn;
    try reflexivity; try (apply Z.leb_le; lia).
Qed.

Lemma min_le_right (a b : number) : a <> NaN -> b <> NaN -> JS.le (JS.min a b) b = true.
Proof.
  intros Ha Hb. destruct a as [x | |], b as [y | |]; try contradiction; cbn;
    try reflexivity; try (apply Z.leb_le; lia).
Qed.

Lemma min_is_one (a b : number) :
  a <> NaN -> b <> NaN -> JS.min a b = a \/ JS.min a b = b.
Proof.
  intros Ha Hb. destruct a as [x | |], b as [y | |]; try contradiction; cbn; auto.
  destruct (Z.min_spec x y) as [[_ ->] | [_ ->]]; auto.
Qed.

Lemma le_trans (a b c : number) :
  JS.le a b = true -> JS.le b c = true -> JS.le a c = true.
Proof.
  destruct a as [x | |], b as [y | |], c as [z | |]; cbn; try discriminate;
    try reflexivity.
  intros H1 H2. apply Z.leb_le in H1. apply Z.leb_le in H2. apply Z.leb_le. lia.
Qed.

Lemma fold_min_spec (l : list number) (m : number) :
  (forall x, In x l -> x <> NaN) -> m <> NaN ->
  fold_left JS.min l m <> NaN /\
  JS.le (fold_left JS.min l m) m = true /\
  (forall x, In x l -> JS.le (fold_left JS.min l m) x = true) /\
  (fold_left JS.min l m = m \/ In (fold_left JS.min l m) l).
Proof.
  revert m. induction l as [| y l IH]; intros m Hl Hm.
  - cbn. repeat split; try assumption.
    + destruct m; try contradiction; cbn; try reflexivity. apply Z.leb_refl.
    + intros x [].
    + left. reflexivity.
  - cbn [fold_left].
    assert (y <> NaN) as Hy by (apply Hl; left; reflexivity).
    assert (JS.min m y <> NaN) as Hmy
      by (destruct (min_is_one m y Hm Hy) as [-> | ->]; assumption).
    destruct (IH (JS.min m y) (fun x Hx => Hl x (or_intror Hx)) Hmy)
      as [Hn [Hle [Hall Hin]]].
    split; [ assumption | split; [ | split ] ].
    + exact (le_trans _ _ _ Hle (min_le_left m y Hm Hy)).
    + intros x [<- | Hx].
      * exact (le_trans _ _ _ Hle (min_le_right m y Hm Hy)).
      * apply Hall. assumption.
    + destruct Hin as [Heq | Hin].
      * rewrite Heq. destruct (min_is_one m y Hm Hy) as [-> | ->].
        -- left. reflexivity.
        -- right. left. reflexivity.
      * right. right. assumption.
Qed.

Lemma fold_min_minimum (l : list number) :
  (forall x, In x l -> x <> NaN) ->
  is_minimum (fold_left JS.min l Infinity) l.
Proof.
  intros Hl.
  destruct (fold_min_spec l Infinity Hl) as [_ [_ [Hall Hin]]]; [ discriminate | ].
  destruct l as [| y l]; [ reflexivity | ].
  split; [ | assumption ].
  destruct Hin as [Heq | Hin]; [ | assumption ].
  rewrite Heq. specialize (Hall y (or_introl eq_refl)). rewrite Heq in Hall.
  destruct y; try discriminate. left. reflexivity.
Qed.

Lemma direct_misses_distance (h : string) (l : list string)
    (s : AdvancedImageMatcher.results) :
  Stage.distance (AdvancedImageMatcher.stage1_phash (direct_misses h l s)) =
  fold_left JS.min (map (AdvancedImageMatcher.hammingDistance h) l)
            (Stage.distance (AdvancedImageMatcher.stage1_phash s)).
Proof.
  revert s. induction l as [| x l IH]; intros s.
  - reflexivity.
  - unfold direct_misses in *. cbn [fold_left map]. rewrite IH. reflexivity.
Qed.

Lemma rotation_misses_distance (h : string) (l : list string)
    (s : AdvancedImageMatcher.results) :
  Stage.distance (AdvancedImageMatcher.stage2_rotation (rotation_misses h l s)) =
  fold_left JS.min (map (AdvancedImageMatcher.hammingDistance h) l)
            (Stage.distance (AdvancedImageMatcher.stage2_rotation s)).
Proof.
  revert s. induction l as [| x l IH]; intros s.
  - reflexivity.
  - unfold rotation_misses in *. cbn [fold_left map]. rewrite IH. reflexivity.
Qed.

Section Diagnostics.

Context {Buffer : Type} (ext : Externals Buffer).

(** The distances stage 2 computes for one angle. *)
Definition rotation_distances (nb : Buffer) (stored : list string) (a : Z)
    : list number :=
  match rotated_fingerprint ext nb a with
  | inr rh => map (AdvancedImageMatcher.hammingDistance rh) stored
  | inl _ => []
  end.

Lemma angles_missed_distance (nb : Buffer) (stored : list string) (angles : list Z)
    (s : AdvancedImageMatcher.results) :
  Stage.distance (AdvancedImageMatcher.stage2_rotation
                    (angles_missed ext nb stored angles s)) =
  fold_left JS.min (flat_map (rotation_distances nb stored) angles)
            (Stage.distance (AdvancedImageMatcher.stage2_rotation s)).
Proof.
  revert s. induction angles as [| a rest IH]; intros s.
  - reflexivity.
  - unfold angles_missed in *. cbn [fold_left flat_map].
    rewrite fold_left_app, IH. f_equal. unfold rotation_distances.
    destruct (rotated_fingerprint ext nb a) as [e | rh].
    + reflexivity.
    + apply rotation_misses_distance.
Qed.

Lemma angles_missed_stage1 (nb : Buffer) (stored : list string) (angles : list Z)
    (s : AdvancedImageMatcher.results) :
  AdvancedImageMatcher.stage1_phash (angles_missed ext nb stored angles s) =
  AdvancedImageMatcher.stage1_phash s.
Proof.
  revert s. induction angles as [| a rest IH]; intros s.
  - reflexivity.
  - unfold angles_missed in *. cbn [fold_left]. rewrite IH.
    destruct (rotated_fingerprint ext nb a) as [e | rh]; [ reflexivity | ].
    clear IH. revert s. induction stored as [| x l IHl]; intros s.
    + reflexivity.
    + unfold rotation_misses in *. cbn [fold_left]. rewrite IHl. reflexivity.
Qed.

(** Stage 2 either returns a match, or leaves the state reached by the
    angles it went through without a hit: all of them, or those before the
    first rotation that failed. *)
Lemma stage2_result_unmatched (nb : Buffer) (stored : list string) (angles : list Z)
    (s : AdvancedImageMatcher.results) :
  unmatched s ->
  (exists r s', stage2_result ext nb angles stored s = (Normal (Some r), s') /\
                rotation_form r) \/
  (exists passed after,
     angles = passed ++ after /\
     snd (stage2_result ext nb angles stored s) = angles_missed ext nb stored passed s /\
     (forall a, In a passed ->
        exists rh, rotated_fingerprint ext nb a = inr rh /\
          forall x, In x stored ->
            JS.le (AdvancedImageMatcher.hammingDistance rh x) (Num 8) = false) /\
     ((after = [] /\ fst (stage2_result ext nb angles stored s) = Normal None) \/
      (exists a rest e,
         after = a :: rest /\ rotated_fingerprint ext nb a = inl e /\
         fst (stage2_result ext nb angles stored s) = Throw e))).
Proof.
  revert s. induction angles as [| a rest IH]; intros s Hs.
  - right. exists [], []. repeat split; try reflexivity.
    + intros a [].
    + left. split; reflexivity.
  - cbn [stage2_result].
    destruct (rotated_fingerprint ext nb a) as [e | rh] eqn:Hfp.
    + right. exists [], (a :: rest). repeat split; try reflexivity.
      * intros a' [].
      * right. exists a, rest, e. repeat split. assumption.
    + destruct (first_hit
                  (fun x => JS.le (AdvancedImageMatcher.hammingDistance rh x) (Num 8))
                  stored) as [Hmiss | [pre [x [post [Hst [Hpre Hx]]]]]].
      * rewrite (stage2_scan_misses a rh stored s Hmiss).
        assert (unmatched (rotation_misses rh stored s)) as Hu
          by (apply rotation_misses_unmatched; assumption).
        destruct (IH _ Hu) as [Hhit | [passed [after [Hsplit [Hsnd [Hall Hend]]]]]].
        -- left. assumption.
        -- right. exists (a :: passed), after.
           split; [ rewrite Hsplit; reflexivity | split; [ | split ] ].
           ++ rewrite Hsnd. unfold angles_missed. cbn [fold_left]. rewrite Hfp.
              reflexivity.
           ++ intros a' [<- | Ha'].
              ** exists rh. split; assumption.
              ** apply Hall. assumption.
           ++ assumption.
      * left. rewrite Hst. rewrite (stage2_scan_hit a rh pre x post s Hpre Hx).
        eexists. eexists. split; [ reflexivity | ].
        apply rotation_hit_form. apply rotation_misses_unmatched. assumption.
Qed.

(** The report of a verification that did not match. *)
Lemma report_unmatched (img nb file : Buffer) (oh : string) (stored : list string) :
  sharp_normalize ext img = inr nb ->
  sharp_toFile ext nb = inr file ->
  imageHash ext file = inr oh ->
  Overall.matched (AdvancedImageMatcher.overall (report ext img stored)) = false ->
  (forall x, In x stored ->
     JS.le (AdvancedImageMatcher.hammingDistance oh x) (Num 3) = false) /\
  exists passed after,
    AdvancedImageMatcher.rotationAngles = passed ++ after /\
    report ext img stored =
      angles_missed ext nb stored passed
        (direct_misses oh stored AdvancedImageMatcher.initial) /\
    (forall a, In a passed ->
       exists rh, rotated_fingerprint ext nb a = inr rh /\
         forall x, In x stored ->
           JS.le (AdvancedImageMatcher.hammingDistance rh x) (Num 8) = false) /\
    (after = [] \/
     exists a rest e, after = a :: rest /\ rotated_fingerprint ext nb a = inl e).
Proof.
  intros Hnorm Hfile Hhash. unfold report. rewrite Hnorm.
  cbn [variant_fingerprint]. rewrite Hfile, Hhash.
  destruct (stage1_loop_outcome oh stored unmatched_initial)
    as [[-> [Hu Hmiss]] | [r [t [-> [[Ho _] _]]]]].
  - destruct (stage2_result_unmatched nb stored AdvancedImageMatcher.rotationAngles
                _ Hu)
      as [[r [s' [-> [Ho _]]]] | [passed [after [Hsplit [Hsnd [Hall Hend]]]]]].
    + rewrite Ho. discriminate.
    + intros _. split; [ assumption | ].
      exists passed, after. split; [ assumption | split; [ | split ] ].
      * destruct (stage2_result ext nb AdvancedImageMatcher.rotationAngles stored _)
          as [c s2].
        cbn [fst snd] in *. subst s2.
        destruct Hend as [[_ ->] | [a [rest [e [_ [_ ->]]]]]]; reflexivity.
      * assumption.
      * destruct Hend as [[-> _] | [a [rest [e [-> [Hfail _]]]]]].
        -- left. reflexivity.
        -- right. exists a, rest, e. split; [ reflexivity | assumption ].
  - rewrite Ho. discriminate.
Qed.

End Diagnostics.

(** X7. When a verification of a decodable image does not match, the
    distance reported for stage 1 is the smallest distance between the
    query's perceptual hash and the stored fingerprints ([Infinity] for a
    store whose fingerprints all have another length), and no stored
    fingerprint is within 3 of the query's hash. *)
Theorem verifyImageMatch_stage1_diagnostic {Buffer : Type} (ext : Externals Buffer)
    (img nb file : Buffer) (oh : string) (stored : list string)
    (r : AdvancedImageMatcher.results) (tr : list event) :
  sharp_normalize ext img = inr nb ->
  sharp_toFile ext nb = inr file ->
  imageHash ext file = inr oh ->
  AdvancedImageMatcher.verifyImageMatch ext img stored = (Normal r, tr) ->
  Overall.matched (AdvancedImageMatcher.overall r) = false ->
  is_minimum (Stage.distance (AdvancedImageMatcher.stage1_phash r))
             (map (AdvancedImageMatcher.hammingDistance oh) stored) /\
  JS.le (Stage.distance (AdvancedImageMatcher.stage1_phash r)) (Num 3) = false.
Proof.
  intros Hnorm Hfile Hhash Hrun Hun.
  destruct (verifyImageMatch_report ext img stored) as [tr' Hrep].
  rewrite Hrun in Hrep. injection Hrep as -> _.
  destruct (report_unmatched ext img nb file oh stored Hnorm Hfile Hhash Hun)
    as [Hmiss [angles [after [_ [-> _]]]]].
  rewrite angles_missed_stage1, direct_misses_distance.
  assert (forall x, In x (map (AdvancedImageMatcher.hammingDistance oh) stored) ->
            x <> NaN) as Hnum.
  { intros x Hx. apply in_map_iff in Hx. destruct Hx as [y [<- _]].
    apply aim_distance_number. }
  pose proof (fold_min_minimum _ Hnum) as Hmin.
  split; [ exact Hmin | ].
  cbn [AdvancedImageMatcher.initial AdvancedImageMatcher.stage1_phash Stage.distance].
  destruct stored as [| y stored'].
  - reflexivity.
  - destruct Hmin as [Hin _]. apply in_map_iff in Hin.
    destruct Hin as [z [<- Hz]]. apply Hmiss. assumption.
Qed.

Lemma verifyImageMatch_stage1_diagnostic_toy :
  is_minimum (Num 12)
    (map (AdvancedImageMatcher.hammingDistance Toy.ones)
         [ImageProcessor.zeroHash; "0fffffffffffffffffffffffffffffffffffffffffffffffffffffffffffff00"; "3fa9"]) /\
  JS.le (Num 12) (Num 3) = false.
Proof.
  assert (exists r tr,
            AdvancedImageMatcher.verifyImageMatch
              (Toy.world Toy.always Toy.always (fun _ => Toy.ones) ImageProcessor.zeroHash)
              (Toy.Raw 1)
              [ImageProcessor.zeroHash; "0fffffffffffffffffffffffffffffffffffffffffffffffffffffffffffff00"; "3fa9"]
            = (Normal r, tr) /\
            Overall.matched (AdvancedImageMatcher.overall r) = false /\
            Stage.distance (AdvancedImageMatcher.stage1_phash r) = Num 12)
    as [r [tr [Hrun [Hun Hd]]]].
  { eexists. eexists. split; [ vm_compute; reflexivity | split; reflexivity ]. }
  rewrite <- Hd.
  exact (verifyImageMatch_stage1_diagnostic
           (Toy.world Toy.always Toy.always (fun _ => Toy.ones) ImageProcessor.zeroHash)
           (Toy.Raw 1) (Toy.Normalized 1) (Toy.Normalized 1)
           Toy.ones _ r tr eq_refl eq_refl eq_refl Hrun Hun).
Defined.

(** X8. When a verification of a decodable image does not match, stage 2
    has gone through the probe angles in order up to the end of the list or
    up to the first angle whose rotated fingerprint could not be computed
    (that failure ends the verification with a negative report).  No stored
    fingerprint is within 8 of the rotated fingerprint of an angle gone
    through, and the distance reported for stage 2 is the smallest of all
    the distances computed for those angles ([Infinity] when there are
    none). *)
Theorem verifyImageMatch_stage2_diagnostic {Buffer : Type} (ext : Externals Buffer)
    (img nb file : Buffer) (oh : string) (stored : list string)
    (r : AdvancedImageMatcher.results) (tr : list event) :
  sharp_normalize ext img = inr nb ->
  sharp_toFile ext nb = inr file ->
  imageHash ext file = inr oh ->
  AdvancedImageMatcher.verifyImageMatch ext img stored = (Normal r, tr) ->
  Overall.matched (AdvancedImageMatcher.overall r) = false ->
  exists passed after,
    AdvancedImageMatcher.rotationAngles = passed ++ after /\
    (after = [] \/
     exists a rest e, after = a :: rest /\ rotated_fingerprint ext nb a = inl e) /\
    (forall a, In a passed ->
       exists rh, rotated_fingerprint ext nb a = inr rh /\
         forall x, In x stored ->
           JS.le (AdvancedImageMatcher.hammingDistance rh x) (Num 8) = false) /\
    is_minimum (Stage.distance (AdvancedImageMatcher.stage2_rotation r))
               (flat_map (rotation_distances ext nb stored) passed).
Proof.
  intros Hnorm Hfile Hhash Hrun Hun.
  destruct (verifyImageMatch_report ext img stored) as [tr' Hrep].
  rewrite Hrun in Hrep. injection Hrep as Hr _.
  rewrite Hr in Hun.
  destruct (report_unmatched ext img nb file oh stored Hnorm Hfile Hhash Hun)
    as [_ [passed [after [Hsplit [Hreport [Hall Hend]]]]]].
  exists passed, after.
  split; [ assumption | split; [ assumption | split; [ assumption | ] ] ].
  rewrite Hr, Hreport, angles_missed_distance.
  destruct (direct_misses_unmatched oh stored unmatched_initial) as [_ ->].
  apply fold_min_minimum.
  intros x Hx. apply in_flat_map in Hx. destruct Hx as [a [_ Hx]].
  unfold rotation_distances in Hx.
  destruct (rotated_fingerprint ext nb a) as [e | rh]; [ destruct Hx | ].
  apply in_map_iff in Hx. destruct Hx as [y [<- _]]. apply aim_distance_number.
Qed.

(** Rotation by 45 degrees fails: stage 2 goes through 5, 10, 15 and 30
    degrees and reports the smallest of the four distances. *)
Lemma verifyImageMatch_stage2_diagnostic_toy :
  exists passed after,
    AdvancedImageMatcher.rotationAngles = passed ++ after /\
    (after = [] \/
     exists a rest e,
       after = a :: rest /\
       rotated_fingerprint
         (Toy.world Toy.always Toy.not45 (fun _ => Toy.ones) ImageProcessor.zeroHash)
         (Toy.Normalized 1) a = inl e) /\
    (forall a, In a passed ->
       exists rh,
         rotated_fingerprint
           (Toy.world Toy.always Toy.not45 (fun _ => Toy.ones) ImageProcessor.zeroHash)
           (Toy.Normalized 1) a = inr rh /\
         forall x, In x [ImageProcessor.zeroHash] ->
           JS.le (AdvancedImageMatcher.hammingDistance rh x) (Num 8) = false) /\
    is_minimum (Num 256)
      (flat_map
         (rotation_distances
            (Toy.world Toy.always Toy.not45 (fun _ => Toy.ones) ImageProcessor.zeroHash)
            (Toy.Normalized 1) [ImageProcessor.zeroHash]) passed).
Proof.
  assert (exists r tr,
            AdvancedImageMatcher.verifyImageMatch
              (Toy.world Toy.always Toy.not45 (fun _ => Toy.ones) ImageProcessor.zeroHash)
              (Toy.Raw 1) [ImageProcessor.zeroHash] = (Normal r, tr) /\
            Overall.matched (AdvancedImageMatcher.overall r) = false /\
            Stage.distance (AdvancedImageMatcher.stage2_rotation r) = Num 256)
    as [r [tr [Hrun [Hun Hd]]]].
  { eexists. eexists. split; [ vm_compute; reflexivity | split; reflexivity ]. }
  rewrite <- Hd.
  exact (verifyImageMatch_stage2_diagnostic
           (Toy.world Toy.always Toy.not45 (fun _ => Toy.ones) ImageProcessor.zeroHash)
           (Toy.Raw 1) (Toy.Normalized 1) (Toy.Normalized 1)
           Toy.ones _ r tr eq_refl eq_refl eq_refl Hrun Hun).
Defined.

(** ** Similarity search: [areSimilar] and [findSimilarImages] *)

Module Similar.

(** [areSimilar(hash1, hash2, threshold)] of [ImageProcessor]. *)
Definition areSimilar (hash1 hash2 : string) (threshold : Z) : completion bool :=
  match ImageProcessor.hammingDistance hash1 hash2 with
  | Normal distance => Normal (distance <=? threshold)
  | Throw e => Throw e
  | Diverge => Diverge
  end.

(** An element of [similar]: [{ id, hash, distance }]. *)
Record item : Type := { id : string; hash : string; distance : Z }.

(** [array.sort(compare)].  The language requires the sort to be stable, and
    for a comparison that orders the elements consistently the result is
    then determined: it is the one that insertion from the right gives. *)
Fixpoint insert {A : Type} (compare : A -> A -> Z) (x : A) (l : list A) : list A :=
  match l with
  | [] => [x]
  | y :: rest =>
      if compare x y <=? 0 then x :: y :: rest
      else y :: insert compare x rest
  end.

Fixpoint Array_sort {A : Type} (compare : A -> A -> Z) (l : list A) : list A :=
  match l with
  | [] => []
  | x :: rest => insert compare x (Array_sort compare rest)
  end.

(** [for (const [id, hash] of imageHashes.entries()) { ... similar.push(...) }] *)
Fixpoint similar_loop (targetHash : string) (threshold : Z)
    (entries : list (string * string)) (similar : list item)
    : completion (list item) :=
  match entries with
  | [] => Normal similar
  | (id, hash) :: rest =>
      match areSimilar targetHash hash threshold with
      | Normal true =>
          match ImageProcessor.hammingDistance targetHash hash with
          | Normal d =>
              similar_loop targetHash threshold rest
                (similar ++ [{| id := id; hash := hash; distance := d |}])
          | Throw e => Throw e
          | Diverge => Diverge
          end
      | Normal false => similar_loop targetHash threshold rest similar
      | Throw e => Throw e
      | Diverge => Diverge
      end
  end.

(** [findSimilarImages(targetHash, imageHashes, threshold)]; the map from ids
    to hashes is given by its entries in insertion order. *)
Definition findSimilarImages (targetHash : string)
    (imageHashes : list (string * string)) (threshold : Z)
    : completion (list item) :=
  match similar_loop targetHash threshold imageHashes [] with
  | Normal similar => Normal (Array_sort (fun a b => distance a - distance b) similar)
  | Throw e => Throw e
  | Diverge => Diverge
  end.

End Similar.

Lemma xorb_triangle (a b c : bool) :
  Z.b2z (xorb a c) <= Z.b2z (xorb a b) + Z.b2z (xorb b c).
Proof. destruct a, b, c; cbn; lia. Qed.

Lemma popcount_triangle (x y z : Z) :
  0 <= x < 16 -> 0 <= y < 16 -> 0 <= z < 16 ->
  popcount (Z.lxor x z) <= popcount (Z.lxor x y) + popcount (Z.lxor y z).
Proof.
  intros Hx Hy Hz.
  rewrite (popcount_bits4 Hx Hz), (popcount_bits4 Hx Hy), (popcount_bits4 Hy Hz).
  unfold bits4. cbn [differing].
  pose proof (xorb_triangle (Z.testbit x 3) (Z.testbit y 3) (Z.testbit z 3)).
  pose proof (xorb_triangle (Z.testbit x 2) (Z.testbit y 2) (Z.testbit z 2)).
  pose proof (xorb_triangle (Z.testbit x 1) (Z.testbit y 1) (Z.testbit z 1)).
  pose proof (xorb_triangle (Z.testbit x 0) (Z.testbit y 0) (Z.testbit z 0)).
  repeat match goal with
         | |- context [Z.b2z ?b] =>
             let v := fresh "v" in set (v := Z.b2z b) in *; clearbody v
         end.
  lia.
Qed.

Lemma bit_distance_triangle (a b c : string) :
  String.length a = String.length b -> String.length b = String.length c ->
  bit_distance a c <= bit_distance a b + bit_distance b c.
Proof.
  revert b c. induction a as [| x a IH]; intros [| y b] [| z c] Hab Hbc;
    try discriminate.
  injection Hab as Hab. injection Hbc as Hbc.
  specialize (IH b c Hab Hbc). unfold bit_distance, sum in *.
  cbn [nibble_xor map fold_right].
  pose proof (popcount_triangle (nibble x) (nibble y) (nibble z)
                (nibble_range x) (nibble_range y) (nibble_range z)).
  lia.
Qed.

(** X9. The Hamming distance satisfies the triangle inequality: for three
    fingerprints of one length, both distance functions return values with
    [distance(a, c) <= distance(a, b) + distance(b, c)]. *)
Theorem hammingDistance_triangle (a b c : string) :
  String.length a = String.length b -> String.length b = String.length c ->
  exists dab dbc dac,
    ImageProcessor.hammingDistance a b = Normal dab /\
    ImageProcessor.hammingDistance b c = Normal dbc /\
    ImageProcessor.hammingDistance a c = Normal dac /\
    AdvancedImageMatcher.hammingDistance a b = Num dab /\
    AdvancedImageMatcher.hammingDistance b c = Num dbc /\
    AdvancedImageMatcher.hammingDistance a c = Num dac /\
    dac <= dab + dbc.
Proof.
  intros Hab Hbc.
  exists (bit_distance a b), (bit_distance b c), (bit_distance a c).
  assert (String.length a = String.length c) as Hac by congruence.
  repeat split;
    try (apply ip_distance_eq; assumption);
    try (apply aim_distance_eq; assumption).
  apply bit_distance_triangle; assumption.
Qed.

Lemma hammingDistance_triangle_toy :
  exists dab dbc dac,
    ImageProcessor.hammingDistance Toy.h1 Toy.near_h1 = Normal dab /\
    ImageProcessor.hammingDistance Toy.near_h1 Toy.ones = Normal dbc /\
    ImageProcessor.hammingDistance Toy.h1 Toy.ones = Normal dac /\
    AdvancedImageMatcher.hammingDistance Toy.h1 Toy.near_h1 = Num dab /\
    AdvancedImageMatcher.hammingDistance Toy.near_h1 Toy.ones = Num dbc /\
    AdvancedImageMatcher.hammingDistance Toy.h1 Toy.ones = Num dac /\
    dac <= dab + dbc.
Proof.
  exact (hammingDistance_triangle Toy.h1 Toy.near_h1 Toy.ones eq_refl eq_refl).
Defined.

(** X10. [areSimilar] is symmetric in its two fingerprints (it throws the
    same error both ways when their lengths differ); a fingerprint is
    similar to itself at every threshold that is not negative; what is
    similar at a threshold is similar at every larger one; and similarity
    chains: if [a] is similar to [b] at [s] and [b] to [c] at [t], then [a]
    is similar to [c] at [s + t]. *)
Theorem areSimilar_properties (a b c : string) (s t : Z) :
  Similar.areSimilar a b t = Similar.areSimilar b a t /\
  (0 <= t -> Similar.areSimilar a a t = Normal true) /\
  (Similar.areSimilar a b s = Normal true -> s <= t ->
   Similar.areSimilar a b t = Normal true) /\
  (Similar.areSimilar a b s = Normal true -> Similar.areSimilar b c t = Normal true ->
   Similar.areSimilar a c (s + t) = Normal true) /\
  (String.length a <> String.length b ->
   Similar.areSimilar a b t = Throw (Error "Hash lengths must be equal")).
Proof.
  unfold Similar.areSimilar. split; [ | split; [ | split; [ | split ] ] ].
  - destruct (ip_distance_cases a b) as [[Hlen ->] | [Hlen ->]].
    + rewrite (ip_distance_eq b a (eq_sym Hlen)), bit_distance_sym. reflexivity.
    + rewrite (ip_distance_mismatch b a (fun H => Hlen (eq_sym H))). reflexivity.
  - intros Ht. rewrite (ip_distance_eq a a eq_refl).
    assert (bit_distance a a = 0) as -> by (apply bit_distance_zero; reflexivity).
    f_equal. apply Z.leb_le. assumption.
  - destruct (ip_distance_cases a b) as [[Hlen ->] | [Hlen ->]]; [ | discriminate ].
    intros H Hst. injection H as H. apply Z.leb_le in H.
    f_equal. apply Z.leb_le. lia.
  - destruct (ip_distance_cases a b) as [[Hab ->] | [Hab ->]]; [ | discriminate ].
    destruct (ip_distance_cases b c) as [[Hbc ->] | [Hbc ->]];
      [ | intros _ H; discriminate ].
    intros H1 H2. injection H1 as H1. injection H2 as H2.
    apply Z.leb_le in H1. apply Z.leb_le in H2.
    rewrite (ip_distance_eq a c (eq_trans Hab Hbc)).
    f_equal. apply Z.leb_le.
    pose proof (bit_distance_triangle a b c Hab Hbc). lia.
  - intros Hlen. rewrite (ip_distance_mismatch a b Hlen). reflexivity.
Qed.

(** ** [findSimilarImages]: the selection and its order *)

From Stdlib Require Import Sorted.

(** A stable sort by an integer key, as [Array_sort] performs it with the
    comparison [(a, b) => key(a) - key(b)]. *)
Section SortByKey.

Context {A : Type} (key : A -> Z).

Let compare (a b : A) : Z := key a - key b.

Lemma insert_Forall (P : A -> Prop) (x : A) (l : list A) :
  P x -> Forall P l -> Forall P (Similar.insert compare x l).
Proof.
  intros Hx Hl. induction Hl as [| y l Hy Hl IH]; cbn.
  - constructor; [ assumption | constructor ].
  - destruct (compare x y <=? 0); repeat constructor; assumption.
Qed.

Lemma Array_sort_Forall (P : A -> Prop) (l : list A) :
  Forall P l -> Forall P (Similar.Array_sort compare l).
Proof.
  induction 1 as [| x l Hx Hl IH]; cbn; [ constructor | ].
  apply insert_Forall; assumption.
Qed.

Lemma insert_sorted (x : A) (l : list A) :
  StronglySorted (fun a b => key a <= key b) l ->
  StronglySorted (fun a b => key a <= key b) (Similar.insert compare x l).
Proof.
  induction 1 as [| y l Hl IH Hy]; cbn.
  - repeat constructor.
  - destruct (compare x y <=? 0) eqn:Hc; unfold compare in Hc.
    + apply Z.leb_le in Hc. constructor.
      * constructor; assumption.
      * constructor; [ lia | ].
        eapply Forall_impl; [ | exact Hy ]. cbn. intros; lia.
    + apply Z.leb_gt in Hc. constructor; [ exact IH | ].
      apply insert_Forall; [ lia | exact Hy ].
Qed.

Lemma Array_sort_sorted (l : list A) :
  StronglySorted (fun a b => key a <= key b) (Similar.Array_sort compare l).
Proof.
  induction l as [| x l IH]; cbn; [ constructor | ].
  apply insert_sorted. exact IH.
Qed.

(** Stability: the elements of one key keep their order. *)
Lemma insert_filter (d : Z) (x : A) (l : list A) :
  filter (fun a => key a =? d) (Similar.insert compare x l) =
  filter (fun a => key a =? d) (x :: l).
Proof.
  induction l as [| y l IH]; [ reflexivity | ].
  cbn [Similar.insert]. destruct (compare x y <=? 0) eqn:Hc; [ reflexivity | ].
  unfold compare in Hc. apply Z.leb_gt in Hc.
  cbn [filter] in *. rewrite IH.
  destruct (key y =? d) eqn:Hy, (key x =? d) eqn:Hx; try reflexivity.
  apply Z.eqb_eq in Hy. apply Z.eqb_eq in Hx. lia.
Qed.

Lemma Array_sort_filter (d : Z) (l : list A) :
  filter (fun a => key a =? d) (Similar.Array_sort compare l) =
  filter (fun a => key a =? d) l.
Proof.
  induction l as [| x l IH]; [ reflexivity | ].
  cbn [Similar.Array_sort]. rewrite insert_filter. cbn [filter]. rewrite IH.
  reflexivity.
Qed.

End SortByKey.

(** The entries [findSimilarImages] pushes, in the order of the iteration. *)
Definition within (targetHash : string) (threshold : Z)
    (entries : list (string * string)) : list Similar.item :=
  flat_map
    (fun e =>
       if bit_distance targetHash (snd e) <=? threshold
       then [{| Similar.id := fst e; Similar.hash := snd e;
                Similar.distance := bit_distance targetHash (snd e) |}]
       else [])
    entries.

Lemma similar_loop_run (targetHash : string) (threshold : Z)
    (entries : list (string * string)) (similar : list Similar.item) :
  Forall (fun e => String.length (snd e) = String.length targetHash) entries ->
  Similar.similar_loop targetHash threshold entries similar =
  Normal (similar ++ within targetHash threshold entries).
Proof.
  intros Hlen. revert similar.
  induction Hlen as [| [id hash] entries Hh Hlen IH]; intros similar; cbn.
  - rewrite app_nil_r. reflexivity.
  - cbn in Hh. unfold Similar.areSimilar.
    rewrite (ip_distance_eq targetHash hash (eq_sym Hh)).
    destruct (bit_distance targetHash hash <=? threshold).
    + rewrite IH, <- app_assoc. reflexivity.
    + rewrite IH. reflexivity.
Qed.

Lemma similar_loop_mismatch (targetHash : string) (threshold : Z)
    (entries : list (string * string)) (similar : list Similar.item) :
  Exists (fun e => String.length (snd e) <> String.length targetHash) entries ->
  Similar.similar_loop targetHash threshold entries similar =
  Throw (Error "Hash lengths must be equal").
Proof.
  revert similar. induction entries as [| [id hash] entries IH]; intros similar Hex.
  - inversion Hex.
  - cbn [Similar.similar_loop]. unfold Similar.areSimilar.
    destruct (ip_distance_cases targetHash hash) as [[Hlen ->] | [Hlen ->]];
      [ | reflexivity ].
    assert (Exists (fun e => String.length (snd e) <> String.length targetHash)
              entries) as Hrest.
    { inversion Hex as [? ? Hhead | ? ? Htail]; subst; [ | assumption ].
      cbn in Hhead. congruence. }
    destruct (bit_distance targetHash hash <=? threshold); apply IH; assumption.
Qed.

Lemma within_Forall (targetHash : string) (threshold : Z)
    (entries : list (string * string)) :
  Forall (fun e => String.length (snd e) = String.length targetHash) entries ->
  Forall (fun it =>
            In (Similar.id it, Similar.hash it) entries /\
            ImageProcessor.hammingDistance targetHash (Similar.hash it) =
              Normal (Similar.distance it) /\
            Similar.distance it <= threshold)
         (within targetHash threshold entries).
Proof.
  induction 1 as [| [id hash] entries Hh Hlen IH]; cbn; [ constructor | ].
  cbn in Hh.
  assert (Forall (fun it =>
            In (Similar.id it, Similar.hash it) ((id, hash) :: entries) /\
            ImageProcessor.hammingDistance targetHash (Similar.hash it) =
              Normal (Similar.distance it) /\
            Similar.distance it <= threshold)
            (within targetHash threshold entries)) as IH'.
  { eapply Forall_impl; [ | exact IH ]. cbn. intros it [Hin Hrest].
    split; [ right; exact Hin | exact Hrest ]. }
  destruct (bit_distance targetHash hash <=? threshold) eqn:Hd; [ | exact IH' ].
  cbn. constructor; [ | exact IH' ]. cbn.
  split; [ left; reflexivity | ].
  split; [ apply ip_distance_eq; congruence | apply Z.leb_le; exact Hd ].
Qed.

(** Whether a store entry lies at distance [d] of the target. *)
Definition at_distance (targetHash : string) (d : Z) (e : string * string) : bool :=
  match ImageProcessor.hammingDistance targetHash (snd e) with
  | Normal x => x =? d
  | _ => false
  end.

Lemma within_filter (targetHash : string) (threshold d : Z)
    (entries : list (string * string)) :
  Forall (fun e => String.length (snd e) = String.length targetHash) entries ->
  d <= threshold ->
  map (fun it => (Similar.id it, Similar.hash it))
      (filter (fun it => Similar.distance it =? d)
              (within targetHash threshold entries)) =
  filter (at_distance targetHash d) entries.
Proof.
  intros Hlen Hd.
  induction Hlen as [| [id hash] entries Hh Hlen IH]; [ reflexivity | ].
  cbn in Hh. cbn [within flat_map filter fst snd]. unfold at_distance at 1.
  cbn [snd]. rewrite (ip_distance_eq targetHash hash (eq_sym Hh)).
  fold (within targetHash threshold entries).
  destruct (bit_distance targetHash hash <=? threshold) eqn:Hle.
  - cbn [app filter Similar.distance].
    destruct (bit_distance targetHash hash =? d); cbn; rewrite IH; reflexivity.
  - cbn [app]. apply Z.leb_gt in Hle.
    destruct (bit_distance targetHash hash =? d) eqn:He.
    + apply Z.eqb_eq in He. lia.
    + exact IH.
Qed.

(** X11. When every stored fingerprint has the length of the target,
    [findSimilarImages] returns a list that is sorted by distance; each item
    is an entry of the store with its Hamming distance to the target, which
    is within the threshold; and for every distance [d] up to the threshold
    the items at distance [d] are exactly the store's entries at distance
    [d], in the order of the store (nothing is lost or repeated, and ties
    keep the store's order). *)
Theorem findSimilarImages_sorted_selection (targetHash : string)
    (imageHashes : list (string * string)) (threshold : Z) :
  Forall (fun e => String.length (snd e) = String.length targetHash) imageHashes ->
  exists result,
    Similar.findSimilarImages targetHash imageHashes threshold = Normal result /\
    StronglySorted (fun a b => Similar.distance a <= Similar.distance b) result /\
    Forall (fun it =>
              In (Similar.id it, Similar.hash it) imageHashes /\
              ImageProcessor.hammingDistance targetHash (Similar.hash it) =
                Normal (Similar.distance it) /\
              Similar.distance it <= threshold)
           result /\
    (forall d, d <= threshold ->
       map (fun it => (Similar.id it, Similar.hash it))
           (filter (fun it => Similar.distance it =? d) result) =
       filter (at_distance targetHash d) imageHashes).
Proof.
  intros Hlen. unfold Similar.findSimilarImages.
  rewrite (similar_loop_run targetHash threshold imageHashes [] Hlen).
  cbn [app]. eexists. split; [ reflexivity | ].
  split; [ apply (Array_sort_sorted Similar.distance) | ].
  split.
  - apply (Array_sort_Forall Similar.distance). apply within_Forall. exact Hlen.
  - intros d Hd. rewrite (Array_sort_filter Similar.distance).
    apply within_filter; assumption.
Qed.

Lemma findSimilarImages_toy_store :
  exists result,
    Similar.findSimilarImages Toy.h1
      [("far", Toy.ones); ("b", Toy.near_h1); ("a", Toy.h1); ("c", Toy.near_h1)]
      5 = Normal result /\
    StronglySorted (fun a b => Similar.distance a <= Similar.distance b) result /\
    Forall (fun it =>
              In (Similar.id it, Similar.hash it)
                 [("far", Toy.ones); ("b", Toy.near_h1); ("a", Toy.h1);
                  ("c", Toy.near_h1)] /\
              ImageProcessor.hammingDistance Toy.h1 (Similar.hash it) =
                Normal (Similar.distance it) /\
              Similar.distance it <= 5)
           result /\
    (forall d, d <= 5 ->
       map (fun it => (Similar.id it, Similar.hash it))
           (filter (fun it => Similar.distance it =? d) result) =
       filter (at_distance Toy.h1 d)
         [("far", Toy.ones); ("b", Toy.near_h1); ("a", Toy.h1); ("c", Toy.near_h1)]).
Proof.
  apply (findSimilarImages_sorted_selection Toy.h1
           [("far", Toy.ones); ("b", Toy.near_h1); ("a", Toy.h1); ("c", Toy.near_h1)]
           5).
  repeat constructor.
Defined.

(** X12. One stored fingerprint whose length differs from the target's makes
    [findSimilarImages] fail with 'Hash lengths must be equal', whatever the
    other entries are: the comparison is not guarded. *)
Theorem findSimilarImages_length_mismatch (targetHash : string)
    (imageHashes : list (string * string)) (threshold : Z) :
  Exists (fun e => String.length (snd e) <> String.length targetHash) imageHashes ->
  Similar.findSimilarImages targetHash imageHashes threshold =
  Throw (Error "Hash lengths must be equal").
Proof.
  intros Hex. unfold Similar.findSimilarImages.
  rewrite (similar_loop_mismatch targetHash threshold imageHashes [] Hex).
  reflexivity.
Qed.

Lemma findSimilarImages_short_entry :
  Similar.findSimilarImages Toy.h1 [("a", Toy.h1); ("short", "ffff")] 5 =
  Throw (Error "Hash lengths must be equal").
Proof.
  apply (findSimilarImages_length_mismatch Toy.h1
           [("a", Toy.h1); ("short", "ffff")] 5).
  apply Exists_cons_tl. apply Exists_cons_hd. vm_compute. discriminate.
Defined.

(** ** [countSetBits] on 32-bit operands *)

(** The number of set bits among the [w] lowest bits of [n]. *)
Definition setBits (w : nat) (n : Z) : Z :=
  sum (map (fun i => Z.b2z (Z.testbit n (Z.of_nat i))) (seq 0 w)).

Lemma setBits_succ (w : nat) (n : Z) :
  setBits (S w) n = Z.land n 1 + setBits w (Z.shiftr n 1).
Proof.
  unfold setBits, sum. cbn [seq map fold_right]. f_equal.
  - change 1 with (Z.ones 1). rewrite Z.land_ones by lia.
    change (2 ^ 1) with 2. rewrite <- Z.bit0_mod. reflexivity.
  - rewrite <- seq_shift, map_map. f_equal. apply map_ext. intros i.
    rewrite Z.shiftr_spec by lia. do 2 f_equal. lia.
Qed.

Lemma countSetBits_loop_run (w : nat) :
  forall (fuel : nat) (n count : Z),
    (w <= fuel)%nat -> 0 <= n < 2 ^ Z.of_nat w ->
    ImageProcessor.countSetBits_loop fuel n count = Some (count + setBits w n).
Proof.
  induction w as [| w IH]; intros fuel n count Hfuel Hn.
  - assert (n = 0) as -> by (change (2 ^ Z.of_nat 0) with 1 in Hn; lia).
    destruct fuel; cbn; f_equal; unfold setBits, sum; cbn; lia.
  - destruct fuel as [| fuel]; [ lia | ].
    cbn [ImageProcessor.countSetBits_loop].
    destruct (n =? 0) eqn:Hz.
    + apply Z.eqb_eq in Hz. subst n. f_equal.
      rewrite setBits_succ. rewrite Z.shiftr_0_l. cbn [Z.land].
      assert (forall k, setBits k 0 = 0) as H0.
      { intros k. unfold setBits, sum. induction (seq 0 k) as [| i l IHl];
          [ reflexivity | ]. cbn [map fold_right]. rewrite IHl, Z.testbit_0_l.
        reflexivity. }
      rewrite H0. lia.
    + rewrite IH.
      * rewrite setBits_succ. f_equal. lia.
      * lia.
      * rewrite Z.shiftr_div_pow2 by lia. change (2 ^ 1) with 2.
        rewrite Nat2Z.inj_succ, Z.pow_succ_r in Hn by lia.
        split; [ apply Z.div_pos; lia | apply Z.div_lt_upper_bound; lia ].
Qed.

Lemma countSetBits_loop_negative (fuel : nat) :
  forall (n count : Z), n < 0 ->
    ImageProcessor.countSetBits_loop fuel n count = None.
Proof.
  induction fuel as [| fuel IH]; intros n count Hn;
    cbn [ImageProcessor.countSetBits_loop];
    (destruct (n =? 0) eqn:Hz; [ apply Z.eqb_eq in Hz; lia | ]).
  - reflexivity.
  - apply IH. apply Z.shiftr_neg. exact Hn.
Qed.

(** X13. On a non-negative 32-bit integer [countSetBits] ends and returns
    the number of set bits among its 31 value bits. *)
Theorem countSetBits_counts (n : Z) :
  0 <= n < 2 ^ 31 ->
  ImageProcessor.countSetBits n = Normal (setBits 31 n).
Proof.
  intros Hn. unfold ImageProcessor.countSetBits.
  rewrite (countSetBits_loop_run 31 32 n 0) by (cbn; lia).
  reflexivity.
Qed.

Lemma countSetBits_max_int :
  ImageProcessor.countSetBits 2147483647 = Normal 31.
Proof.
  change (Normal 31) with (Normal (A := Z) (setBits 31 2147483647)).
  apply (countSetBits_counts 2147483647). lia.
Defined.

(** X14. On a negative 32-bit integer the loop of [countSetBits] never
    ends: [n >>= 1] keeps the sign, so [n] never becomes [0], whatever the
    number of iterations allowed. *)
Theorem countSetBits_negative_never_ends (n : Z) :
  - 2 ^ 31 <= n < 0 ->
  (forall fuel count, ImageProcessor.countSetBits_loop fuel n count = None) /\
  ImageProcessor.countSetBits n = Diverge.
Proof.
  intros [_ Hn]. split.
  - intros fuel count. apply countSetBits_loop_negative. exact Hn.
  - unfold ImageProcessor.countSetBits.
    rewrite countSetBits_loop_negative by exact Hn. reflexivity.
Qed.

Lemma countSetBits_minus_one :
  (forall fuel count, ImageProcessor.countSetBits_loop fuel (-1) count = None) /\
  ImageProcessor.countSetBits (-1) = Diverge.
Proof.
  apply (countSetBits_negative_never_ends (-1)). lia.
Defined.

(** ** The utilities [hexToBinary] and [binaryToHex] *)

From Stdlib Require HexadecimalString.

Module Hex.

(** [x.toString(2)] *)
Definition Number_toString2 (x : number) : string :=
  match x with
  | Num z => toString2 z
  | Infinity => "Infinity"
  | NaN => "NaN"
  end.

(** [x.toString(16)] (of an integer) *)
Definition Number_toString16 (x : number) : string :=
  match x with
  | Num z => HexadecimalString.NilZero.string_of_int (Z.to_hex_int z)
  | Infinity => "Infinity"
  | NaN => "NaN"
  end.

Fixpoint zeros (n : nat) : string :=
  match n with
  | O => ""
  | S k => String "0" (zeros k)
  end.

(** [s.padStart(targetLength, '0')] *)
Definition padStart0 (targetLength : nat) (s : string) : string :=
  zeros (targetLength - String.length s) ++ s.

(** [pieces.join('')] *)
Definition join (pieces : list string) : string := String.concat "" pieces.

(** [char => parseInt(char, 16).toString(2).padStart(4, '0')] *)
Definition binaryOfChar (char : ascii) : string :=
  padStart0 4 (Number_toString2 (parseInt16 (Some char))).

(** [hexToBinary(hex)] *)
Definition hexToBinary (hex : string) : string :=
  join (map binaryOfChar (list_ascii_of_string hex)).

(** The characters [.] does not match, among the code units below 256. *)
Definition lineTerminator (c : ascii) : bool :=
  let n := nat_of_ascii c in Nat.eqb n 10 || Nat.eqb n 13.

(** [binary.match(/.{4}/g) || []]: from left to right, four characters that
    are not line terminators make a chunk and the search goes on behind
    them; otherwise it goes on one character further. *)
Fixpoint match_dot4 (binary : string) : list string :=
  match binary with
  | String a ((String b (String c (String d rest))) as tail) =>
      if lineTerminator a || lineTerminator b || lineTerminator c || lineTerminator d
      then match_dot4 tail
      else String a (String b (String c (String d ""))) :: match_dot4 rest
  | _ => []
  end.

(** White space as [parseInt] skips it, among the code units below 256. *)
Definition whiteSpace (c : ascii) : bool :=
  let n := nat_of_ascii c in
  Nat.eqb n 9 || Nat.eqb n 10 || Nat.eqb n 11 || Nat.eqb n 12 || Nat.eqb n 13 ||
  Nat.eqb n 32 || Nat.eqb n 160.

Fixpoint trimStart (s : string) : string :=
  match s with
  | String c rest => if whiteSpace c then trimStart rest else s
  | EmptyString => s
  end.

(** The longest prefix of binary digits. *)
Fixpoint binaryPrefix (s : string) : list bool :=
  match s with
  | String c rest =>
      if Ascii.eqb c "0" then false :: binaryPrefix rest
      else if Ascii.eqb c "1" then true :: binaryPrefix rest
      else []
  | EmptyString => []
  end.

Definition valueOf (digits : list bool) : Z :=
  fold_left (fun acc b => 2 * acc + Z.b2z b) digits 0.

(** [parseInt(s, 2)]: white space is skipped, a sign is read, then the
    longest prefix of binary digits; [NaN] when there is none.  (The chunks
    it is applied to have four characters, so the value is below 16.) *)
Definition parseInt2 (s : string) : number :=
  let trimmed := trimStart s in
  let '(sign, body) :=
    match trimmed with
    | String c rest =>
        if Ascii.eqb c "-" then (-1, rest)
        else if Ascii.eqb c "+" then (1, rest)
        else (1, trimmed)
    | EmptyString => (1, trimmed)
    end in
  match binaryPrefix body with
  | [] => NaN
  | digits => Num (sign * valueOf digits)
  end.

(** [chunk => parseInt(chunk, 2).toString(16)] *)
Definition hexOfChunk (chunk : string) : string :=
  Number_toString16 (parseInt2 chunk).

(** [binaryToHex(binary)] *)
Definition binaryToHex (binary : string) : string :=
  join (map hexOfChunk (match_dot4 binary)).

End Hex.

(** A string with every character replaced by the lower-case digit of the
    nibble it stands for. *)
Fixpoint canonical (s : string) : string :=
  match s with
  | EmptyString => ""
  | String c rest => String (hexChar (nibble c)) (canonical rest)
  end.

(** A string of binary digits. *)
Fixpoint binaryString (s : string) : bool :=
  match s with
  | EmptyString => true
  | String c rest => (Ascii.eqb c "0" || Ascii.eqb c "1") && binaryString rest
  end.

Lemma string_app_nil_r (x : string) : (x ++ "")%string = x.
Proof. induction x as [| c x IH]; cbn; [ reflexivity | rewrite IH; reflexivity ]. Qed.

Lemma join_cons (x : string) (xs : list string) :
  Hex.join (x :: xs) = (x ++ Hex.join xs)%string.
Proof.
  unfold Hex.join. destruct xs as [| y ys]; cbn [String.concat].
  - rewrite string_app_nil_r. reflexivity.
  - reflexivity.
Qed.

Lemma string_length_app (a b : string) :
  String.length (a ++ b)%string = (String.length a + String.length b)%nat.
Proof. induction a as [| c a IH]; cbn; [ reflexivity | rewrite IH; reflexivity ]. Qed.

(** Every character gives a chunk of four characters, which [binaryToHex]
    reads back as the digit of its nibble; checked on the 256 characters. *)
Definition chunk_ok (char : ascii) : bool :=
  match Hex.binaryOfChar char with
  | String a (String b (String c (String d EmptyString))) =>
      negb (Hex.lineTerminator a || Hex.lineTerminator b ||
            Hex.lineTerminator c || Hex.lineTerminator d) &&
      String.eqb (Hex.hexOfChunk (Hex.binaryOfChar char))
                 (String (hexChar (nibble char)) "")
  | _ => false
  end.

Lemma chunk_ok_all (char : ascii) : chunk_ok char = true.
Proof.
  assert (forallb chunk_ok (map ascii_of_nat (seq 0 256)) = true) as Hall
    by (vm_compute; reflexivity).
  rewrite forallb_forall in Hall. apply Hall.
  rewrite <- (ascii_nat_embedding char). apply in_map. apply in_seq.
  pose proof (nat_ascii_bounded char). lia.
Qed.

Lemma binaryOfChar_chunk (char : ascii) :
  exists a b c d,
    Hex.binaryOfChar char = String a (String b (String c (String d ""))) /\
    (Hex.lineTerminator a || Hex.lineTerminator b ||
     Hex.lineTerminator c || Hex.lineTerminator d) = false /\
    Hex.hexOfChunk (Hex.binaryOfChar char) = String (hexChar (nibble char)) "".
Proof.
  pose proof (chunk_ok_all char) as Hok. unfold chunk_ok in Hok.
  destruct (Hex.binaryOfChar char) as [| a [| b [| c [| d [| e rest]]]]];
    try discriminate.
  apply andb_prop in Hok as [Hlt Hback].
  exists a, b, c, d. split; [ reflexivity | ].
  split; [ apply negb_true_iff; exact Hlt | apply String.eqb_eq; exact Hback ].
Qed.

Lemma binaryToHex_hexToBinary_canonical (hex : string) :
  Hex.binaryToHex (Hex.hexToBinary hex) = canonical hex.
Proof.
  unfold Hex.binaryToHex, Hex.hexToBinary.
  induction hex as [| char hex IH]; [ reflexivity | ].
  cbn [list_ascii_of_string map canonical]. rewrite join_cons.
  destruct (binaryOfChar_chunk char) as [a [b [c [d [Hchunk [Hlt Hback]]]]]].
  rewrite Hchunk in *. cbn [append Hex.match_dot4]. rewrite Hlt.
  cbn [map]. rewrite join_cons, Hback, IH. reflexivity.
Qed.

Lemma hexToBinary_length (hex : string) :
  String.length (Hex.hexToBinary hex) = (4 * String.length hex)%nat.
Proof.
  unfold Hex.hexToBinary.
  induction hex as [| char hex IH]; [ reflexivity | ].
  cbn [list_ascii_of_string map]. rewrite join_cons, string_length_app, IH.
  destruct (binaryOfChar_chunk char) as [a [b [c [d [Hchunk _]]]]].
  rewrite Hchunk. cbn [String.length]. lia.
Qed.

Lemma canonical_lowerHex (s : string) : lowerHex s = true -> canonical s = s.
Proof.
  induction s as [| c s IH]; [ reflexivity | ].
  cbn [lowerHex canonical]. intros H. apply andb_prop in H as [Hc Hs].
  rewrite (hexChar_nibble c Hc), (IH Hs). reflexivity.
Qed.

(** X15. [hexToBinary] writes four characters for every character of its
    argument, and [binaryToHex] reads them back as one digit: the
    composition returns the argument with every hexadecimal digit in lower
    case and every other character replaced by [0]. *)
Theorem binaryToHex_after_hexToBinary (hex : string) :
  String.length (Hex.hexToBinary hex) = (4 * String.length hex)%nat /\
  Hex.binaryToHex (Hex.hexToBinary hex) = canonical hex /\
  String.length (Hex.binaryToHex (Hex.hexToBinary hex)) = String.length hex.
Proof.
  split; [ apply hexToBinary_length | ].
  rewrite binaryToHex_hexToBinary_canonical. split; [ reflexivity | ].
  induction hex as [| c hex IH]; cbn; [ reflexivity | rewrite IH; reflexivity ].
Qed.

(** X16. On a fingerprint in lower-case hexadecimal, [binaryToHex] undoes
    [hexToBinary]. *)
Theorem hexToBinary_round_trip (hex : string) :
  lowerHex hex = true ->
  Hex.binaryToHex (Hex.hexToBinary hex) = hex.
Proof.
  intros Hhex. rewrite binaryToHex_hexToBinary_canonical.
  apply canonical_lowerHex. exact Hhex.
Qed.

Lemma hexToBinary_round_trip_h1 :
  Hex.binaryToHex (Hex.hexToBinary Toy.h1) = Toy.h1.
Proof.
  apply (hexToBinary_round_trip Toy.h1). vm_compute. reflexivity.
Defined.

(** A chunk of four binary digits is written back by [hexToBinary]. *)
Lemma hexOfChunk_binary (a b c d : ascii) :
  (Ascii.eqb a "0" || Ascii.eqb a "1") = true ->
  (Ascii.eqb b "0" || Ascii.eqb b "1") = true ->
  (Ascii.eqb c "0" || Ascii.eqb c "1") = true ->
  (Ascii.eqb d "0" || Ascii.eqb d "1") = true ->
  (Hex.lineTerminator a || Hex.lineTerminator b ||
   Hex.lineTerminator c || Hex.lineTerminator d) = false /\
  Hex.hexToBinary (Hex.hexOfChunk (String a (String b (String c (String d ""))))) =
  String a (String b (String c (String d ""))).
Proof.
  intros Ha Hb Hc Hd.
  apply orb_prop in Ha, Hb, Hc, Hd.
  destruct Ha as [Ha | Ha], Hb as [Hb | Hb], Hc as [Hc | Hc], Hd as [Hd | Hd];
    apply Ascii.eqb_eq in Ha, Hb, Hc, Hd; subst a b c d;
    split; vm_compute; reflexivity.
Qed.

Lemma hexToBinary_app_digit (chunk rest : string) (c : ascii) :
  Hex.hexOfChunk chunk = String c "" ->
  Hex.hexToBinary (Hex.hexOfChunk chunk ++ rest)%string =
  (Hex.hexToBinary (Hex.hexOfChunk chunk) ++ Hex.hexToBinary rest)%string.
Proof.
  intros ->. unfold Hex.hexToBinary. cbn [append list_ascii_of_string map].
  rewrite !join_cons. change (Hex.join []) with "".
  rewrite string_app_nil_r. reflexivity.
Qed.

Lemma hexOfChunk_digit (a b c d : ascii) :
  (Ascii.eqb a "0" || Ascii.eqb a "1") = true ->
  (Ascii.eqb b "0" || Ascii.eqb b "1") = true ->
  (Ascii.eqb c "0" || Ascii.eqb c "1") = true ->
  (Ascii.eqb d "0" || Ascii.eqb d "1") = true ->
  exists x, Hex.hexOfChunk (String a (String b (String c (String d "")))) =
            String x "".
Proof.
  intros Ha Hb Hc Hd.
  apply orb_prop in Ha, Hb, Hc, Hd.
  destruct Ha as [Ha | Ha], Hb as [Hb | Hb], Hc as [Hc | Hc], Hd as [Hd | Hd];
    apply Ascii.eqb_eq in Ha, Hb, Hc, Hd; subst a b c d;
    eexists; vm_compute; reflexivity.
Qed.

Lemma hexToBinary_binaryToHex_prefix (n : nat) :
  forall binary, (String.length binary <= n)%nat -> binaryString binary = true ->
    exists tail,
      binary = (Hex.hexToBinary (Hex.binaryToHex binary) ++ tail)%string /\
      (String.length tail < 4)%nat.
Proof.
  induction n as [| n IH]; intros binary Hn Hbin.
  - destruct binary; [ | cbn in Hn; lia ]. exists "". split; [ reflexivity | cbn; lia ].
  - destruct binary as [| a [| b [| c [| d rest]]]];
      try (eexists; split; [ reflexivity | cbn; lia ]).
    cbn [binaryString] in Hbin.
    apply andb_prop in Hbin as [Ha Hbin]. apply andb_prop in Hbin as [Hb Hbin].
    apply andb_prop in Hbin as [Hc Hbin]. apply andb_prop in Hbin as [Hd Hbin].
    destruct (IH rest) as [tail [Hrest Htail]];
      [ cbn [String.length] in Hn; lia | exact Hbin | ].
    exists tail. split; [ | exact Htail ].
    destruct (hexOfChunk_binary a b c d Ha Hb Hc Hd) as [Hlt Hback].
    destruct (hexOfChunk_digit a b c d Ha Hb Hc Hd) as [x Hx].
    unfold Hex.binaryToHex. cbn [Hex.match_dot4]. rewrite Hlt. cbn [map].
    rewrite join_cons. rewrite (hexToBinary_app_digit _ _ x Hx), Hback.
    cbn [append]. do 4 f_equal. exact Hrest.
Qed.

(** X17. On a string of binary digits, [hexToBinary] undoes [binaryToHex]
    up to the last incomplete group: the composition returns the string
    without its last [length mod 4] characters, so it is the identity
    exactly on whole groups of four. *)
Theorem binaryToHex_round_trip (binary : string) :
  binaryString binary = true ->
  exists tail,
    binary = (Hex.hexToBinary (Hex.binaryToHex binary) ++ tail)%string /\
    String.length tail = (String.length binary mod 4)%nat.
Proof.
  intros Hbin.
  destruct (hexToBinary_binaryToHex_prefix (String.length binary) binary
              (Nat.le_refl _) Hbin) as [tail [Heq Htail]].
  exists tail. split; [ exact Heq | ].
  pose proof (f_equal String.length Heq) as Hlen.
  rewrite string_length_app, hexToBinary_length in Hlen.
  rewrite Hlen, Nat.add_comm, Nat.mul_comm, Nat.Div0.mod_add.
  symmetry. apply Nat.mod_small. exact Htail.
Qed.

Lemma binaryToHex_round_trip_six_digits :
  exists tail,
    "101101" = (Hex.hexToBinary (Hex.binaryToHex "101101") ++ tail)%string /\
    String.length tail = (String.length "101101" mod 4)%nat.
Proof.
  apply (binaryToHex_round_trip "101101"). vm_compute. reflexivity.
Defined.

(** ** [batchProcess] *)

Module Batch.

(** [options]: a property that is absent takes its default. *)
Record options : Type :=
  { width : option Z; height : option Z; quality : option Z }.

Section WithExternals.

Context {Buffer Metadata : Type} (ext : Externals Buffer).

(** [sharp(b).resize(width, height, { fit: 'inside', withoutEnlargement: true })
    .jpeg({ quality }).toBuffer()] *)
Variable sharp_process : Z -> Z -> Z -> Buffer -> exn + Buffer.

(** [sharp(b).metadata()], read at the fields [width], [height], [format],
    [size], [density], [hasAlpha] and [orientation]. *)
Variable sharp_metadata : Buffer -> exn + Metadata.

(** [processImage(imageBuffer, options)]: the handler logs and rethrows. *)
Definition processImage (imageBuffer : Buffer) (opts : options) : M unit Buffer :=
  let width := match width opts with Some w => w | None => 800 end in
  let height := match height opts with Some h => h | None => 600 end in
  let quality := match quality opts with Some q => q | None => 80 end in
  try_catch
    (call (sharp_process width height quality imageBuffer))
    (fun error => throw error).

(** [extractMetadata(imageBuffer)]: the handler logs and rethrows. *)
Definition extractMetadata (imageBuffer : Buffer) : M unit Metadata :=
  try_catch
    (call (sharp_metadata imageBuffer))
    (fun error => throw error).

(** An element of [results]: [{ index, processed, pHash, metadata, success:
    true }] or [{ index, error, success: false }]. *)
Inductive entry : Type :=
| Processed (index : nat) (processed : Buffer) (pHash : string) (metadata : Metadata)
| Failed (index : nat) (error : string).

Definition index (e : entry) : nat :=
  match e with
  | Processed i _ _ _ => i
  | Failed i _ => i
  end.

Definition success (e : entry) : bool :=
  match e with
  | Processed _ _ _ _ => true
  | Failed _ _ => false
  end.

(** [error.message] *)
Definition message (error : exn) : string :=
  match error with Error m => m end.

(** The body of [for (let i = 0; i < imageBuffers.length; i++)]. *)
Definition batch_step (i : nat) (imageBuffer : Buffer) (opts : options)
    : M unit entry :=
  try_catch
    (processed <- processImage imageBuffer opts ;;
     pHash <- ImageProcessor.generatePHashFromBuffer ext processed ;;
     metadata <- extractMetadata imageBuffer ;;
     ret (Processed i processed pHash metadata))
    (fun error => ret (Failed i (message error))).

Fixpoint batch_loop (imageBuffers : list Buffer) (i : nat) (opts : options)
    (results : list entry) : M unit (list entry) :=
  match imageBuffers with
  | [] => ret results
  | imageBuffer :: rest =>
      e <- batch_step i imageBuffer opts ;;
      batch_loop rest (S i) opts (results ++ [e])
  end.

(** [batchProcess(imageBuffers, options)] *)
Definition batchProcess (imageBuffers : list Buffer) (opts : options)
    : M unit (list entry) :=
  batch_loop imageBuffers 0 opts [].

End WithExternals.

End Batch.

(** How a call from the initial state ends. *)
Definition outcome {A : Type} (m : M unit A) : completion A := fst (fst (m tt)).

Section BatchProcess.

Context {Buffer Metadata : Type} (ext : Externals Buffer).
Variable sharp_process : Z -> Z -> Z -> Buffer -> exn + Buffer.
Variable sharp_metadata : Buffer -> exn + Metadata.

(** What an entry says about the image it was made from. *)
Definition entry_for (opts : Batch.options) (imageBuffer : Buffer)
    (e : Batch.entry (Buffer := Buffer) (Metadata := Metadata)) : Prop :=
  match e with
  | Batch.Processed _ processed pHash metadata =>
      outcome (Batch.processImage sharp_process imageBuffer opts) = Normal processed /\
      outcome (ImageProcessor.generatePHashFromBuffer ext processed) = Normal pHash /\
      outcome (Batch.extractMetadata sharp_metadata imageBuffer) = Normal metadata
  | Batch.Failed _ msg =>
      outcome (Batch.processImage sharp_process imageBuffer opts) = Throw (Error msg) \/
      exists processed,
        outcome (Batch.processImage sharp_process imageBuffer opts) = Normal processed /\
        (outcome (ImageProcessor.generatePHashFromBuffer ext processed) =
           Throw (Error msg) \/
         exists pHash,
           outcome (ImageProcessor.generatePHashFromBuffer ext processed) =
             Normal pHash /\
           outcome (Batch.extractMetadata sharp_metadata imageBuffer) =
             Throw (Error msg))
  end.

Lemma generatePHashFromBuffer_run (imageBuffer : Buffer) :
  exists t,
    ImageProcessor.generatePHashFromBuffer ext imageBuffer tt =
    (match bundle_result ext imageBuffer with
     | Normal b => Normal (ImageProcessor.primary b)
     | Throw e => Throw e
     | Diverge => Diverge
     end, tt, t) /\
    bundle_result ext imageBuffer <> Diverge.
Proof.
  unfold ImageProcessor.generatePHashFromBuffer, bind.
  destruct (generateRobustPHashFromBuffer_run ext imageBuffer tt) as [t [Hrun _]].
  rewrite Hrun.
  assert (bundle_result ext imageBuffer <> Diverge) as Hd.
  { unfold bundle_result.
    destruct (sharp_normalize ext imageBuffer) as [e | nb]; [ discriminate | ].
    destruct (variant_fingerprint ext nb Original) as [e | h]; [ discriminate | ].
    destruct (variants_result ext nb variant_transforms _) as [hashes | e |] eqn:E.
    - destruct (String.eqb h ImageProcessor.zeroHash); [ | discriminate ].
      destruct (sharp_describe ext nb); discriminate.
    - discriminate.
    - exfalso. exact (variants_result_total _ _ _ _ E). }
  destruct (bundle_result ext imageBuffer) as [b | e |].
  - cbn. eexists. split; [ reflexivity | exact Hd ].
  - eexists. split; [ reflexivity | exact Hd ].
  - exfalso. apply Hd. reflexivity.
Qed.

Lemma processImage_run (imageBuffer : Buffer) (opts : Batch.options) :
  Batch.processImage sharp_process imageBuffer opts tt =
  (match sharp_process
           (match Batch.width opts with Some w => w | None => 800 end)
           (match Batch.height opts with Some h => h | None => 600 end)
           (match Batch.quality opts with Some q => q | None => 80 end)
           imageBuffer with
   | inl e => Throw e
   | inr processed => Normal processed
   end, tt, []).
Proof.
  unfold Batch.processImage, try_catch, call.
  destruct (sharp_process _ _ _ imageBuffer); reflexivity.
Qed.

Lemma extractMetadata_run (imageBuffer : Buffer) :
  Batch.extractMetadata sharp_metadata imageBuffer tt =
  (match sharp_metadata imageBuffer with
   | inl e => Throw e
   | inr metadata => Normal metadata
   end, tt, []).
Proof.
  unfold Batch.extractMetadata, try_catch, call.
  destruct (sharp_metadata imageBuffer); reflexivity.
Qed.

Lemma batch_step_run (i : nat) (imageBuffer : Buffer) (opts : Batch.options) :
  exists e t,
    Batch.batch_step ext sharp_process sharp_metadata i imageBuffer opts tt =
      (Normal e, tt, t) /\
    Batch.index e = i /\
    entry_for opts imageBuffer e.
Proof.
  unfold Batch.batch_step.
  unfold try_catch at 1. unfold bind at 1.
  pose proof (processImage_run imageBuffer opts) as Hp. rewrite Hp.
  destruct (sharp_process _ _ _ imageBuffer) as [[msg] | processed].
  { exists (Batch.Failed i msg). eexists.
    split; [ reflexivity | ]. split; [ reflexivity | ].
    left. unfold outcome. rewrite Hp. reflexivity. }
  unfold bind at 1.
  destruct (generatePHashFromBuffer_run processed) as [t [Hrun Hd]].
  rewrite Hrun.
  destruct (bundle_result ext processed) as [b | [msg] |];
    [ | | exfalso; apply Hd; reflexivity ].
  - unfold bind at 1. pose proof (extractMetadata_run imageBuffer) as Hm.
    rewrite Hm.
    destruct (sharp_metadata imageBuffer) as [[msg] | metadata].
    + exists (Batch.Failed i msg). eexists.
      split; [ reflexivity | ]. split; [ reflexivity | ].
      right. exists processed. unfold outcome. rewrite Hp, Hrun, Hm.
      split; [ reflexivity | ]. right.
      eexists. split; reflexivity.
    + exists (Batch.Processed i processed (ImageProcessor.primary b) metadata).
      eexists. split; [ reflexivity | ]. split; [ reflexivity | ].
      cbn [entry_for]. unfold outcome. rewrite Hp, Hrun, Hm. repeat split.
  - exists (Batch.Failed i msg). eexists.
    split; [ reflexivity | ]. split; [ reflexivity | ].
    right. exists processed. unfold outcome. rewrite Hp, Hrun.
    split; [ reflexivity | ]. left. reflexivity.
Qed.

Lemma batch_loop_run (opts : Batch.options) (imageBuffers : list Buffer) :
  forall (i : nat) (results : list Batch.entry),
  exists more t,
    Batch.batch_loop ext sharp_process sharp_metadata imageBuffers i opts results tt =
      (Normal (results ++ more), tt, t) /\
    List.length more = List.length imageBuffers /\
    forall k imageBuffer,
      nth_error imageBuffers k = Some imageBuffer ->
      exists e, nth_error more k = Some e /\
                Batch.index e = (i + k)%nat /\
                entry_for opts imageBuffer e.
Proof.
  induction imageBuffers as [| imageBuffer rest IH]; intros i results.
  - exists [], []. cbn. rewrite app_nil_r. split; [ reflexivity | ].
    split; [ reflexivity | ]. intros [| k] b Hk; discriminate.
  - cbn [Batch.batch_loop]. unfold bind.
    destruct (batch_step_run i imageBuffer opts) as [e [t [Hstep [Hi He]]]].
    rewrite Hstep.
    destruct (IH (S i) (results ++ [e])) as [more [t' [Hrun [Hlen Hnth]]]].
    rewrite Hrun. exists (e :: more), (t ++ t').
    rewrite <- app_assoc. split; [ reflexivity | ].
    split; [ cbn; rewrite Hlen; reflexivity | ].
    intros [| k] b Hk; cbn in Hk.
    + injection Hk as <-. exists e. split; [ reflexivity | ].
      split; [ lia | exact He ].
    + destruct (Hnth k b Hk) as [e' [Hk' [Hi' He']]].
      exists e'. split; [ exact Hk' | ]. split; [ lia | exact He' ].
Qed.

(** X18. [batchProcess] never throws, whatever the images: it returns one
    entry for every image, in the order of the images, each carrying the
    position of its image; an entry reports success exactly with the
    results of the three steps (processing, fingerprint of the processed
    image, metadata of the original), and a failure with the message of the
    first step that failed. *)
Theorem batchProcess_one_entry_per_image (imageBuffers : list Buffer)
    (opts : Batch.options) :
  exists results t,
    Batch.batchProcess ext sharp_process sharp_metadata imageBuffers opts tt =
      (Normal results, tt, t) /\
    List.length results = List.length imageBuffers /\
    forall i imageBuffer,
      nth_error imageBuffers i = Some imageBuffer ->
      exists e, nth_error results i = Some e /\
                Batch.index e = i /\
                entry_for opts imageBuffer e.
Proof.
  unfold Batch.batchProcess.
  destruct (batch_loop_run opts imageBuffers 0 []) as [more [t H]].
  exists more, t. exact H.
Qed.

End BatchProcess.

(** ** The [/api/verify] route: from the report to the stored object *)

Module Route.

(** A stored object: its [id], its view counter and its other properties. *)
Record object (Fields : Type) : Type :=
  { id : string; views : Z; fields : Fields }.

Arguments id {Fields} _.
Arguments views {Fields} _.
Arguments fields {Fields} _.

(** [map.get(key)] and [map.set(key, value)] on the entries of a [Map], in
    insertion order. *)
Fixpoint Map_get {V : Type} (key : string) (entries : list (string * V)) : option V :=
  match entries with
  | [] => None
  | (k, v) :: rest => if String.eqb k key then Some v else Map_get key rest
  end.

Fixpoint Map_set {V : Type} (key : string) (value : V) (entries : list (string * V))
    : list (string * V) :=
  match entries with
  | [] => [(key, value)]
  | (k, v) :: rest =>
      if String.eqb k key then (k, value) :: rest
      else (k, v) :: Map_set key value rest
  end.

(** A string in a condition: the empty string counts as false. *)
Definition truthy (s : string) : bool := negb (String.eqb s "").

(** The answers of the route. *)
Inductive response (Fields : Type) : Type :=
| Status400 (error : string)
| Status500 (error : exn)
| NotVerified (message : string) (debug : option (number * number))
| Verified (obj : object Fields) (confidence : Q) (method : string)
    (stage1_distance stage2_distance : number)
| NoResponse.

Arguments Status400 {Fields} _.
Arguments Status500 {Fields} _.
Arguments NotVerified {Fields} _ _.
Arguments Verified {Fields} _ _ _ _ _.
Arguments NoResponse {Fields}.

(** The two maps of the server that the route uses.  Objects are shared by
    reference: [objectDatabase] maps an id to a location of [heap]. *)
Record server (Fields : Type) : Type :=
  { objectDatabase : list (string * nat);
    hashDatabase : list (string * string);
    heap : nat -> object Fields }.

Arguments objectDatabase {Fields} _.
Arguments hashDatabase {Fields} _.
Arguments heap {Fields} _.

Section WithServer.

Context {Buffer Fields : Type} (ext : Externals Buffer).

(** [sharp(imageBuffer).rotate().resize(512, 512, {...}).jpeg({ quality: 90 })
    .toFile(tempPath)]: the file written, in one pipeline. *)
Variable sharp_normalize_toFile : Buffer -> exn + Buffer.

(** [for (const storedHash of storedHashes) { ...
      if (distance <= 3) { matchedHash = storedHash; break } }] *)
Fixpoint direct_scan (inputHash : string) (storedHashes : list string)
    : option string :=
  match storedHashes with
  | [] => None
  | storedHash :: rest =>
      let distance := AdvancedImageMatcher.hammingDistance inputHash storedHash in
      if JS.le distance (Num 3) then Some storedHash
      else direct_scan inputHash rest
  end.

(** The branches on [matchResults.overall.method] that set [matchedHash]. *)
Definition matchedHashOf (imageBuffer : Buffer) (storedHashes : list string)
    (method : string) : exn + option string :=
  if String.eqb method "direct_phash" then
    match sharp_normalize_toFile imageBuffer with
    | inl error => inl error
    | inr file =>
        match imageHash ext file with
        | inl error => inl error
        | inr inputHash => inr (direct_scan inputHash storedHashes)
        end
    end
  else if String.eqb method "rotation_phash" then inr (hd_error storedHashes)
  else inr None.

(** [object.views += 1] *)
Definition viewed (o : object Fields) : object Fields :=
  {| id := id o; views := views o + 1; fields := fields o |}.

(** From [if (matchedHash)] to the final answer. *)
Definition respond (s : server Fields) (matchResults : AdvancedImageMatcher.results)
    (matchedHash : option string) : response Fields * server Fields :=
  let matchedObjectId :=
    match matchedHash with
    | Some h => if truthy h then Map_get h (hashDatabase s) else None
    | None => None
    end in
  match matchedObjectId with
  | Some objectId =>
      if truthy objectId then
        match Map_get objectId (objectDatabase s) with
        | None =>
            (NotVerified "Object reference found but object data missing" None, s)
        | Some loc =>
            let obj := viewed (heap s loc) in
            (Verified obj
               (Overall.confidence (AdvancedImageMatcher.overall matchResults))
               (Overall.method (AdvancedImageMatcher.overall matchResults))
               (Stage.distance (AdvancedImageMatcher.stage1_phash matchResults))
               (Stage.distance (AdvancedImageMatcher.stage2_rotation matchResults)),
             {| objectDatabase := Map_set (id obj) loc (objectDatabase s);
                hashDatabase := hashDatabase s;
                heap := fun l => if Nat.eqb l loc then obj else heap s l |})
        end
      else (NotVerified "Object found but could not retrieve details" None, s)
  | None => (NotVerified "Object found but could not retrieve details" None, s)
  end.

(** [app.post('/api/verify', ...)], one request on its own. *)
Definition verify (file : option Buffer) (s : server Fields)
    : response Fields * server Fields :=
  match fst (Api.verify ext file (hashDatabase s)), file with
  | Api.Resolve matchResults, Some imageBuffer =>
      let storedHashes := map fst (hashDatabase s) in
      match matchedHashOf imageBuffer storedHashes
              (Overall.method (AdvancedImageMatcher.overall matchResults)) with
      | inl error => (Status500 error, s)
      | inr matchedHash => respond s matchResults matchedHash
      end
  | Api.Resolve _, None => (Status400 "No image file provided", s)
  | Api.Status400 error, _ => (Status400 error, s)
  | Api.Status500 error, _ => (Status500 error, s)
  | Api.NotVerified message debug, _ => (NotVerified message debug, s)
  | Api.NoResponse, _ => (NoResponse, s)
  end.

End WithServer.

End Route.

Section VerifyRoute.

Context {Buffer Fields : Type} (ext : Externals Buffer).
Variable sharp_normalize_toFile : Buffer -> exn + Buffer.

Let verify := Route.verify (Fields := Fields) ext sharp_normalize_toFile.

(** The first part of the route, for a request with a file and a store that
    is not empty. *)
Lemma Api_verify_report (img : Buffer) (entry : string * string)
    (rest : list (string * string)) :
  fst (Api.verify ext (Some img) (entry :: rest)) =
  let r := report ext img (map fst (entry :: rest)) in
  if negb (Overall.matched (AdvancedImageMatcher.overall r)) then
    Api.NotVerified "No matching object found"
      (Some (Stage.distance (AdvancedImageMatcher.stage1_phash r),
             Stage.distance (AdvancedImageMatcher.stage2_rotation r)))
  else Api.Resolve r.
Proof.
  unfold Api.verify. cbn [map List.length Nat.eqb].
  destruct (verifyImageMatch_report ext img (fst entry :: map fst rest)) as [tr Hrun].
  rewrite Hrun. cbv zeta.
  destruct (negb (Overall.matched
                    (AdvancedImageMatcher.overall
                       (report ext img (fst entry :: map fst rest)))));
    reflexivity.
Qed.

Lemma Map_get_set {V : Type} (key : string) (value : V) (entries : list (string * V)) :
  Route.Map_get key (Route.Map_set key value entries) = Some value.
Proof.
  induction entries as [| [k v] entries IH]; cbn.
  - rewrite String.eqb_refl. reflexivity.
  - destruct (String.eqb k key) eqn:Hk; cbn; rewrite Hk; [ reflexivity | exact IH ].
Qed.

(** The state after a request that was answered with an object. *)
Definition served (s : Route.server Fields) (loc : nat) : Route.server Fields :=
  {| Route.objectDatabase :=
       Route.Map_set (Route.id (Route.viewed (Route.heap s loc))) loc
         (Route.objectDatabase s);
     Route.hashDatabase := Route.hashDatabase s;
     Route.heap := fun l => if Nat.eqb l loc then Route.viewed (Route.heap s loc)
                            else Route.heap s l |}.

Lemma respond_cases (s : Route.server Fields) (r : AdvancedImageMatcher.results)
    (matchedHash : option string) :
  (exists message,
     Route.respond s r matchedHash = (Route.NotVerified message None, s)) \/
  (exists h objectId loc,
     matchedHash = Some h /\
     Route.Map_get h (Route.hashDatabase s) = Some objectId /\
     Route.Map_get objectId (Route.objectDatabase s) = Some loc /\
     Route.respond s r matchedHash =
       (Route.Verified (Route.viewed (Route.heap s loc))
          (Overall.confidence (AdvancedImageMatcher.overall r))
          (Overall.method (AdvancedImageMatcher.overall r))
          (Stage.distance (AdvancedImageMatcher.stage1_phash r))
          (Stage.distance (AdvancedImageMatcher.stage2_rotation r)),
        served s loc)).
Proof.
  unfold Route.respond.
  destruct matchedHash as [h |]; [ | left; eexists; reflexivity ].
  destruct (Route.truthy h); [ | left; eexists; reflexivity ].
  destruct (Route.Map_get h (Route.hashDatabase s)) as [objectId |] eqn:Hh;
    [ | left; eexists; reflexivity ].
  destruct (Route.truthy objectId); [ | left; eexists; reflexivity ].
  destruct (Route.Map_get objectId (Route.objectDatabase s)) as [loc |] eqn:Ho;
    [ | left; eexists; reflexivity ].
  right. exists h, objectId, loc. repeat split; assumption.
Qed.

(** How the route can end. *)
Inductive ending (file : option Buffer) (s : Route.server Fields)
    : Route.response Fields * Route.server Fields -> Prop :=
| no_file :
    file = None ->
    ending file s (Route.Status400 "No image file provided", s)
| empty_store img :
    file = Some img -> Route.hashDatabase s = [] ->
    ending file s
      (Route.NotVerified "No objects in database to compare against" None, s)
| no_match img r :
    file = Some img ->
    r = report ext img (map fst (Route.hashDatabase s)) ->
    unmatched r ->
    ending file s
      (Route.NotVerified "No matching object found"
         (Some (Stage.distance (AdvancedImageMatcher.stage1_phash r),
                Stage.distance (AdvancedImageMatcher.stage2_rotation r))), s)
| rehash_failed img r error :
    file = Some img ->
    r = report ext img (map fst (Route.hashDatabase s)) ->
    direct_form r ->
    Route.matchedHashOf ext sharp_normalize_toFile img
      (map fst (Route.hashDatabase s)) "direct_phash" = inl error ->
    ending file s (Route.Status500 error, s)
| not_resolved img r matchedHash message :
    file = Some img ->
    r = report ext img (map fst (Route.hashDatabase s)) ->
    direct_form r \/ rotation_form r ->
    Route.matchedHashOf ext sharp_normalize_toFile img
      (map fst (Route.hashDatabase s))
      (Overall.method (AdvancedImageMatcher.overall r)) = inr matchedHash ->
    ending file s (Route.NotVerified message None, s)
| resolved img r h objectId loc :
    file = Some img ->
    r = report ext img (map fst (Route.hashDatabase s)) ->
    direct_form r \/ rotation_form r ->
    Route.matchedHashOf ext sharp_normalize_toFile img
      (map fst (Route.hashDatabase s))
      (Overall.method (AdvancedImageMatcher.overall r)) = inr (Some h) ->
    Route.Map_get h (Route.hashDatabase s) = Some objectId ->
    Route.Map_get objectId (Route.objectDatabase s) = Some loc ->
    ending file s
      (Route.Verified (Route.viewed (Route.heap s loc))
         (Overall.confidence (AdvancedImageMatcher.overall r))
         (Overall.method (AdvancedImageMatcher.overall r))
         (Stage.distance (AdvancedImageMatcher.stage1_phash r))
         (Stage.distance (AdvancedImageMatcher.stage2_rotation r)),
       served s loc).

Lemma verify_ending (file : option Buffer) (s : Route.server Fields) :
  ending file s (verify file s).
Proof.
  unfold verify, Route.verify.
  destruct file as [img |]; [ | apply no_file; reflexivity ].
  destruct (Route.hashDatabase s) as [| entry rest] eqn:Hdb.
  { cbn. eapply empty_store; [ reflexivity | exact Hdb ]. }
  rewrite Api_verify_report. cbv zeta.
  set (r := report ext img (map fst (entry :: rest))).
  assert (r = report ext img (map fst (Route.hashDatabase s))) as Hr
    by (rewrite Hdb; reflexivity).
  destruct (report_form ext img (map fst (entry :: rest)))
    as [Hform | [Hform | Hform]]; fold r in Hform.
  - pose proof Hform as [Hov _]. rewrite Hov. cbn [Overall.matched negb].
    rewrite Hov. cbn [Overall.method].
    destruct (Route.matchedHashOf ext sharp_normalize_toFile img
                (map fst (entry :: rest)) "direct_phash") as [error | mh] eqn:Hmh.
    + apply (rehash_failed (Some img) s img r error eq_refl Hr Hform).
      rewrite Hdb. exact Hmh.
    + destruct (respond_cases s r mh) as [[message ->] | [h [oid [loc [-> [Hh [Ho ->]]]]]]].
      * apply (not_resolved (Some img) s img r mh message eq_refl Hr
                 (or_introl Hform)).
        rewrite Hov, Hdb. exact Hmh.
      * rewrite Hov. cbn [Overall.confidence Overall.method].
        pose proof (resolved (Some img) s img r h oid loc eq_refl Hr
                      (or_introl Hform)) as Hres.
        rewrite Hov, Hdb in Hres. cbn [Overall.confidence Overall.method] in Hres.
        rewrite Hdb in Hh. exact (Hres Hmh Hh Ho).
  - pose proof Hform as [Hov _]. rewrite Hov. cbn [Overall.matched negb].
    rewrite Hov. cbn [Overall.method].
    destruct (Route.matchedHashOf ext sharp_normalize_toFile img
                (map fst (entry :: rest)) "rotation_phash") as [error | mh] eqn:Hmh.
    + discriminate Hmh.
    + destruct (respond_cases s r mh) as [[message ->] | [h [oid [loc [-> [Hh [Ho ->]]]]]]].
      * apply (not_resolved (Some img) s img r mh message eq_refl Hr
                 (or_intror Hform)).
        rewrite Hov, Hdb. exact Hmh.
      * rewrite Hov. cbn [Overall.confidence Overall.method].
        pose proof (resolved (Some img) s img r h oid loc eq_refl Hr
                      (or_intror Hform)) as Hres.
        rewrite Hov, Hdb in Hres. cbn [Overall.confidence Overall.method] in Hres.
        rewrite Hdb in Hh. exact (Hres Hmh Hh Ho).
  - pose proof Hform as [Hov _].
    assert (Overall.matched (AdvancedImageMatcher.overall r) = false) as Hm
      by (rewrite Hov; reflexivity).
    rewrite Hm. cbn [negb].
    eapply no_match; [ reflexivity | exact Hr | exact Hform ].
Qed.

End VerifyRoute.

Section VerifyRouteProperties.

Context {Buffer Fields : Type} (ext : Externals Buffer).
Variable sharp_normalize_toFile : Buffer -> exn + Buffer.

Lemma Map_get_set_other {V : Type} (key k : string) (value : V)
    (entries : list (string * V)) :
  k <> key ->
  Route.Map_get k (Route.Map_set key value entries) = Route.Map_get k entries.
Proof.
  intros Hk. induction entries as [| [k' v] entries IH]; cbn.
  - destruct (String.eqb key k) eqn:E; [ | reflexivity ].
    apply String.eqb_eq in E. congruence.
  - destruct (String.eqb k' key) eqn:E; cbn.
    + destruct (String.eqb k' k) eqn:E'; [ | reflexivity ].
      apply String.eqb_eq in E, E'. congruence.
    + rewrite IH. reflexivity.
Qed.

Lemma direct_scan_first (inputHash : string) (storedHashes : list string) (h : string) :
  Route.direct_scan inputHash storedHashes = Some h ->
  exists before after,
    storedHashes = before ++ h :: after /\
    JS.le (AdvancedImageMatcher.hammingDistance inputHash h) (Num 3) = true /\
    Forall (fun x => JS.le (AdvancedImageMatcher.hammingDistance inputHash x) (Num 3)
                     = false) before.
Proof.
  induction storedHashes as [| x rest IH]; cbn; [ discriminate | ].
  destruct (JS.le (AdvancedImageMatcher.hammingDistance inputHash x) (Num 3)) eqn:Hx.
  - intros H. injection H as <-. exists [], rest.
    split; [ reflexivity | ]. split; [ exact Hx | constructor ].
  - intros H. destruct (IH H) as [before [after [-> [Hh Hb]]]].
    exists (x :: before), after. split; [ reflexivity | ].
    split; [ exact Hh | constructor; assumption ].
Qed.

(** X19. When the route answers with an object after a match by rotation,
    the object is the one registered under the first stored fingerprint,
    whichever stored fingerprint the rotated image matched; the confidence
    is 0.85. *)
Theorem verify_rotation_returns_first_object (file : option Buffer)
    (s : Route.server Fields) (obj : Route.object Fields) (c : Q) (m : string)
    (d1 d2 : number) :
  fst (Route.verify ext sharp_normalize_toFile file s) = Route.Verified obj c m d1 d2 ->
  m = "rotation_phash" ->
  exists h0 id0 rest loc,
    Route.hashDatabase s = (h0, id0) :: rest /\
    Route.Map_get id0 (Route.objectDatabase s) = Some loc /\
    obj = Route.viewed (Route.heap s loc) /\
    c = 85 # 100.
Proof.
  intros Hv Hm.
  pose proof (verify_ending ext sharp_normalize_toFile file s) as He.
  destruct (Route.verify ext sharp_normalize_toFile file s) as [resp s'].
  cbn [fst] in Hv. subst resp.
  inversion He as [ | | | | | img r h objectId loc Hfile Hr Hform Hmh Hh Ho ];
    subst.
  destruct Hform as [[Hov _] | [Hov _]]; rewrite Hov in *;
    cbn [Overall.method Overall.confidence] in *; [ discriminate | ].
  unfold Route.matchedHashOf in Hmh. cbn in Hmh.
  destruct (Route.hashDatabase s) as [| [h0 id0] rest]; [ discriminate | ].
  cbn in Hmh. injection Hmh as <-.
  cbn in Hh. rewrite String.eqb_refl in Hh. injection Hh as <-.
  exists h0, id0, rest, loc. repeat split. exact Ho.
Qed.

(** X20. When the route answers with an object after a direct match, the
    route has fingerprinted the image again with its own pipeline, and the
    object is the one registered under the first stored fingerprint within
    distance 3 of that fingerprint; the confidence is 0.95. *)
Theorem verify_direct_returns_first_near_object (file : option Buffer)
    (s : Route.server Fields) (obj : Route.object Fields) (c : Q) (m : string)
    (d1 d2 : number) :
  fst (Route.verify ext sharp_normalize_toFile file s) = Route.Verified obj c m d1 d2 ->
  m = "direct_phash" ->
  exists img written inputHash before h after objectId loc,
    file = Some img /\
    sharp_normalize_toFile img = inr written /\
    imageHash ext written = inr inputHash /\
    map fst (Route.hashDatabase s) = before ++ h :: after /\
    JS.le (AdvancedImageMatcher.hammingDistance inputHash h) (Num 3) = true /\
    Forall (fun x => JS.le (AdvancedImageMatcher.hammingDistance inputHash x) (Num 3)
                     = false) before /\
    Route.Map_get h (Route.hashDatabase s) = Some objectId /\
    Route.Map_get objectId (Route.objectDatabase s) = Some loc /\
    obj = Route.viewed (Route.heap s loc) /\
    c = 95 # 100.
Proof.
  intros Hv Hm.
  pose proof (verify_ending ext sharp_normalize_toFile file s) as He.
  destruct (Route.verify ext sharp_normalize_toFile file s) as [resp s'].
  cbn [fst] in Hv. subst resp.
  inversion He as [ | | | | | img r h objectId loc Hfile Hr Hform Hmh Hh Ho ];
    subst.
  destruct Hform as [[Hov _] | [Hov _]]; rewrite Hov in *;
    cbn [Overall.method Overall.confidence] in *; [ | discriminate ].
  unfold Route.matchedHashOf in Hmh. cbn [String.eqb Ascii.eqb Bool.eqb] in Hmh.
  destruct (sharp_normalize_toFile img) as [e | written] eqn:Hw; [ discriminate | ].
  destruct (imageHash ext written) as [e | inputHash] eqn:Hi; [ discriminate | ].
  injection Hmh as Hscan.
  destruct (direct_scan_first _ _ _ Hscan) as [before [after [Hsplit [Hnear Hfar]]]].
  exists img, written, inputHash, before, h, after, objectId, loc.
  repeat split; assumption.
Qed.


(** X22. The route always answers, and it changes the server's state only
    when it answers with an object: then the view counter of that object is
    one higher, the object is (again) registered under its own id, and no
    other object, no other id and no fingerprint has changed. *)
Theorem verify_state_change (file : option Buffer) (s : Route.server Fields) :
  let resp := fst (Route.verify ext sharp_normalize_toFile file s) in
  let s' := snd (Route.verify ext sharp_normalize_toFile file s) in
  resp <> Route.NoResponse /\
  Route.hashDatabase s' = Route.hashDatabase s /\
  match resp with
  | Route.Verified obj _ _ _ _ =>
      exists loc,
        Route.heap s' loc = obj /\
        Route.id obj = Route.id (Route.heap s loc) /\
        Route.views obj = Route.views (Route.heap s loc) + 1 /\
        Route.fields obj = Route.fields (Route.heap s loc) /\
        (forall l, l <> loc -> Route.heap s' l = Route.heap s l) /\
        Route.Map_get (Route.id obj) (Route.objectDatabase s') = Some loc /\
        (forall k, k <> Route.id obj ->
           Route.Map_get k (Route.objectDatabase s') =
           Route.Map_get k (Route.objectDatabase s))
  | _ => s' = s
  end.
Proof.
  cbv zeta.
  pose proof (verify_ending ext sharp_normalize_toFile file s) as He.
  destruct (Route.verify ext sharp_normalize_toFile file s) as [resp s'].
  cbn [fst snd].
  inversion He as [ | | | | | img r h objectId loc Hfile Hr Hform Hmh Hh Ho ];
    subst; try (split; [ discriminate | split; reflexivity ]).
  split; [ discriminate | ]. split; [ reflexivity | ].
  exists loc. unfold served. cbn [Route.heap Route.objectDatabase Route.viewed
                                  Route.id Route.views Route.fields].
  rewrite Nat.eqb_refl. repeat split.
  - intros l Hl. apply Nat.eqb_neq in Hl. rewrite Hl. reflexivity.
  - apply Map_get_set.
  - intros k Hk. apply Map_get_set_other. exact Hk.
Qed.

End VerifyRouteProperties.

(** A server with two objects, for the instances below. *)
Module RouteToy.

Definition objA : Route.object unit :=
  {| Route.id := "A"; Route.views := 0; Route.fields := tt |}.

Definition objB : Route.object unit :=
  {| Route.id := "B"; Route.views := 4; Route.fields := tt |}.

Definition server : Route.server unit :=
  {| Route.objectDatabase := [("A", 0%nat); ("B", 1%nat)];
     Route.hashDatabase := [(ImageProcessor.zeroHash, "A"); (Toy.h1, "B")];
     Route.heap := fun l => if Nat.eqb l 0 then objA else objB |}.

(** The one-pipeline normalisation of the route, and one that fails. *)
Definition toFile (b : Toy.picture) : exn + Toy.picture :=
  match b with
  | Toy.Raw id => inr (Toy.Normalized id)
  | other => inr other
  end.


End RouteToy.

Lemma verify_rotation_returns_first_object_toy :
  exists h0 id0 rest loc,
    Route.hashDatabase RouteToy.server = (h0, id0) :: rest /\
    Route.Map_get id0 (Route.objectDatabase RouteToy.server) = Some loc /\
    Route.viewed RouteToy.objA = Route.viewed (Route.heap RouteToy.server loc) /\
    85 # 100 = 85 # 100.
Proof.
  assert (exists d1 d2,
            fst (Route.verify
                   (Toy.world Toy.always Toy.always Toy.only_turned90
                      ImageProcessor.zeroHash)
                   RouteToy.toFile (Some (Toy.Raw 1)) RouteToy.server) =
            Route.Verified (Route.viewed RouteToy.objA) (85 # 100) "rotation_phash"
              d1 d2) as [d1 [d2 Hv]]
    by (eexists; eexists; vm_compute; reflexivity).
  exact (verify_rotation_returns_first_object
           (Toy.world Toy.always Toy.always Toy.only_turned90 ImageProcessor.zeroHash)
           RouteToy.toFile (Some (Toy.Raw 1)) RouteToy.server
           (Route.viewed RouteToy.objA) (85 # 100) "rotation_phash" d1 d2
           Hv eq_refl).
Defined.

Lemma verify_direct_returns_first_near_object_toy :
  exists img written inputHash before h after objectId loc,
    Some (Toy.Raw 1) = Some img /\
    RouteToy.toFile img = inr written /\
    imageHash (Toy.world Toy.always Toy.always Toy.plain ImageProcessor.zeroHash)
      written = inr inputHash /\
    map fst (Route.hashDatabase RouteToy.server) = before ++ h :: after /\
    JS.le (AdvancedImageMatcher.hammingDistance inputHash h) (Num 3) = true /\
    Forall (fun x => JS.le (AdvancedImageMatcher.hammingDistance inputHash x) (Num 3)
                     = false) before /\
    Route.Map_get h (Route.hashDatabase RouteToy.server) = Some objectId /\
    Route.Map_get objectId (Route.objectDatabase RouteToy.server) = Some loc /\
    Route.viewed RouteToy.objB = Route.viewed (Route.heap RouteToy.server loc) /\
    95 # 100 = 95 # 100.
Proof.
  assert (exists d1 d2,
            fst (Route.verify
                   (Toy.world Toy.always Toy.always Toy.plain ImageProcessor.zeroHash)
                   RouteToy.toFile (Some (Toy.Raw 1)) RouteToy.server) =
            Route.Verified (Route.viewed RouteToy.objB) (95 # 100) "direct_phash"
              d1 d2) as [d1 [d2 Hv]]
    by (eexists; eexists; vm_compute; reflexivity).
  exact (verify_direct_returns_first_near_object
           (Toy.world Toy.always Toy.always Toy.plain ImageProcessor.zeroHash)
           RouteToy.toFile (Some (Toy.Raw 1)) RouteToy.server
           (Route.viewed RouteToy.objB) (95 # 100) "direct_phash" d1 d2
           Hv eq_refl).
Defined.

